(** * AnokiwaveChipDemo: beam definition (beamdef.py) and its GUI caller (BeamDemo.py)

    A shallow embedding of [src/beamdef.py] and of the input regulation of
    [src/BeamDemo.py].

    Number model.  Python [int] values are modelled by [Z].  Python [float]
    values are modelled by the real numbers of the Standard Library ([R])
    wherever a binary64 rounding error only perturbs a value in its last
    places: there the statements are about the arithmetic that the code
    writes down, carried out exactly.  One computation is not of this kind:
    [_radiansToAwmf0108] truncates the quotient [multiple * n / multiple],
    which is the integer [n] in exact arithmetic, so that an error of one
    unit in the last place moves the result by a whole code.  That product,
    quotient and truncation are computed in binary64, with the operations of
    the Standard Library's specification of IEEE 754 ([SpecFloat]).

    Elsewhere the model is an idealisation, and it differs from the binary64
    run of the source in three known places: a reduced phase within a
    rounding error of a half step of the quantizer may round to the other
    neighbour; the sampling loops of [generateAllAF] add their step exactly,
    where the accumulated binary64 sum can stay below the bound for one more
    iteration (for 13, 19, 25 and other resolutions; not for the default 30,
    whose steps 3 and 12 are exact); and [cos] of a polar angle of 90 degrees
    is 0 here, so that the projection raises [ZeroDivisionError], where the
    binary64 value is about 6e-17 and the source goes on (the statements
    about returning calls assume a cosine that is not zero).

    Exceptions are modelled by the [result] type; every Python division goes
    through [py_div], which raises [ZeroDivisionError] on a zero divisor. *)

From Stdlib Require Import Reals ZArith String List Bool Lia Lra Psatz.
From Stdlib Require SpecFloat.
Import ListNotations.

Open Scope R_scope.

(** ** Exceptions *)

Inductive exn : Set :=
| KeyError
| IndexError
| ZeroDivisionError
| ValueError
| OverflowError
| OutOfFuel.   (* not a Python exception: the loop budget of the model ran out *)

Inductive result (A : Type) : Type :=
| Ok (a : A)
| Raise (e : exn).

Arguments Ok {A} a.
Arguments Raise {A} e.

Definition bind {A B : Type} (m : result A) (k : A -> result B) : result B :=
  match m with
  | Ok a => k a
  | Raise e => Raise e
  end.

Notation "x <- m ;; k" := (bind m (fun x => k))
  (at level 61, m at next level, right associativity).
Notation "' p <- m ;; k" := (bind m (fun x => match x with p => k end))
  (at level 61, p pattern, m at next level, right associativity).

Fixpoint mapM {A B : Type} (f : A -> result B) (l : list A) : result (list B) :=
  match l with
  | [] => Ok []
  | x :: r => y <- f x ;; ys <- mapM f r ;; Ok (y :: ys)
  end.

(** ** Python arithmetic *)

(** [x / y] on numbers. *)
Definition py_div (x y : R) : result R :=
  if Req_dec_T y 0 then Raise ZeroDivisionError else Ok (x / y).

(** [x % y] on floats: the result has the sign of the divisor. *)
Definition py_fmod (x y : R) : result R :=
  if Req_dec_T y 0 then Raise ZeroDivisionError
  else Ok (x - y * IZR (Zfloor (x / y))).

(** [round(x)] of Python 3: nearest integer, ties to the even one. *)
Definition py_round (x : R) : Z :=
  let f := Zfloor x in
  let d := x - IZR f in
  if Rlt_dec d (1 / 2) then f
  else if Rlt_dec (1 / 2) d then (f + 1)%Z
  else if Z.even f then f else (f + 1)%Z.

(** [math.trunc(x)]: towards zero. *)
Definition py_trunc (x : R) : Z :=
  if Rle_dec 0 x then Zfloor x else Zceil x.

(** [math.radians(x)]. *)
Definition radians (x : R) : R := x * (PI / 180).

(** ** binary64

    The float operations of the one computation that is carried out in
    binary64 (53 bits of precision, exponents below 1024, rounding to
    nearest, ties to even). *)

Definition b64 : Type := SpecFloat.spec_float.

(** [x * y] on floats. *)
Definition b64_mul (x y : b64) : b64 := SpecFloat.SFmul 53 1024 x y.

(** [x / y] on floats. *)
Definition b64_div (x y : b64) : result b64 :=
  match y with
  | SpecFloat.S754_zero _ => Raise ZeroDivisionError
  | _ => Ok (SpecFloat.SFdiv 53 1024 x y)
  end.

(** [float(n)] of an int [n], as an operand of [*] or [/] takes it. *)
Definition b64_of_int (n : Z) : b64 := SpecFloat.binary_normalize 53 1024 n 0 false.

(** [math.pi], the binary64 number 0x1.921fb54442d18p+1. *)
Definition b64_pi : b64 := SpecFloat.S754_finite false 7074237752028440 (-51).

(** [math.trunc(x)] of a float: towards zero; an infinity raises
    [OverflowError] and a NaN [ValueError]. *)
Definition b64_trunc (x : b64) : result Z :=
  match x with
  | SpecFloat.S754_zero _ => Ok 0%Z
  | SpecFloat.S754_infinity _ => Raise OverflowError
  | SpecFloat.S754_nan => Raise ValueError
  | SpecFloat.S754_finite s m e =>
      let a := match e with
               | Z0 => Zpos m
               | Zpos _ => Z.shiftl (Zpos m) e
               | Zneg k => Z.shiftr (Zpos m) (Zpos k)
               end in
      Ok (if s then (- a)%Z else a)
  end.

(** [min(l, key=key)]: the first element of [l], in iteration order, whose
    key is minimal; [ValueError] on an empty sequence. *)
Fixpoint py_min_from (key : Z -> Z) (best : Z) (l : list Z) : Z :=
  match l with
  | [] => best
  | x :: r =>
      if (key x <? key best)%Z then py_min_from key x r
      else py_min_from key best r
  end.

Definition py_min (key : Z -> Z) (l : list Z) : result Z :=
  match l with
  | [] => Raise ValueError
  | x :: r => Ok (py_min_from key x r)
  end.

(** ** Dictionaries

    A Python [dict] keeps its keys in insertion order; assigning to a key that
    is already present replaces the value in place. *)

Section Dict.
Context {K V : Type} (eqb : K -> K -> bool).

Fixpoint dict_get (k : K) (d : list (K * V)) : option V :=
    match d with
    | [] => None
    | (k', v) :: r => if eqb k k' then Some v else dict_get k r
    end.

Fixpoint dict_set (k : K) (v : V) (d : list (K * V)) : list (K * V) :=
    match d with
    | [] => [(k, v)]
    | (k', v') :: r =>
        if eqb k k' then (k, v) :: r else (k', v') :: dict_set k v r
    end.

  (** [dict(pairs)] *)
Definition dict_of (pairs : list (K * V)) : list (K * V) :=
    fold_left (fun d kv => dict_set (fst kv) (snd kv) d) pairs [].

  (** [d[k]] *)
Definition dict_index (k : K) (d : list (K * V)) : result V :=
    match dict_get k d with
    | Some v => Ok v
    | None => Raise KeyError
    end.
End Dict.

(** ** Quadrant labels (beamdef.py, lines 18-22) *)

Definition NW : string := "NW".
Definition SW : string := "SW".
Definition SE : string := "SE".
Definition NE : string := "NE".

(** ** AWMF-0108 constants (beamdef.py, lines 55-57) *)

Definition phaseControlRange : Z := 32.
Definition phaseControlMax : R := 2 * PI.

(** ** The phase quantizer (beamdef.py, lines 270-287) *)

Definition _roundToNearest (x multiple : R) : result R :=
  q <- py_div x multiple ;;
  Ok (multiple * IZR (py_round q)).

(** [self.phaseControlMax / self.phaseControlRange] in binary64. *)
Definition b64_interval : result b64 :=
  b64_div (b64_mul (b64_of_int 2) b64_pi) (b64_of_int phaseControlRange).

(** [trunc(self._roundToNearest(fixed, interval) / interval)] in binary64,
    for the int [n] that [round] returned inside [_roundToNearest]. *)
Definition b64_truncated_quotient (n : Z) : result Z :=
  interval <- b64_interval ;;
  q <- b64_div (b64_mul interval (b64_of_int n)) interval ;;
  b64_trunc q.

(** The reduction of the phase and the rounding to a number of steps are
    exact: [py_round x] is the int that [round] returns inside
    [_roundToNearest].  The multiple, its quotient by [interval] and the
    truncation are those of binary64. *)
Definition _radiansToAwmf0108 (rads : R) : result Z :=
  interval <- py_div phaseControlMax (IZR phaseControlRange) ;;
  fixed <- py_fmod rads (2 * PI) ;;
  x <- py_div fixed interval ;;
  val <- b64_truncated_quotient (py_round x) ;;
  Ok (if (val =? phaseControlRange)%Z then 0%Z else val).

(** ** Calibration (beamdef.py, lines 256-267)

    The calibration map is what [yaml.safe_load] returned: [None] when the file
    could not be opened, otherwise a two-level dictionary
    quadrant -> (setting -> offset).  [if calMap:] is false for [None] and for
    an empty dictionary. *)

Definition caltable : Type := list (Z * Z).
Definition calmap : Type := list (string * caltable).

Definition keys {K V : Type} (d : list (K * V)) : list K := map fst d.

Definition _applyCalibration (quadrant : string) (setting : Z)
    (calMap : option calmap) : result Z :=
  match calMap with
  | None => Ok setting
  | Some [] => Ok setting
  | Some m =>
      tbl <- dict_index String.eqb quadrant m ;;
      closestSetting <- py_min (fun x => Z.abs (x - setting)) (keys tbl) ;;
      tbl' <- dict_index String.eqb quadrant m ;;
      off <- dict_index Z.eqb closestSetting tbl' ;;
      Ok ((setting - off) mod 32)%Z
  end.

(** ** Lists indexed as Python indexes them

    [l[i]] and [l[i] = v] raise [IndexError] out of range; all the indices the
    code computes are non-negative. *)

Definition list_index {A : Type} (l : list A) (i : nat) : result A :=
  match nth_error l i with
  | Some x => Ok x
  | None => Raise IndexError
  end.

Fixpoint list_assign {A : Type} (l : list A) (i : nat) (v : A) : result (list A) :=
  match l, i with
  | [], _ => Raise IndexError
  | _ :: r, O => Ok (v :: r)
  | x :: r, S i' => r' <- list_assign r i' v ;; Ok (x :: r')
  end.

(** [g[i][j]] *)
Definition grid_index {A : Type} (g : list (list A)) (i j : nat) : result A :=
  row <- list_index g i ;; list_index row j.

(** [g[i][j] = v] *)
Definition grid_assign {A : Type} (g : list (list A)) (i j : nat) (v : A)
    : result (list (list A)) :=
  row <- list_index g i ;;
  row' <- list_assign row j v ;;
  list_assign g i row'.

(** [for x in l: s = body(s, x)] *)
Fixpoint for_each {S : Type} (l : list nat) (body : S -> nat -> result S) (s : S)
    : result S :=
  match l with
  | [] => Ok s
  | x :: r => s' <- body s x ;; for_each r body s'
  end.

(** [range(a, b)] *)
Definition range (a b : nat) : list nat := seq a (b - a).

(** ** The controller state (beamdef.py, lines 35-84) *)

Record BeamDefinition : Type := mkBeam {
  theta : R;
  phi : R;
  beamStrength : R;
  waveLength : R;
  antennaGrid : list (list string);
  antennaInvert : list (list bool);
  antennaSpacing : R;
  phaseSettings : list Z;
  phaseSettingsRaw : list (list R);
  gainSettings : list (list R);
  phaseCal : option calmap
}.

(** [__init__]; [cal] is what [loadPhaseCal(phaseCalFile)] returned. *)
Definition init (theta0 phi0 waveLength0 : R) (cal : option calmap)
    (beamStrength0 : R) : BeamDefinition :=
  {| theta := radians theta0;
     phi := radians phi0;
     beamStrength := beamStrength0;
     waveLength := waveLength0;
     antennaGrid := [[NE; NW; SE; SW]];
     antennaInvert := [[true; false; true; false]];
     antennaSpacing := 5.4 * / (10 ^ 3);
     phaseSettings := [];
     phaseSettingsRaw := [];
     gainSettings := [];
     phaseCal := cal |}.

Definition with_phase (self : BeamDefinition) (settings : list Z)
    (raw : list (list R)) : BeamDefinition :=
  {| theta := theta self;
     phi := phi self;
     beamStrength := beamStrength self;
     waveLength := waveLength self;
     antennaGrid := antennaGrid self;
     antennaInvert := antennaInvert self;
     antennaSpacing := antennaSpacing self;
     phaseSettings := settings;
     phaseSettingsRaw := raw;
     gainSettings := gainSettings self;
     phaseCal := phaseCal self |}.

Definition with_gain (self : BeamDefinition) (gain : list (list R))
    : BeamDefinition :=
  {| theta := theta self;
     phi := phi self;
     beamStrength := beamStrength self;
     waveLength := waveLength self;
     antennaGrid := antennaGrid self;
     antennaInvert := antennaInvert self;
     antennaSpacing := antennaSpacing self;
     phaseSettings := phaseSettings self;
     phaseSettingsRaw := phaseSettingsRaw self;
     gainSettings := gain;
     phaseCal := phaseCal self |}.

(** ** setAntenna (beamdef.py, lines 170-181) *)

Definition setAntenna (self : BeamDefinition) (grid : list (list string))
    (invertPattern : list (list bool)) (spacing : R) : BeamDefinition :=
  {| theta := theta self;
     phi := phi self;
     beamStrength := beamStrength self;
     waveLength := waveLength self;
     antennaGrid := grid;
     antennaInvert := invertPattern;
     antennaSpacing := spacing;
     phaseSettings := [];
     phaseSettingsRaw := phaseSettingsRaw self;
     gainSettings := [];
     phaseCal := phaseCal self |}.

(** ** getPhaseSettings (beamdef.py, lines 87-138) *)

(** Lines 113-121: the raw phase field.  The comprehension of line 113 only
    evaluates [antennaGrid[0]] once per row, so an empty grid gives [[]]
    without an [IndexError]. *)
Definition ew_body (ew_phaseOffset : R) (i : nat) (offsets : list (list R))
    (j : nat) : result (list (list R)) :=
  prev <- grid_index offsets i (j - 1) ;;
  grid_assign offsets i j (prev + ew_phaseOffset).

Definition ns_body (cols : nat) (ns_phaseOffset ew_phaseOffset : R)
    (offsets : list (list R)) (i : nat) : result (list (list R)) :=
  offsets1 <- (if (i =? 0)%nat then grid_assign offsets 0 0 0
               else prev <- grid_index offsets (i - 1) 0 ;;
                    grid_assign offsets i 0 (prev + ns_phaseOffset)) ;;
  for_each (range 1 cols) (ew_body ew_phaseOffset i) offsets1.

Definition build_offsets (rows cols : nat) (ns_phaseOffset ew_phaseOffset : R)
    : result (list (list R)) :=
  let offsets := repeat (repeat 0 cols) rows in
  for_each (range 0 rows) (ns_body cols ns_phaseOffset ew_phaseOffset) offsets.

(** Lines 126-129: the wiring inversion. *)
Definition invert_body (antennaInvert : list (list bool)) (i : nat)
    (offsets : list (list R)) (j : nat) : result (list (list R)) :=
  inv <- grid_index antennaInvert i j ;;
  if (inv : bool) then
    cur <- grid_index offsets i j ;;
    grid_assign offsets i j (cur + PI)
  else Ok offsets.

Definition apply_invert (rows cols : nat) (antennaInvert : list (list bool))
    (offsets : list (list R)) : result (list (list R)) :=
  for_each (range 0 rows)
    (fun offsets i => for_each (range 0 cols) (invert_body antennaInvert i) offsets)
    offsets.

(** Line 133: the dictionary comprehension over [d_offsets.items()]. *)
Definition quantize_items (d_offsets : list (string * R))
    : result (list (string * Z)) :=
  items <- mapM (fun kv => s <- _radiansToAwmf0108 (snd kv) ;; Ok (fst kv, s))
                d_offsets ;;
  Ok (dict_of String.eqb items).

(** Lines 99-111: the two phase gradients [(ew_phaseOffset, ns_phaseOffset)]. *)
Definition phase_gradients (self : BeamDefinition) : result (R * R) :=
  k <- py_div (2 * PI) (waveLength self) ;;
  let p := phi self in
  let t := theta self in
  ew_tan <- py_div (sin p * sin t) (cos t) ;;
  let ew_angle := atan ew_tan in
  ns_tan <- py_div (cos p * sin t) (cos t) ;;
  let ns_angle := atan ns_tan in
  let d := antennaSpacing self in
  let ew_phaseOffset := - k * d * sin ew_angle in
  let ns_phaseOffset := - k * d * sin ns_angle in
  Ok (ew_phaseOffset, ns_phaseOffset).

(** Lines 113-129: the raw field (the [deepcopy] of line 124) and the field
    after the wiring inversion. *)
Definition phase_fields (self : BeamDefinition)
    : result (list (list R) * list (list R)) :=
  g <- phase_gradients self ;;
  let rows := length (antennaGrid self) in
  let cols := length (hd [] (antennaGrid self)) in
  offsets <- build_offsets rows cols (snd g) (fst g) ;;
  let raw := offsets in
  offsets <- apply_invert rows cols (antennaInvert self) offsets ;;
  Ok (raw, offsets).

Definition getPhaseSettings (self : BeamDefinition)
    : result (list Z * BeamDefinition) :=
  if (0 <? length (phaseSettings self))%nat then Ok (phaseSettings self, self)
  else
    f <- phase_fields self ;;
    let d_offsets :=
      dict_of String.eqb (combine (concat (antennaGrid self)) (concat (snd f))) in
    s_offsets <- quantize_items d_offsets ;;
    n_offsets <- mapM (fun x => s <- dict_index String.eqb x s_offsets ;;
                                _applyCalibration x s (phaseCal self))
                      [NE; SE; SW; NW] ;;
    Ok (n_offsets, with_phase self n_offsets (fst f)).

(** ** getRawPhaseSettings (beamdef.py, lines 140-151) *)

Definition getRawPhaseSettings (self : BeamDefinition)
    : result (list (list R) * BeamDefinition) :=
  if (length (phaseSettingsRaw self) =? 0)%nat then
    r <- getPhaseSettings self ;;
    Ok (phaseSettingsRaw (snd r), snd r)
  else Ok (phaseSettingsRaw self, self).

(** ** getRelativeGain (beamdef.py, lines 153-165) *)

Definition getRelativeGain (self : BeamDefinition)
    : result (list (list R) * BeamDefinition) :=
  if (0 <? length (gainSettings self))%nat then Ok (gainSettings self, self)
  else
    let xdim := length (antennaGrid self) in
    row0 <- list_index (antennaGrid self) 0 ;;
    let ydim := length row0 in
    gain <- mapM (fun _ : nat =>
                    mapM (fun _ : nat =>
                            py_div (beamStrength self) (beamStrength self))
                         (range 0 ydim))
                 (range 0 xdim) ;;
    Ok (gain, with_gain self gain).

(** ** Array factor (beamdef.py, lines 230-253)

    The array factor is a Python [complex]; magnitudes are [float].  [cexp_i x]
    is [cmath.exp(1j * x)]. *)

Inductive pynum : Type :=
| PFloat (r : R)
| PComplex (re im : R).

Definition py_abs (a : pynum) : R :=
  match a with
  | PFloat r => Rabs r
  | PComplex re im => sqrt (re * re + im * im)
  end.

Definition py_add (a b : pynum) : pynum :=
  match a, b with
  | PFloat x, PFloat y => PFloat (x + y)
  | PFloat x, PComplex re im => PComplex (x + re) im
  | PComplex re im, PFloat y => PComplex (re + y) im
  | PComplex re im, PComplex re' im' => PComplex (re + re') (im + im')
  end.

(** [x * c] for a float [x] *)
Definition py_scale (x : R) (c : pynum) : pynum :=
  match c with
  | PFloat y => PFloat (x * y)
  | PComplex re im => PComplex (x * re) (x * im)
  end.

Definition cexp_i (x : R) : pynum := PComplex (cos x) (sin x).

(** [a / y] for a float [y] *)
Definition py_num_div (a : pynum) (y : R) : result pynum :=
  match a with
  | PFloat x => q <- py_div x y ;; Ok (PFloat q)
  | PComplex re im =>
      if Req_dec_T y 0 then Raise ZeroDivisionError
      else Ok (PComplex (re / y) (im / y))
  end.

Definition af_body (k dist theta0 phi0 : R) (I d : list (list R)) (n : nat)
    (cumulativeAF : pynum) (m : nat) : result pynum :=
  let costerm := k * dist * INR n * sin theta0 * cos phi0 in
  let sinterm := k * dist * INR m * sin theta0 * sin phi0 in
  Inm <- grid_index I n m ;;
  dnm <- grid_index d n m ;;
  Ok (py_add cumulativeAF (py_scale Inm (cexp_i (dnm + costerm + sinterm)))).

Definition _calculateArrayFactor (self : BeamDefinition) (theta0 phi0 : R)
    (I d : list (list R)) (waveLength0 : R) : result pynum :=
  let dist := antennaSpacing self in
  k <- py_div (2 * PI) waveLength0 ;;
  for_each (range 0 (length (antennaGrid self)))
    (fun cumulativeAF n =>
       for_each (range 0 (length (hd [] (antennaGrid self))))
         (af_body k dist theta0 phi0 I d n) cumulativeAF)
    (PFloat 0).

(** ** generateAllAF (beamdef.py, lines 184-228)

    A sample is [((t, p), a)].  The two [while] loops run on a budget [fuel];
    [OutOfFuel] stands for a run that has not finished within it. *)

Definition sample : Type := (R * R * pynum)%type.

Fixpoint phi_loop (fuel : nat) (self : BeamDefinition) (absAf : bool)
    (p_max p_d t p : R) (points : list sample) (af_max : pynum)
    : result (list sample * pynum * BeamDefinition) :=
  match fuel with
  | O => Raise OutOfFuel
  | S fuel' =>
      if Rlt_dec p p_max then
        g <- getRelativeGain self ;;
        r <- getRawPhaseSettings (snd g) ;;
        a <- _calculateArrayFactor (snd r) (radians t) (radians p)
               (fst g) (fst r) (waveLength (snd r)) ;;
        let a := if absAf then PFloat (py_abs a) else a in
        let points := points ++ [(t, p, a)] in
        let af_max := if Rlt_dec (py_abs af_max) (py_abs a) then a else af_max in
        phi_loop fuel' (snd r) absAf p_max p_d t (p + p_d) points af_max
      else Ok (points, af_max, self)
  end.

Fixpoint theta_loop (fuel : nat) (self : BeamDefinition) (absAf : bool)
    (t_max t_d p_max p_d t : R) (points : list sample) (af_max : pynum)
    : result (list sample * pynum * BeamDefinition) :=
  match fuel with
  | O => Raise OutOfFuel
  | S fuel' =>
      if Rlt_dec t t_max then
        r <- phi_loop fuel' self absAf p_max p_d t 0 points af_max ;;
        theta_loop fuel' (snd r) absAf t_max t_d p_max p_d (t + t_d)
          (fst (fst r)) (snd (fst r))
      else Ok (points, af_max, self)
  end.

Definition generateAllAF (fuel : nat) (self : BeamDefinition) (n_theta n_phi : Z)
    (normalized absAf backLobes : bool) : result (list sample * BeamDefinition) :=
  let t_max := if backLobes then 180 else 90 in
  let p_max := 360 in
  p_d <- py_div p_max (IZR n_phi) ;;
  t_d <- py_div t_max (IZR n_theta) ;;
  r <- theta_loop fuel self absAf t_max t_d p_max p_d 0 [] (PFloat (-1)) ;;
  let points := fst (fst r) in
  let af_max := snd (fst r) in
  if normalized then
    pts <- mapM (fun s : sample =>
                   a <- py_num_div (snd s) (py_abs af_max) ;; Ok (fst s, a))
                points ;;
    Ok (pts, snd r)
  else Ok (points, snd r).

(** ** BeamDemo.py: the input regulation of sketchAfPattern (lines 127-133)

    The widgets are not part of the sources; a handler is modelled as a
    function of the values its boxes hold. *)

Definition regulate_phi (value : R) : result R :=
  if Rlt_dec value 0 then py_fmod value 360
  else if Rle_dec 360 value then py_fmod value 360
  else Ok value.

(** [calculateWavelength] (lines 79-84) *)
Definition calculateWavelength (waveLengthBox : R) : result R :=
  let frequency := waveLengthBox * 10 ^ 9 in
  let c := 3 * 10 ^ 8 in
  py_div c frequency.

(** The [BeamDefinition] that [sketchAfPattern] samples. *)
Definition sketchAfPattern_beam (thetaBox phiBox waveLengthBox amplitudeBox : R)
    (cal : option calmap) (aGrid : list (list string))
    (aInvertPattern : list (list bool)) (aSpacing : R) : result BeamDefinition :=
  phiv <- regulate_phi phiBox ;;
  wavelength <- calculateWavelength waveLengthBox ;;
  let temp_bd := init thetaBox phiv wavelength cal amplitudeBox in
  Ok (setAntenna temp_bd aGrid aInvertPattern aSpacing).

(** ** Closed forms used in the statements *)

(** The list [v; v + e; (v + e) + e; ...] of [n] values. *)
Fixpoint ramp (v e : R) (n : nat) : list R :=
  match n with
  | O => []
  | S n' => v :: ramp (v + e) e n'
  end.

(** The field whose first column ramps by [ns] from 0 and whose rows ramp by
    [ew] from their first column. *)
Definition phase_field (rows cols : nat) (ns ew : R) : list (list R) :=
  map (fun c => ramp c ew cols) (ramp 0 ns rows).

Definition flip (b : bool) (x : R) : R := if b then x + PI else x.

Definition flip_row (mrow : list bool) (row : list R) : list R :=
  map (fun bx => flip (fst bx) (snd bx)) (combine mrow row).

Definition flip_field (mask : list (list bool)) (field : list (list R))
    : list (list R) :=
  map (fun mr => flip_row (fst mr) (snd mr)) (combine mask field).

(** Entry [i][j] of a field and of a mask. *)
Definition cell (g : list (list R)) (i j : nat) : R := nth j (nth i g []) 0.
Definition mask_at (m : list (list bool)) (i j : nat) : bool :=
  nth j (nth i m []) false.

(** A list of [rows] rows of [cols] entries each. *)
Definition rectangular {A : Type} (g : list (list A)) (rows cols : nat) : Prop :=
  length g = rows /\ Forall (fun r => length r = cols) g.

(** What the truncation makes of [n] steps: binary64 gives the quotient of
    11, 15, 22 and 30 steps by one step just below the integer. *)
Definition truncated_steps (n : Z) : Z :=
  if existsb (Z.eqb n) [11; 15; 22; 30]%Z then (n - 1)%Z else n.

(** The code that [_radiansToAwmf0108] returns. *)
Definition awmf_code (rads : R) : Z :=
  let fixed := rads - 2 * PI * IZR (Zfloor (rads / (2 * PI))) in
  let q := truncated_steps (py_round (fixed / (2 * PI / 32))) in
  if (q =? 32)%Z then 0%Z else q.

(** The value of the last pair of [l] whose key is [k]. *)
Fixpoint assoc_last {V : Type} (k : string) (l : list (string * V)) : option V :=
  match l with
  | [] => None
  | (k', v) :: r =>
      match assoc_last k r with
      | Some v' => Some v'
      | None => if String.eqb k k' then Some v else None
      end
  end.

(** Position [n] is the last one of [l] that holds [x]. *)
Definition last_position {A : Type} (l : list A) (x : A) (n : nat) : Prop :=
  nth_error l n = Some x /\ forall m, (n < m)%nat -> nth_error l m <> Some x.

(** A calibration map that is absent, empty, or has a non-empty table for
    each of the four quadrants. *)
Definition cal_complete (cal : option calmap) : Prop :=
  match cal with
  | None => True
  | Some [] => True
  | Some m =>
      forall x, In x [NE; SE; SW; NW] ->
        exists tbl, dict_get String.eqb x m = Some tbl /\ tbl <> []
  end.

(** [v] is the setting of label [x]: the calibrated code of the inverted phase
    at the last position, in row-major order, at which the grid holds [x]. *)
Definition label_setting (self : BeamDefinition) (inverted : list (list R))
    (x : string) (v : Z) : Prop :=
  exists (n : nat) (ph : R),
    last_position (concat (antennaGrid self)) x n /\
    nth_error (concat inverted) n = Some ph /\
    _applyCalibration x (awmf_code ph) (phaseCal self) = Ok v.

(** A controller as [__init__] or [setAntenna] leaves it on first use: empty
    caches, a [rows] x [cols] antenna that holds the four labels, a mask of
    the same dimensions, and a request and calibration the computations are
    defined for. *)
Definition fresh_valid (self : BeamDefinition) (rows cols : nat) : Prop :=
  phaseSettings self = [] /\
  phaseSettingsRaw self = [] /\
  gainSettings self = [] /\
  rectangular (antennaGrid self) rows cols /\
  rectangular (antennaInvert self) rows cols /\
  waveLength self <> 0 /\
  cos (theta self) <> 0 /\
  beamStrength self <> 0 /\
  cal_complete (phaseCal self) /\
  (forall x, In x [NE; SE; SW; NW] -> In x (concat (antennaGrid self))).

(** A controller whose gain and raw-phase caches are filled for its antenna. *)
Definition warm (self : BeamDefinition) (rows cols : nat) : Prop :=
  (0 < rows)%nat /\
  rectangular (antennaGrid self) rows cols /\
  rectangular (gainSettings self) rows cols /\
  rectangular (phaseSettingsRaw self) rows cols /\
  waveLength self <> 0.

(** Real and imaginary part of a Python number. *)
Definition py_re (a : pynum) : R :=
  match a with
  | PFloat r => r
  | PComplex re _ => re
  end.

Definition py_im (a : pynum) : R :=
  match a with
  | PFloat _ => 0
  | PComplex _ im => im
  end.

(** The grid of sampling angles: for each of [n_theta] polar angles, in
    increasing order, each of [n_phi] azimuths, in increasing order. *)
Definition sample_angles (n_theta n_phi : nat) (t_d p_d : R) : list (R * R) :=
  flat_map (fun i => map (fun j => (INR i * t_d, INR j * p_d)) (seq 0 n_phi))
           (seq 0 n_theta).

(** ** The controllers the class can produce

    A controller is reachable when it is built by [__init__] and then taken
    through any sequence of calls of the public methods that return. *)
Inductive reachable : BeamDefinition -> Prop :=
| reach_init (theta0 phi0 w : R) (cal : option calmap) (b : R) :
    reachable (init theta0 phi0 w cal b)
| reach_setAntenna (self : BeamDefinition) (grid : list (list string))
    (invertPattern : list (list bool)) (spacing : R) :
    reachable self -> reachable (setAntenna self grid invertPattern spacing)
| reach_getPhaseSettings (self self' : BeamDefinition) (l : list Z) :
    reachable self -> getPhaseSettings self = Ok (l, self') -> reachable self'
| reach_getRawPhaseSettings (self self' : BeamDefinition) (raw : list (list R)) :
    reachable self -> getRawPhaseSettings self = Ok (raw, self') -> reachable self'
| reach_getRelativeGain (self self' : BeamDefinition) (g : list (list R)) :
    reachable self -> getRelativeGain self = Ok (g, self') -> reachable self'
| reach_generateAllAF (self self' : BeamDefinition) (fuel : nat) (n_theta n_phi : Z)
    (normalized absAf backLobes : bool) (pts : list sample) :
    reachable self ->
    generateAllAF fuel self n_theta n_phi normalized absAf backLobes = Ok (pts, self') ->
    reachable self'.

(** What the caches of a controller hold: the phase settings are absent, or
    four codes of [0, 31] together with the raw field of the current
    request and antenna; the gain field is absent, or the field of ones of the
    current grid's dimensions. *)
Definition caches_consistent (self : BeamDefinition) : Prop :=
  (phaseSettings self = [] \/
   (length (phaseSettings self) = 4%nat /\
    Forall (fun v => (0 <= v <= 31)%Z) (phaseSettings self) /\
    exists f, phase_fields self = Ok f /\ phaseSettingsRaw self = fst f)) /\
  (gainSettings self = [] \/
   gainSettings self
   = repeat (repeat 1 (length (hd [] (antennaGrid self))))
            (length (antennaGrid self))).

(** ** The test harness (beamdef.py, lines 323-332)

    [unCheckedTestCase] prints the settings twice; the model returns the two
    lists it prints.  [cal] is what loading "0phaseCal.yaml" returned. *)
Definition unCheckedTestCase (t p w : R) (cal : option calmap)
    : result (list Z * list Z) :=
  let b1 := init t p w cal 1 in
  r1 <- getPhaseSettings b1 ;;
  let b1 := setAntenna (snd r1) [[NE; NW; SE; SW]] [[true; false; true; false]]
              (5.4 * / (10 ^ 3)) in
  r2 <- getPhaseSettings b1 ;;
  Ok (fst r1, fst r2).

(** [v] is the setting of label [x] at broadside: the calibrated code of 16
    or 0, according to the mask bit at the last position, in row-major
    order, at which the grid holds [x]. *)
Definition broadside_code (self : BeamDefinition) (x : string) (v : Z) : Prop :=
  exists (n : nat) (b : bool),
    last_position (concat (antennaGrid self)) x n /\
    nth_error (concat (antennaInvert self)) n = Some b /\
    _applyCalibration x (if b then 16 else 0)%Z (phaseCal self) = Ok v.

(** ** BeamDemo.py: the antenna selection, the beam lock and the sketch

    An antenna of the GUI is the pair of [aGrid] and [aInvertPattern]. *)
Definition antenna : Type := (list (list string) * list (list bool))%type.

(** Lines 57-59: the antenna and the spacing that [MyApp.__init__] starts
    from. *)
Definition initial_antenna : antenna :=
  ([[NE; NW; SE; SW]], [[true; false; true; false]]).

Definition aSpacing : R := 5.4 * / (10 ^ 3).

(** [setAntennaType] (lines 150-167), as far as it assigns [aGrid] and
    [aInvertPattern]: a function of the state of the two radio buttons. *)
Definition setAntennaType (radio2x2 radio4x1 : bool) (a : antenna) : antenna :=
  if radio2x2 then ([[NW; NE]; [SW; SE]], [[true; false]; [true; false]])
  else if radio4x1 then ([[NE; NW; SE; SW]], [[true; false; true; false]])
  else a.

(** The antenna of the GUI after [__init__] and a sequence of calls of
    [setAntennaType], each with the radio buttons in some state. *)
Definition gui_antenna (clicks : list (bool * bool)) : antenna :=
  fold_left (fun a c => setAntennaType (fst c) (snd c) a) clicks initial_antenna.

(** [lockBeam] (lines 99-105): the settings it stores in [self.phaseSettings]
    and the [BeamDefinition] it keeps. *)
Definition lockBeam (thetaBox phiBox waveLengthBox amplitudeBox : R)
    (cal : option calmap) (a : antenna) : result (list Z * BeamDefinition) :=
  wavelength <- calculateWavelength waveLengthBox ;;
  let beamDef := init thetaBox phiBox wavelength cal amplitudeBox in
  let beamDef := setAntenna beamDef (fst a) (snd a) aSpacing in
  getPhaseSettings beamDef.

(** Lines 109-112: the label that the status line puts before each
    setting. *)
Definition status_pairs (phaseSettings : list Z) : result (list (string * Z)) :=
  mapM (fun s => lab <- list_index ["NE"; "SE"; "SW"; "NW"]%string s ;;
                 v <- list_index phaseSettings s ;;
                 Ok (lab, v))
       (range 0 (length phaseSettings)).

(** [sketchAfPattern] (lines 127-134): the points handed to the viewer;
    [generateAllAF] is called with its default arguments. *)
Definition sketchAfPattern (fuel : nat)
    (thetaBox phiBox waveLengthBox amplitudeBox : R) (cal : option calmap)
    (a : antenna) : result (list sample) :=
  temp_bd <- sketchAfPattern_beam thetaBox phiBox waveLengthBox amplitudeBox cal
               (fst a) (snd a) aSpacing ;;
  r <- generateAllAF fuel temp_bd 30 30 true true false ;;
  Ok (fst r).

(** A controller on which every sample of generateAllAF reads the gain field
    of ones and the raw field [raw], on a [rows] x [cols] grid of spacing [d]
    at wavelength [w]: either [raw] is cached already, or the controller is
    fresh and [raw] is the field that its first sample computes. *)
Definition tuned (rows cols : nat) (d w : R) (raw : list (list R))
    (self : BeamDefinition) : Prop :=
  rectangular (antennaGrid self) rows cols /\ (0 < rows)%nat /\
  antennaSpacing self = d /\ waveLength self = w /\ w <> 0 /\
  beamStrength self <> 0 /\
  rectangular raw rows cols /\
  ((phaseSettingsRaw self = raw /\
    (gainSettings self = repeat (repeat 1 cols) rows \/ gainSettings self = [])) \/
   (fresh_valid self rows cols /\
    exists ew ns, phase_gradients self = Ok (ew, ns) /\
                  raw = phase_field rows cols ns ew)).

(** [testAfGen] (beamdef.py, lines 371-382): the two point lists it
    computes; [w] is its wavelength [c/f] and [cal] what loading
    "0phaseCal.yaml" returned. *)
Definition testAfGen (fuel : nat) (cal : option calmap)
    : result (list sample * list sample) :=
  let f := 28 * 10 ^ 9 in
  let c := 3 * 10 ^ 8 in
  w <- py_div c f ;;
  let b1 := init 10 90 w cal 1 in
  r1 <- generateAllAF fuel b1 30 30 true true false ;;
  let b1 := setAntenna (snd r1) [[NE; NW; SE; SW]] [[true; false; true; false]]
              (5.4 * / (10 ^ 3)) in
  r2 <- generateAllAF fuel b1 30 30 true true false ;;
  Ok (fst r1, fst r2).

(** ** Reading results *)

(** The value of a successful call, without the state it leaves. *)
Definition fst_ok {A B : Type} (r : result (A * B)) : option A :=
  match r with
  | Ok x => Some (fst x)
  | Raise _ => None
  end.

(** * Properties *)

(** ** Arithmetic helpers *)

Lemma py_div_ok (x y : R) : y <> 0 -> py_div x y = Ok (x / y).
Proof.
  intros Hy. unfold py_div. destruct (Req_dec_T y 0) as [E | _]; [contradiction | reflexivity].
Qed.

Lemma py_div_zero (x : R) : py_div x 0 = Raise ZeroDivisionError.
Proof.
  unfold py_div. destruct (Req_dec_T 0 0) as [_ | N]; [reflexivity | now elim N].
Qed.

Lemma py_fmod_ok (x y : R) :
  y <> 0 -> py_fmod x y = Ok (x - y * IZR (Zfloor (x / y))).
Proof.
  intros Hy. unfold py_fmod. destruct (Req_dec_T y 0) as [E | _]; [contradiction | reflexivity].
Qed.

Lemma py_fmod_range (x y : R) :
  0 < y -> 0 <= x - y * IZR (Zfloor (x / y)) < y.
Proof.
  intros Hy.
  destruct (Zfloor_bound (x / y)) as [Hlo Hhi].
  assert (Hx : x = y * (x / y)) by (field; lra).
  split.
  - apply Rmult_le_compat_l with (r := y) in Hlo; [| lra]. lra.
  - apply Rmult_lt_compat_l with (r := y) in Hhi; [| lra]. lra.
Qed.

Lemma py_fmod_small (x y : R) :
  0 <= x < y -> x - y * IZR (Zfloor (x / y)) = x.
Proof.
  intros [Hlo Hhi].
  assert (Hy : 0 < y) by lra.
  assert (E : Zfloor (x / y) = 0%Z).
  { apply Zfloor_eq. simpl. split.
    - apply Rmult_le_reg_r with (r := y); [exact Hy |].
      replace (x / y * y) with x by (field; lra). lra.
    - apply Rmult_lt_reg_r with (r := y); [exact Hy |].
      replace (x / y * y) with x by (field; lra). lra. }
  rewrite E. simpl. lra.
Qed.

Lemma py_round_cases (x : R) :
  py_round x = Zfloor x \/
  (py_round x = (Zfloor x + 1)%Z /\ 1 / 2 <= x - IZR (Zfloor x)).
Proof.
  unfold py_round.
  destruct (Rlt_dec (x - IZR (Zfloor x)) (1 / 2)) as [H1 | H1]; [now left |].
  destruct (Rlt_dec (1 / 2) (x - IZR (Zfloor x))) as [H2 | H2].
  - right. split; [reflexivity | lra].
  - destruct (Z.even (Zfloor x)); [now left |].
    right. split; [reflexivity | lra].
Qed.

Lemma py_round_bounds (a b : Z) (x : R) :
  IZR a <= x <= IZR b -> (a <= py_round x <= b)%Z.
Proof.
  intros [Ha Hb].
  pose proof (Zfloor_lub a x Ha) as Hfa.
  destruct (Zfloor_bound x) as [Hlo Hhi].
  assert (Hfb : (Zfloor x <= b)%Z) by (apply le_IZR; lra).
  destruct (py_round_cases x) as [E | [E Hd]]; rewrite E.
  - lia.
  - assert (Hlt : (Zfloor x < b)%Z) by (apply lt_IZR; lra). lia.
Qed.

Lemma py_round_nearest (x : R) : Rabs (x - IZR (py_round x)) <= 1 / 2.
Proof.
  destruct (Zfloor_bound x) as [Hlo Hhi].
  unfold py_round.
  destruct (Rlt_dec (x - IZR (Zfloor x)) (1 / 2)) as [H1 | H1].
  - apply Rabs_le. lra.
  - destruct (Rlt_dec (1 / 2) (x - IZR (Zfloor x))) as [H2 | H2].
    + rewrite plus_IZR. apply Rabs_le. simpl. lra.
    + destruct (Z.even (Zfloor x)).
      * apply Rabs_le. lra.
      * rewrite plus_IZR. apply Rabs_le. simpl. lra.
Qed.

Lemma py_round_IZR (n : Z) : py_round (IZR n) = n.
Proof.
  unfold py_round. rewrite ZfloorZ.
  destruct (Rlt_dec (IZR n - IZR n) (1 / 2)) as [_ | H]; [reflexivity | exfalso; lra].
Qed.

Lemma py_trunc_IZR (n : Z) : py_trunc (IZR n) = n.
Proof.
  unfold py_trunc. destruct (Rle_dec 0 (IZR n)) as [_ | _].
  - apply ZfloorZ.
  - unfold Zceil. rewrite ZfloorNZ. lia.
Qed.

Lemma interval_pos : 0 < 2 * PI / 32.
Proof. pose proof PI_RGT_0. lra. Qed.

(** ** The quantizer *)

(** The quotient of one step by itself, in binary64. *)
Lemma b64_interval_value :
  b64_interval = Ok (SpecFloat.S754_finite false 7074237752028440 (-55)).
Proof. vm_compute. reflexivity. Qed.

(** The truncated binary64 quotient, for each number of steps that the
    rounding can give. *)
Lemma b64_truncated_quotient_steps (n : Z) :
  (0 <= n <= 32)%Z -> b64_truncated_quotient n = Ok (truncated_steps n).
Proof.
  intros Hn. remember (Z.to_nat n) as k eqn:Ek.
  assert (E : n = Z.of_nat k) by lia. subst n.
  assert (Hk : (k < 33)%nat) by lia. clear Ek Hn.
  do 33 (destruct k as [| k]; [vm_compute; reflexivity |]). lia.
Qed.

Lemma truncated_steps_cases (n : Z) :
  (In n [11; 15; 22; 30]%Z /\ truncated_steps n = (n - 1)%Z) \/
  (~ In n [11; 15; 22; 30]%Z /\ truncated_steps n = n).
Proof.
  unfold truncated_steps. cbn [existsb In].
  destruct (Z.eqb_spec n 11); [left; split; [lia | reflexivity] |].
  destruct (Z.eqb_spec n 15); [left; split; [lia | reflexivity] |].
  destruct (Z.eqb_spec n 22); [left; split; [lia | reflexivity] |].
  destruct (Z.eqb_spec n 30); [left; split; [lia | reflexivity] |].
  right. split; [lia | reflexivity].
Qed.

Lemma truncated_steps_range (n : Z) :
  (0 <= n <= 32)%Z -> (0 <= truncated_steps n <= 32)%Z.
Proof.
  intros Hn. destruct (truncated_steps_cases n) as [[Hin ->] | [_ ->]]; [| lia].
  cbn [In] in Hin. lia.
Qed.

(** The number of steps that the rounding gives lies between 0 and 32. *)
Lemma steps_range (rads : R) :
  let fixed := rads - 2 * PI * IZR (Zfloor (rads / (2 * PI))) in
  (0 <= py_round (fixed / (2 * PI / 32)) <= 32)%Z.
Proof.
  intros fixed. pose proof PI_RGT_0 as HPI. pose proof interval_pos as Hi.
  assert (Hf : 0 <= fixed < 2 * PI) by (apply py_fmod_range; lra).
  apply py_round_bounds. split.
  - apply Rmult_le_reg_r with (r := 2 * PI / 32); [lra |].
    replace (fixed / (2 * PI / 32) * (2 * PI / 32)) with fixed by (field; lra). lra.
  - apply Rmult_le_reg_r with (r := 2 * PI / 32); [lra |].
    replace (fixed / (2 * PI / 32) * (2 * PI / 32)) with fixed by (field; lra). lra.
Qed.

(** What [_radiansToAwmf0108] computes, step by step. *)
Lemma radiansToAwmf0108_unfold (rads : R) :
  let fixed := rads - 2 * PI * IZR (Zfloor (rads / (2 * PI))) in
  let q := truncated_steps (py_round (fixed / (2 * PI / 32))) in
  _radiansToAwmf0108 rads = Ok (if (q =? 32)%Z then 0%Z else q).
Proof.
  intros fixed q. pose proof PI_RGT_0 as HPI. pose proof interval_pos as Hi.
  unfold _radiansToAwmf0108, phaseControlMax, phaseControlRange.
  rewrite py_div_ok by lra. cbn [bind].
  rewrite py_fmod_ok by lra. cbn [bind].
  rewrite py_div_ok by lra. cbn [bind].
  fold fixed.
  rewrite b64_truncated_quotient_steps by apply steps_range.
  reflexivity.
Qed.

Lemma radiansToAwmf0108_range (rads : R) :
  exists v : Z, _radiansToAwmf0108 rads = Ok v /\ (0 <= v <= 31)%Z.
Proof.
  rewrite radiansToAwmf0108_unfold.
  pose proof (truncated_steps_range _ (steps_range rads)) as Hq. cbv zeta in Hq.
  eexists. split; [reflexivity |].
  match goal with |- context [(?q =? 32)%Z] => destruct (Z.eqb_spec q 32) end; lia.
Qed.

(** A phase that is an exact number of steps. *)
Lemma radiansToAwmf0108_steps (n : Z) :
  (0 <= n < 32)%Z ->
  _radiansToAwmf0108 (IZR n * (2 * PI / 32)) = Ok (truncated_steps n).
Proof.
  intros Hn. pose proof PI_RGT_0 as HPI.
  rewrite radiansToAwmf0108_unfold.
  assert (H0 : 0 <= IZR n) by (apply IZR_le; lia).
  assert (H32 : IZR n <= 31) by (apply IZR_le; lia).
  rewrite py_fmod_small by (split; nra).
  replace (IZR n * (2 * PI / 32) / (2 * PI / 32)) with (IZR n) by (field; lra).
  rewrite py_round_IZR.
  pose proof (truncated_steps_range n ltac:(lia)).
  destruct (truncated_steps_cases n) as [[_ E] | [_ E]]; rewrite E in *;
    match goal with |- context [(?q =? 32)%Z] => destruct (Z.eqb_spec q 32) end;
    try reflexivity; lia.
Qed.

(** C5: for every real phase [r], [_radiansToAwmf0108] reduces [r] modulo
    2*PI into [0, 2*PI) and takes the number [q] of steps of
    [interval = 2*PI/32] whose multiple is nearest to the reduced value
    (Python 3 rounding); [q] lies in [0, 32].  Dividing that multiple by
    [interval] and truncating gives [q] back in exact arithmetic, but not in
    the binary64 arithmetic of the source: for 11, 15, 22 and 30 steps the
    quotient is just below the integer and the truncation returns one code
    less, so a phase of exactly 22 steps is quantized to 21.  For every other
    number of steps the code is [q], with 32 mapped to 0; in particular a
    phase of 2*PI - eps with 0 < eps <= interval/2 is quantized to 0. *)
Theorem radiansToAwmf0108_one_code_low (r : R) :
  let interval := 2 * PI / 32 in
  (exists (fixed : R) (n q : Z),
      r = fixed + IZR n * (2 * PI) /\
      0 <= fixed < 2 * PI /\
      py_fmod r (2 * PI) = Ok fixed /\
      q = py_round (fixed / interval) /\
      _roundToNearest fixed interval = Ok (interval * IZR q) /\
      Rabs (fixed - interval * IZR q) <= interval / 2 /\
      (0 <= q <= 32)%Z /\
      py_trunc (interval * IZR q / interval) = q /\
      b64_truncated_quotient q = Ok (truncated_steps q) /\
      (In q [11; 15; 22; 30]%Z -> _radiansToAwmf0108 r = Ok (q - 1)%Z) /\
      (~ In q [11; 15; 22; 30]%Z -> _radiansToAwmf0108 r = Ok (q mod 32)%Z)) /\
  _radiansToAwmf0108 (22 * interval) = Ok 21%Z /\
  (forall eps : R, 0 < eps <= interval / 2 ->
     _radiansToAwmf0108 (2 * PI - eps) = Ok 0%Z).
Proof.
  intros interval. pose proof PI_RGT_0 as HPI. pose proof interval_pos as Hi.
  assert (Hint : interval = 2 * PI / 32) by reflexivity.
  split; [| split].
  - set (fixed := r - 2 * PI * IZR (Zfloor (r / (2 * PI)))).
    assert (Hf : 0 <= fixed < 2 * PI) by (apply py_fmod_range; lra).
    pose proof (steps_range r) as Hq. cbv zeta in Hq. fold fixed in Hq.
    pose proof (radiansToAwmf0108_unfold r) as Hrun. cbv zeta in Hrun.
    fold fixed in Hrun.
    exists fixed, (Zfloor (r / (2 * PI))), (py_round (fixed / interval)).
    repeat match goal with |- _ /\ _ => split end.
    + unfold fixed. lra.
    + apply Hf.
    + apply Hf.
    + apply py_fmod_ok. lra.
    + reflexivity.
    + unfold _roundToNearest. rewrite py_div_ok by lra. reflexivity.
    + pose proof (py_round_nearest (fixed / interval)) as Hn.
      replace (fixed - interval * IZR (py_round (fixed / interval)))
        with (interval * (fixed / interval - IZR (py_round (fixed / interval))))
        by (rewrite Rmult_minus_distr_l; unfold interval; field; lra).
      rewrite Rabs_mult, (Rabs_pos_eq interval) by lra.
      apply Rmult_le_compat_l with (r := interval) in Hn; lra.
    + apply Hq.
    + apply Hq.
    + replace (interval * IZR (py_round (fixed / interval)) / interval)
        with (IZR (py_round (fixed / interval))) by (field; lra).
      apply py_trunc_IZR.
    + apply b64_truncated_quotient_steps. exact Hq.
    + intros Hin. rewrite Hrun.
      destruct (truncated_steps_cases (py_round (fixed / interval)))
        as [[_ E] | [Hn _]]; [| contradiction].
      unfold interval in E. rewrite E. cbn [In] in Hin.
      match goal with |- context [(?q =? 32)%Z] => destruct (Z.eqb_spec q 32) end;
        [lia | reflexivity].
    + intros Hn. rewrite Hrun.
      destruct (truncated_steps_cases (py_round (fixed / interval)))
        as [[Hin _] | [_ E]]; [contradiction |].
      unfold interval in E. rewrite E.
      match goal with |- context [(?q =? 32)%Z] => destruct (Z.eqb_spec q 32) as [E32 | N32] end.
      * unfold interval. rewrite E32. reflexivity.
      * unfold interval. rewrite Z.mod_small by (unfold interval in Hq; lia). reflexivity.
  - exact (radiansToAwmf0108_steps 22 ltac:(lia)).
  - intros eps Heps. rewrite radiansToAwmf0108_unfold.
    rewrite py_fmod_small by lra.
    fold interval.
    set (x := (2 * PI - eps) / interval).
    assert (Hx : x = 32 - eps / interval) by (unfold x, interval; field; lra).
    assert (He : 0 < eps / interval <= 1 / 2).
    { split.
      - apply Rdiv_lt_0_compat; lra.
      - apply Rmult_le_reg_r with (r := interval); [lra |].
        replace (eps / interval * interval) with eps by (field; lra). lra. }
    assert (Hfl : Zfloor x = 31%Z) by (apply Zfloor_eq; simpl; lra).
    assert (Hq : py_round x = 32%Z).
    { unfold py_round. rewrite Hfl.
      destruct (Rlt_dec (x - 31) (1 / 2)) as [H1 | H1]; [exfalso; lra |].
      destruct (Rlt_dec (1 / 2) (x - 31)) as [H2 | H2]; reflexivity. }
    rewrite Hq. reflexivity.
Qed.

(** ** Dictionaries and [min] *)

Lemma dict_get_in_keys {V : Type} (k : Z) (d : list (Z * V)) :
  In k (keys d) -> exists v, dict_get Z.eqb k d = Some v.
Proof.
  induction d as [| [k' v'] d IH]; simpl; [intros [] |].
  intros [E | Hin].
  - subst k'. rewrite Z.eqb_refl. now exists v'.
  - destruct (Z.eqb k k'); [now exists v' | now apply IH].
Qed.

Lemma py_min_from_spec (key : Z -> Z) (l : list Z) :
  forall best : Z,
    let r := py_min_from key best l in
    (r = best /\ forall x, In x l -> (key best <= key x)%Z) \/
    (exists pre post,
        l = pre ++ r :: post /\ (key r < key best)%Z /\
        (forall x, In x pre -> (key r < key x)%Z) /\
        (forall x, In x post -> (key r <= key x)%Z)).
Proof.
  induction l as [| x l IH]; intros best; simpl.
  - left. split; [reflexivity | intros ? []].
  - destruct (Z.ltb_spec (key x) (key best)) as [Hlt | Hge].
    + destruct (IH x) as [[E Hall] | (pre & post & El & Hr & Hpre & Hpost)].
      * right. exists [], l. rewrite E. simpl. repeat split; auto. intros ? [].
      * right. exists (x :: pre), post. simpl. rewrite <- El.
        repeat split; try lia; auto.
        intros y [<- | Hy]; [lia | now apply Hpre].
    + destruct (IH best) as [[E Hall] | (pre & post & El & Hr & Hpre & Hpost)].
      * left. split; [exact E |]. intros y [<- | Hy]; [lia | now apply Hall].
      * right. exists (x :: pre), post. simpl. rewrite <- El.
        repeat split; auto.
        intros y [<- | Hy]; [lia | now apply Hpre].
Qed.

Lemma py_min_spec (key : Z -> Z) (l : list Z) :
  l <> [] ->
  exists r pre post,
    py_min key l = Ok r /\ l = pre ++ r :: post /\
    (forall x, In x pre -> (key r < key x)%Z) /\
    (forall x, In x post -> (key r <= key x)%Z).
Proof.
  destruct l as [| x l]; [congruence | intros _]. simpl.
  destruct (py_min_from_spec key l x) as [[E Hall] | (pre & post & El & Hr & Hpre & Hpost)].
  - exists (py_min_from key x l), [], l. rewrite E. simpl.
    repeat split; auto. intros ? [].
  - exists (py_min_from key x l), (x :: pre), post. simpl. rewrite <- El.
    repeat split; auto. intros y [<- | Hy]; [lia | now apply Hpre].
Qed.

(** ** Calibration *)

(** C2, as the code has it: with no calibration map (the file could not be
    read, or it holds an empty mapping) the setting is returned unchanged;
    with a map that has a non-empty table for the quadrant, the first key of
    that table (in iteration order) at minimal absolute distance from the
    setting is chosen, its offset is subtracted and the result is reduced
    modulo 32 into [0, 32); a non-empty map without an entry for the quadrant
    raises KeyError, and an empty table for the quadrant raises ValueError. *)
Theorem applyCalibration_spec (quadrant : string) (s : Z) (calMap : option calmap) :
  (calMap = None \/ calMap = Some [] -> _applyCalibration quadrant s calMap = Ok s) /\
  (forall m : calmap, calMap = Some m -> m <> [] ->
     (dict_get String.eqb quadrant m = None ->
        _applyCalibration quadrant s calMap = Raise KeyError) /\
     (dict_get String.eqb quadrant m = Some [] ->
        _applyCalibration quadrant s calMap = Raise ValueError) /\
     (forall tbl : caltable,
        dict_get String.eqb quadrant m = Some tbl -> tbl <> [] ->
        exists (key off : Z) (pre post : list Z),
          keys tbl = pre ++ key :: post /\
          (forall k, In k pre -> (Z.abs (key - s) < Z.abs (k - s))%Z) /\
          (forall k, In k post -> (Z.abs (key - s) <= Z.abs (k - s))%Z) /\
          dict_get Z.eqb key tbl = Some off /\
          _applyCalibration quadrant s calMap = Ok ((s - off) mod 32)%Z /\
          (0 <= (s - off) mod 32 < 32)%Z)).
Proof.
  split.
  - intros [-> | ->]; reflexivity.
  - intros m -> Hm. destruct m as [| p m]; [congruence |].
    unfold _applyCalibration, dict_index.
    split; [| split].
    + intros ->. reflexivity.
    + intros ->. reflexivity.
    + intros tbl -> Htbl.
      assert (Hk : keys tbl <> []) by (destruct tbl; simpl; congruence).
      destruct (py_min_spec (fun x => Z.abs (x - s)) (keys tbl) Hk)
        as (key & pre & post & Emin & Ekeys & Hpre & Hpost).
      assert (Hin : In key (keys tbl)).
      { rewrite Ekeys. apply in_or_app. right. now left. }
      destruct (dict_get_in_keys key tbl Hin) as [off Eoff].
      exists key, off, pre, post.
      cbn [bind]. rewrite Emin. cbn [bind]. rewrite Eoff. cbn [bind].
      repeat match goal with |- _ /\ _ => split end; auto.
      * apply Z.mod_pos_bound. lia.
      * apply Z.mod_pos_bound. lia.
Qed.

Lemma applyCalibration_spec_witness :
  _applyCalibration NE 10 (Some [(NE, [(10, 2)])%Z]) = Ok 8%Z /\
  _applyCalibration NE 31 (Some [(NE, [(10, 2)])%Z]) = Ok 29%Z /\
  _applyCalibration NE 31 None = Ok 31%Z.
Proof.
  pose (m := [(NE, [(10, 2)])%Z] : calmap).
  assert (Hm : m <> []) by discriminate.
  assert (Ht : [(10, 2)%Z] <> []) by discriminate.
  assert (key_is_10 : forall (s key off : Z) (pre post : list Z),
             keys [(10, 2)%Z] = pre ++ key :: post ->
             dict_get Z.eqb key [(10, 2)%Z] = Some off -> off = 2%Z).
  { intros s key off pre post Ek Eo. simpl in Eo.
    destruct (Z.eqb key 10); congruence. }
  split; [| split].
  - destruct (proj2 (applyCalibration_spec NE 10 (Some m)) m eq_refl Hm)
      as (_ & _ & H).
    destruct (H [(10, 2)%Z] eq_refl Ht) as (key & off & pre & post & Ek & _ & _ & Eo & E & _).
    rewrite (key_is_10 10%Z key off pre post Ek Eo) in E. exact E.
  - destruct (proj2 (applyCalibration_spec NE 31 (Some m)) m eq_refl Hm)
      as (_ & _ & H).
    destruct (H [(10, 2)%Z] eq_refl Ht) as (key & off & pre & post & Ek & _ & _ & Eo & E & _).
    rewrite (key_is_10 31%Z key off pre post Ek Eo) in E. exact E.
  - exact (proj1 (applyCalibration_spec NE 31 None) (or_introl eq_refl)).
Defined.

(** C2, counterexample to the claim as stated: a calibration map that is
    loaded but has no entry for the element's quadrant does not give the
    setting back; the lookup raises KeyError. *)
Lemma applyCalibration_missing_quadrant :
  dict_get String.eqb NE [(SE, [(10, 2)])%Z] = None /\
  _applyCalibration NE 5 (Some [(SE, [(10, 2)])%Z]) = Raise KeyError /\
  _applyCalibration NE 5 (Some [(SE, [(10, 2)])%Z]) <> Ok 5%Z.
Proof.
  split; [reflexivity |]. split; [reflexivity | discriminate].
Qed.

(** ** Monadic traversals *)

Lemma mapM_ok_map {A B : Type} (f : A -> result B) (g : A -> B) (l : list A) :
  (forall x, In x l -> f x = Ok (g x)) -> mapM f l = Ok (map g l).
Proof.
  induction l as [| x l IH]; intros H; simpl; [reflexivity |].
  rewrite (H x) by now left. cbn [bind].
  rewrite IH by (intros y Hy; apply H; now right). reflexivity.
Qed.

Lemma mapM_raise_head {A B : Type} (f : A -> result B) (x : A) (l : list A) (e : exn) :
  f x = Raise e -> mapM f (x :: l) = Raise e.
Proof. intros H. simpl. rewrite H. reflexivity. Qed.

Lemma mapM_length {A B : Type} (f : A -> result B) (l : list A) (l' : list B) :
  mapM f l = Ok l' -> length l' = length l.
Proof.
  revert l'. induction l as [| x l IH]; simpl; intros l' H.
  - now inversion H.
  - destruct (f x) as [y |]; [| discriminate]. cbn [bind] in H.
    destruct (mapM f l) as [ys |]; [| discriminate]. cbn [bind] in H.
    inversion H; subst. simpl. now rewrite (IH ys).
Qed.

(** ** The gain field *)

(** With a non-zero beam strength the gain field has the dimensions of the
    grid (its row count, and the length of its first row) and holds 1. *)
Lemma getRelativeGain_ones (self : BeamDefinition) (row0 : list string)
    (rest : list (list string)) :
  gainSettings self = [] ->
  antennaGrid self = row0 :: rest ->
  beamStrength self <> 0 ->
  let gain := repeat (repeat 1 (length row0)) (length (antennaGrid self)) in
  getRelativeGain self = Ok (gain, with_gain self gain).
Proof.
  intros Hg Hgrid Hb gain. unfold getRelativeGain.
  rewrite Hg. cbn [length Nat.ltb Nat.leb].
  unfold list_index. rewrite Hgrid. cbn [nth_error bind].
  assert (Hrow : forall n : nat,
             mapM (fun _ : nat => py_div (beamStrength self) (beamStrength self))
                  (range 0 n) = Ok (repeat 1 n)).
  { intros n. rewrite mapM_ok_map with (g := fun _ => 1).
    - f_equal. unfold range. rewrite Nat.sub_0_r.
      generalize 0%nat. induction n as [| n IH]; intros a; simpl; [reflexivity |].
      now rewrite IH.
    - intros _ _. rewrite py_div_ok by exact Hb. f_equal. now field. }
  rewrite mapM_ok_map with (g := fun _ => repeat 1 (length row0)).
  - cbn [bind]. unfold gain. rewrite Hgrid.
    assert (E : forall (n a : nat),
               map (fun _ : nat => repeat 1 (length row0)) (seq a n)
               = repeat (repeat 1 (length row0)) n).
    { induction n as [| n IH]; intros a; simpl; [reflexivity |]. now rewrite IH. }
    unfold range. rewrite Nat.sub_0_r, E. reflexivity.
  - intros _ _. apply Hrow.
Qed.

(** C7, the failing input: a beam strength of 0 (0 dB) on the default 1x4
    antenna.  [getRelativeGain] divides the beam strength by itself and raises
    ZeroDivisionError instead of returning a field of ones; with beam strength
    1 the same call returns the field of ones. *)
Theorem getRelativeGain_zero_beamStrength :
  getRelativeGain (init 0 0 (107 / 10000) None 0) = Raise ZeroDivisionError /\
  fst_ok (getRelativeGain (init 0 0 (107 / 10000) None 1)) = Some [[1; 1; 1; 1]].
Proof.
  split.
  - unfold getRelativeGain, init. cbn [gainSettings length Nat.ltb Nat.leb
      antennaGrid list_index nth_error bind beamStrength].
    unfold range. cbn [Nat.sub seq].
    rewrite mapM_raise_head with (e := ZeroDivisionError); [reflexivity |].
    apply mapM_raise_head. apply py_div_zero.
  - rewrite (getRelativeGain_ones (init 0 0 (107 / 10000) None 1)
               [NE; NW; SE; SW] []); [reflexivity | reflexivity | reflexivity |].
    cbn [beamStrength init]. lra.
Qed.

(** ** Azimuth regulation *)

(** C8, as the code has it: the handler [sketchAfPattern] replaces the
    azimuth box value by a value of [0, 360) congruent to it modulo 360 and
    builds its [BeamDefinition] from that; the constructor itself stores
    [radians(phi)] and [radians(theta)] for whatever it is given. *)
Theorem phi_regulated_by_handler_only (thetaBox phiBox : R) :
  (exists (v : R) (n : Z),
      regulate_phi phiBox = Ok v /\ 0 <= v < 360 /\ phiBox = v + IZR n * 360 /\
      forall (waveLengthBox amplitudeBox : R) (cal : option calmap)
             (aGrid : list (list string)) (aInvertPattern : list (list bool))
             (aSpacing : R),
        sketchAfPattern_beam thetaBox phiBox waveLengthBox amplitudeBox cal
          aGrid aInvertPattern aSpacing
        = (wavelength <- calculateWavelength waveLengthBox ;;
           Ok (setAntenna (init thetaBox v wavelength cal amplitudeBox)
                 aGrid aInvertPattern aSpacing))) /\
  (forall (w b : R) (cal : option calmap),
      phi (init thetaBox phiBox w cal b) = radians phiBox /\
      theta (init thetaBox phiBox w cal b) = radians thetaBox).
Proof.
  split; [| intros; split; reflexivity].
  assert (Hmod : 0 <= phiBox - 360 * IZR (Zfloor (phiBox / 360)) < 360)
    by (apply py_fmod_range; lra).
  unfold sketchAfPattern_beam, regulate_phi.
  destruct (Rlt_dec phiBox 0) as [Hneg | Hpos].
  - exists (phiBox - 360 * IZR (Zfloor (phiBox / 360))), (Zfloor (phiBox / 360)).
    rewrite py_fmod_ok by lra.
    repeat match goal with |- _ /\ _ => split end; try reflexivity; try apply Hmod; try lra.
  - destruct (Rle_dec 360 phiBox) as [Hbig | Hsmall].
    + exists (phiBox - 360 * IZR (Zfloor (phiBox / 360))), (Zfloor (phiBox / 360)).
      rewrite py_fmod_ok by lra.
      repeat match goal with |- _ /\ _ => split end; try reflexivity; try apply Hmod; try lra.
    + exists phiBox, 0%Z.
      repeat match goal with |- _ /\ _ => split end; try reflexivity; try lra.
Qed.

(** C8, counterexample to the claim as stated: the module's own test harness
    builds [BeamDefinition(-30, -90, w)]; the azimuth the computations read is
    [radians(-90)], which is negative. *)
Lemma init_keeps_negative_phi :
  phi (init (-30) (-90) (3 / 280) None 1) = radians (-90) /\
  ~ (0 <= phi (init (-30) (-90) (3 / 280) None 1) < radians 360).
Proof.
  split; [reflexivity |].
  cbn [phi init]. unfold radians. pose proof PI_RGT_0. lra.
Qed.

(** ** Indexing *)

Lemma list_index_app {A : Type} (pre : list A) (x : A) (post : list A) :
  list_index (pre ++ x :: post) (length pre) = Ok x.
Proof.
  unfold list_index. rewrite nth_error_app2 by lia.
  rewrite Nat.sub_diag. reflexivity.
Qed.

Lemma list_assign_app {A : Type} (pre : list A) (x v : A) (post : list A) :
  list_assign (pre ++ x :: post) (length pre) v = Ok (pre ++ v :: post).
Proof.
  induction pre as [| y pre IH]; simpl; [reflexivity |].
  rewrite IH. reflexivity.
Qed.

Lemma grid_index_app {A : Type} (gpre : list (list A)) (pre : list A) (x : A)
    (post : list A) (gpost : list (list A)) :
  grid_index (gpre ++ (pre ++ x :: post) :: gpost) (length gpre) (length pre) = Ok x.
Proof.
  unfold grid_index. rewrite list_index_app. cbn [bind]. apply list_index_app.
Qed.

Lemma grid_assign_app {A : Type} (gpre : list (list A)) (pre : list A) (x v : A)
    (post : list A) (gpost : list (list A)) :
  grid_assign (gpre ++ (pre ++ x :: post) :: gpost) (length gpre) (length pre) v
  = Ok (gpre ++ (pre ++ v :: post) :: gpost).
Proof.
  unfold grid_assign. rewrite list_index_app. cbn [bind].
  rewrite list_assign_app. cbn [bind]. apply list_assign_app.
Qed.

Lemma for_each_app {S : Type} (l1 l2 : list nat) (body : S -> nat -> result S) (s : S) :
  for_each (l1 ++ l2) body s = (s' <- for_each l1 body s ;; for_each l2 body s').
Proof.
  revert s. induction l1 as [| x l1 IH]; intros s; simpl; [reflexivity |].
  destruct (body s x) as [s' |]; cbn [bind]; [apply IH | reflexivity].
Qed.

(** ** The raw phase field (lines 113-121) *)

Lemma ramp_length (v e : R) (n : nat) : length (ramp v e n) = n.
Proof.
  revert v. induction n as [| n IH]; intros v; simpl; [reflexivity |]. now rewrite IH.
Qed.

(** The column loop of line 120: from column [length pre + 1] on, every entry
    becomes its left neighbour plus [ew]. *)
Lemma ew_loop_run (ew : R) (gpre gpost : list (list R)) :
  forall (rest pre : list R) (x : R),
    for_each (seq (S (length pre)) (length rest)) (ew_body ew (length gpre))
      (gpre ++ (pre ++ x :: rest) :: gpost)
    = Ok (gpre ++ (pre ++ ramp x ew (S (length rest))) :: gpost).
Proof.
  induction rest as [| y rest IH]; intros pre x; [reflexivity |].
  cbn [length seq for_each]. unfold ew_body at 1.
  replace (S (length pre) - 1)%nat with (length pre) by lia.
  rewrite grid_index_app. cbn [bind].
  replace (pre ++ x :: y :: rest) with ((pre ++ [x]) ++ y :: rest)
    by (rewrite <- app_assoc; reflexivity).
  replace (S (length pre)) with (length (pre ++ [x]))
    by (rewrite length_app; simpl; lia).
  rewrite grid_assign_app. cbn [bind].
  rewrite IH. rewrite <- app_assoc. reflexivity.
Qed.

(** One row of the loop of line 114: whatever the row held, it becomes the
    ramp from its first column. *)
Lemma ns_body_row (ew v z : R) (ztl : list R) (gpre gpost : list (list R))
    (first : result (list (list R))) :
  first = Ok (gpre ++ (v :: ztl) :: gpost) ->
  (offsets1 <- first ;;
   for_each (range 1 (S (length ztl))) (ew_body ew (length gpre)) offsets1)
  = Ok (gpre ++ ramp v ew (S (length ztl)) :: gpost).
Proof.
  intros ->. cbn [bind]. unfold range. cbn [Nat.sub].
  rewrite Nat.sub_0_r.
  exact (ew_loop_run ew gpre gpost ztl [] v).
Qed.

Lemma ns_loop_run (c : nat) (ns ew : R) :
  forall (todo done : list (list R)) (c0 : R) (tl : list R),
    Forall (fun r => length r = S c) todo ->
    for_each (seq (S (length done)) (length todo)) (ns_body (S c) ns ew)
      ((done ++ [c0 :: tl]) ++ todo)
    = Ok ((done ++ [c0 :: tl])
          ++ map (fun v => ramp v ew (S c)) (ramp (c0 + ns) ns (length todo))).
Proof.
  induction todo as [| row todo IH]; intros done c0 tl Hall.
  - reflexivity.
  - inversion Hall as [| ? ? Hrow Hall']; subst.
    destruct row as [| z ztl]; [discriminate |].
    assert (Hc : length ztl = c) by (simpl in Hrow; lia). subst c.
    cbn [length seq for_each]. unfold ns_body at 1.
    cbn [Nat.eqb]. replace (S (length done) - 1)%nat with (length done) by lia.
    assert (Hprev : grid_index ((done ++ [c0 :: tl]) ++ (z :: ztl) :: todo)
                      (length done) 0 = Ok c0).
    { rewrite <- app_assoc. cbn [app].
      exact (grid_index_app done [] c0 tl _). }
    rewrite Hprev. cbn [bind].
    assert (Hlen : S (length done) = length (done ++ [c0 :: tl]))
      by (rewrite length_app; simpl; lia).
    rewrite Hlen.
    rewrite (ns_body_row ew (c0 + ns) z ztl (done ++ [c0 :: tl]) todo).
    + cbn [bind].
      replace ((done ++ [c0 :: tl]) ++ ramp (c0 + ns) ew (S (length ztl)) :: todo)
        with (((done ++ [c0 :: tl]) ++ [ramp (c0 + ns) ew (S (length ztl))]) ++ todo)
        by (rewrite <- app_assoc; reflexivity).
      change (ramp (c0 + ns) ew (S (length ztl)))
        with (c0 + ns :: ramp (c0 + ns + ew) ew (length ztl)).
      rewrite (IH (done ++ [c0 :: tl]) (c0 + ns) (ramp (c0 + ns + ew) ew (length ztl)) Hall').
      rewrite <- app_assoc. reflexivity.
    + exact (grid_assign_app (done ++ [c0 :: tl]) [] z (c0 + ns) ztl _).
Qed.

Lemma repeat_Forall {A : Type} (P : A -> Prop) (x : A) (n : nat) :
  P x -> Forall P (repeat x n).
Proof. intros H. induction n; simpl; constructor; auto. Qed.

Lemma build_offsets_run (rows c : nat) (ns ew : R) :
  build_offsets rows (S c) ns ew = Ok (phase_field rows (S c) ns ew).
Proof.
  unfold build_offsets, phase_field, range. rewrite Nat.sub_0_r.
  destruct rows as [| m]; [reflexivity |].
  change (repeat (repeat 0 (S c)) (S m))
    with ((0 :: repeat 0 c) :: repeat (repeat 0 (S c)) m).
  cbn [seq for_each]. unfold ns_body at 1. cbn [Nat.eqb].
  pose proof (ns_body_row ew 0 0 (repeat 0 c) [] (repeat (repeat 0 (S c)) m)) as Hrow.
  rewrite repeat_length in Hrow. cbn [length app] in Hrow.
  rewrite Hrow by exact (grid_assign_app [] [] 0 0 (repeat 0 c) _).
  cbn [bind].
  pose proof (ns_loop_run c ns ew (repeat (repeat 0 (S c)) m) [] 0
                (ramp (0 + ew) ew c)) as H.
  rewrite repeat_length in H. cbn [app length] in H.
  exact (H (repeat_Forall _ _ _ (repeat_length _ _))).

Qed.

Lemma build_offsets_no_columns (m : nat) (ns ew : R) :
  build_offsets (S m) 0 ns ew = Raise IndexError.
Proof. reflexivity. Qed.

(** ** The wiring inversion (lines 126-129) *)

Lemma invert_row_run (mask : list (list bool)) (gpre gpost : list (list R)) :
  forall (rest : list R) (mrest : list bool) (done : list R) (mdone : list bool),
    length mdone = length done ->
    length mrest = length rest ->
    list_index mask (length gpre) = Ok (mdone ++ mrest) ->
    for_each (seq (length done) (length rest)) (invert_body mask (length gpre))
      (gpre ++ (done ++ rest) :: gpost)
    = Ok (gpre ++ (done ++ flip_row mrest rest) :: gpost).
Proof.
  induction rest as [| x rest IH]; intros mrest done mdone Hd Hr Hm.
  - destruct mrest; [reflexivity | discriminate].
  - destruct mrest as [| b mrest]; [discriminate |].
    cbn [length seq for_each]. unfold invert_body at 1.
    assert (Hb : grid_index mask (length gpre) (length done) = Ok b).
    { unfold grid_index. rewrite Hm. cbn [bind]. rewrite <- Hd. apply list_index_app. }
    rewrite Hb. cbn [bind].
    assert (Hstep : (if b
                     then cur <- grid_index (gpre ++ (done ++ x :: rest) :: gpost)
                                   (length gpre) (length done) ;;
                          grid_assign (gpre ++ (done ++ x :: rest) :: gpost)
                            (length gpre) (length done) (cur + PI)
                     else Ok (gpre ++ (done ++ x :: rest) :: gpost))
                    = Ok (gpre ++ ((done ++ [flip b x]) ++ rest) :: gpost)).
    { rewrite <- app_assoc. cbn [app]. destruct b; cbn [flip].
      - rewrite grid_index_app. cbn [bind]. apply grid_assign_app.
      - reflexivity. }
    rewrite Hstep. cbn [bind].
    replace (S (length done)) with (length (done ++ [flip b x]))
      by (rewrite length_app; simpl; lia).
    rewrite (IH mrest (done ++ [flip b x]) (mdone ++ [b])).
    + rewrite <- app_assoc. reflexivity.
    + rewrite !length_app. simpl. lia.
    + simpl in Hr. lia.
    + rewrite <- app_assoc. exact Hm.
Qed.

Lemma invert_loop_run (cols : nat) (mask : list (list bool)) :
  forall (grest : list (list R)) (mgrest : list (list bool))
         (gdone : list (list R)) (mgdone : list (list bool)),
    length mgdone = length gdone ->
    Forall2 (fun (mr : list bool) (r : list R) =>
               length mr = cols /\ length r = cols) mgrest grest ->
    mask = mgdone ++ mgrest ->
    for_each (seq (length gdone) (length grest))
      (fun offsets i => for_each (range 0 cols) (invert_body mask i) offsets)
      (gdone ++ grest)
    = Ok (gdone ++ flip_field mgrest grest).
Proof.
  induction grest as [| row grest IH]; intros mgrest gdone mgdone Hd Hall Hm.
  - inversion Hall; subst. reflexivity.
  - inversion Hall as [| mr ? mgrest' ? Hpair Hall']; subst.
    destruct Hpair as [Hmr Hrow].
    cbn [length seq for_each].
    assert (Hr0 : seq 0 cols = range 0 cols)
      by (unfold range; now rewrite Nat.sub_0_r).
    assert (Hmask : list_index (mgdone ++ mr :: mgrest') (length gdone) = Ok mr)
      by (rewrite <- Hd; apply list_index_app).
    pose proof (invert_row_run (mgdone ++ mr :: mgrest') gdone grest row mr [] []
                  eq_refl (eq_trans Hmr (eq_sym Hrow)) Hmask) as Hrun.
    cbn [app length] in Hrun. rewrite Hrow, Hr0 in Hrun.
    rewrite Hrun. cbn [bind].
    replace (gdone ++ flip_row mr row :: grest)
      with ((gdone ++ [flip_row mr row]) ++ grest)
      by (rewrite <- app_assoc; reflexivity).
    replace (S (length gdone)) with (length (gdone ++ [flip_row mr row]))
      by (rewrite length_app; simpl; lia).
    rewrite (IH mgrest' (gdone ++ [flip_row mr row]) (mgdone ++ [mr])).
    + rewrite <- app_assoc. reflexivity.
    + rewrite !length_app. simpl. lia.
    + exact Hall'.
    + rewrite <- app_assoc. reflexivity.
Qed.

Lemma rectangular_Forall2 (rows cols : nat) (mask : list (list bool))
    (field : list (list R)) :
  rectangular mask rows cols -> rectangular field rows cols ->
  Forall2 (fun (mr : list bool) (r : list R) =>
             length mr = cols /\ length r = cols) mask field.
Proof.
  intros [Hlm Hm] [Hlf Hf]. subst rows.
  revert field Hlf Hf. induction mask as [| mr mask IH]; intros field Hlf Hf.
  - destruct field; [constructor | discriminate].
  - destruct field as [| r field]; [discriminate |].
    inversion Hm as [| ? ? Hmr Hm']. inversion Hf as [| ? ? Hr Hf'].
    constructor; [split; assumption |].
    apply IH; auto.
Qed.

Lemma apply_invert_run (rows cols : nat) (mask : list (list bool))
    (field : list (list R)) :
  rectangular mask rows cols -> rectangular field rows cols ->
  apply_invert rows cols mask field = Ok (flip_field mask field).
Proof.
  intros Hm Hf. unfold apply_invert, range. rewrite Nat.sub_0_r.
  pose proof (invert_loop_run cols mask field mask [] [] eq_refl
                (rectangular_Forall2 rows cols mask field Hm Hf) eq_refl) as H.
  cbn [app length] in H. destruct Hf as [Hlf _]. rewrite Hlf in H. exact H.
Qed.

Lemma phase_field_rectangular (rows cols : nat) (ns ew : R) :
  rectangular (phase_field rows cols ns ew) rows cols.
Proof.
  unfold rectangular, phase_field. split.
  - now rewrite length_map, ramp_length.
  - apply Forall_forall. intros r Hr. apply in_map_iff in Hr.
    destruct Hr as (v & <- & _). apply ramp_length.
Qed.

Lemma flip_field_rectangular (rows cols : nat) (mask : list (list bool))
    (field : list (list R)) :
  rectangular mask rows cols -> rectangular field rows cols ->
  rectangular (flip_field mask field) rows cols.
Proof.
  intros Hm Hf. pose proof (rectangular_Forall2 rows cols mask field Hm Hf) as H2.
  destruct Hf as [Hlf _]. subst rows. clear Hm.
  induction H2 as [| mr r mask field [Hmr Hr] _ IH].
  - split; [reflexivity | constructor].
  - destruct IH as [IHl IHf]. split.
    + unfold flip_field in *. simpl. f_equal. exact IHl.
    + constructor; [| exact IHf].
      unfold flip_row. simpl. rewrite length_map, length_combine. simpl. lia.
Qed.

(** Lines 99-129 on a rectangular antenna with at least one column. *)
Lemma phase_fields_run (self : BeamDefinition) (rows c : nat) (ew ns : R) :
  phase_gradients self = Ok (ew, ns) ->
  rectangular (antennaGrid self) rows (S c) ->
  rectangular (antennaInvert self) rows (S c) ->
  (0 < rows)%nat ->
  let raw := phase_field rows (S c) ns ew in
  phase_fields self = Ok (raw, flip_field (antennaInvert self) raw).
Proof.
  intros Hg [Hrows Hall] Hmask Hpos raw. unfold phase_fields.
  rewrite Hg. cbn [bind fst snd].
  assert (Hcols : length (hd [] (antennaGrid self)) = S c).
  { destruct (antennaGrid self) as [| r g]; [simpl in Hrows; lia |].
    inversion Hall; subst. assumption. }
  rewrite Hcols, Hrows, build_offsets_run. cbn [bind].
  rewrite (apply_invert_run rows (S c)); auto using phase_field_rectangular.
Qed.

(** ** Dictionaries built by insertion *)

Section DictFacts.
Context {K V : Type} (eqb : K -> K -> bool).
Hypothesis eqb_spec : forall a b : K, reflect (a = b) (eqb a b).

Lemma dict_get_set (k k' : K) (v : V) (d : list (K * V)) :
  dict_get eqb k (dict_set eqb k' v d)
  = if eqb k k' then Some v else dict_get eqb k d.
Proof.
  induction d as [| [k0 v0] d IH]; simpl.
  - reflexivity.
  - destruct (eqb_spec k' k0) as [-> | Hne]; simpl.
    + destruct (eqb k k0); reflexivity.
    + destruct (eqb_spec k k0) as [-> | Hne'].
      * destruct (eqb_spec k0 k') as [E | _]; [now elim Hne | reflexivity].
      * exact IH.
Qed.

Lemma keys_dict_set_in (k x : K) (v : V) (d : list (K * V)) :
  In x (keys (dict_set eqb k v d)) -> x = k \/ In x (keys d).
Proof.
  induction d as [| [k0 v0] d IH]; simpl.
  - intros [<- | []]. now left.
  - destruct (eqb_spec k k0) as [-> | Hne]; simpl.
    + intros [<- | H]; auto.
    + intros [<- | H]; auto. destruct (IH H); auto.
Qed.

Lemma dict_set_fresh (k : K) (v : V) (d : list (K * V)) :
  ~ In k (keys d) -> dict_set eqb k v d = d ++ [(k, v)].
Proof.
  induction d as [| [k0 v0] d IH]; simpl; intros Hn; [reflexivity |].
  destruct (eqb_spec k k0) as [-> | Hne]; [elim Hn; now left |].
  rewrite IH; [reflexivity | intros H; apply Hn; now right].
Qed.

Lemma dict_set_NoDup (k : K) (v : V) (d : list (K * V)) :
  NoDup (keys d) -> NoDup (keys (dict_set eqb k v d)).
Proof.
  induction d as [| [k0 v0] d IH]; simpl; intros Hd.
  - constructor; [intros [] | constructor].
  - inversion Hd as [| ? ? Hnot Hd']; subst.
    destruct (eqb_spec k k0) as [-> | Hne]; simpl.
    + constructor; assumption.
    + constructor; [| now apply IH].
      intros Hin. destruct (keys_dict_set_in _ _ _ _ Hin) as [E | Hin'].
      * now elim Hne.
      * now elim Hnot.
Qed.

Lemma dict_fold_NoDup (l acc : list (K * V)) :
  NoDup (keys acc) ->
  NoDup (keys (fold_left (fun d kv => dict_set eqb (fst kv) (snd kv) d) l acc)).
Proof.
  revert acc. induction l as [| [k v] l IH]; intros acc Hacc; simpl; [exact Hacc |].
  apply IH. now apply dict_set_NoDup.
Qed.

Lemma dict_of_NoDup (l : list (K * V)) : NoDup (keys (dict_of eqb l)).
Proof. apply dict_fold_NoDup. constructor. Qed.

Lemma dict_fold_fresh (d acc : list (K * V)) :
  NoDup (keys (acc ++ d)) ->
  fold_left (fun d kv => dict_set eqb (fst kv) (snd kv) d) d acc = acc ++ d.
Proof.
  revert acc. induction d as [| [k v] d IH]; intros acc Hnd; simpl.
  - now rewrite app_nil_r.
  - assert (Hk : ~ In k (keys acc)).
    { unfold keys in *. rewrite map_app in Hnd. simpl in Hnd.
      apply NoDup_remove_2 in Hnd. intros H. apply Hnd.
      apply in_or_app. now left. }
    rewrite dict_set_fresh by exact Hk.
    rewrite IH; rewrite <- app_assoc; [reflexivity | exact Hnd].
Qed.

(** Building a dictionary from the items of a dictionary gives it back. *)
Lemma dict_of_items (d : list (K * V)) : NoDup (keys d) -> dict_of eqb d = d.
Proof. intros H. unfold dict_of. now rewrite dict_fold_fresh. Qed.

End DictFacts.

Lemma dict_get_map_values {V W : Type} (f : V -> W) (k : string)
    (d : list (string * V)) :
  dict_get String.eqb k (map (fun kv => (fst kv, f (snd kv))) d)
  = option_map f (dict_get String.eqb k d).
Proof.
  induction d as [| [k0 v0] d IH]; simpl; [reflexivity |].
  destruct (String.eqb k k0); [reflexivity | exact IH].
Qed.

Lemma keys_map_values {V W : Type} (f : V -> W) (d : list (string * V)) :
  keys (map (fun kv => (fst kv, f (snd kv))) d) = keys d.
Proof. unfold keys. rewrite map_map. reflexivity. Qed.

(** A key's value in [dict(pairs)] is the value of its last pair. *)
Lemma dict_get_fold_last {V : Type} (k : string) (l acc : list (string * V)) :
  dict_get String.eqb k
    (fold_left (fun d kv => dict_set String.eqb (fst kv) (snd kv) d) l acc)
  = match assoc_last k l with
    | Some v => Some v
    | None => dict_get String.eqb k acc
    end.
Proof.
  revert acc. induction l as [| [k0 v0] l IH]; intros acc; simpl; [reflexivity |].
  rewrite IH. destruct (assoc_last k l); [reflexivity |].
  rewrite (dict_get_set String.eqb String.eqb_spec).
  destruct (String.eqb k k0); reflexivity.
Qed.

Lemma dict_get_dict_of {V : Type} (k : string) (l : list (string * V)) :
  dict_get String.eqb k (dict_of String.eqb l) = assoc_last k l.
Proof.
  unfold dict_of. rewrite dict_get_fold_last. now destruct (assoc_last k l).
Qed.

(** ** Last occurrences *)

Lemma assoc_last_absent {V : Type} (x : string) (ks : list string) (vs : list V) :
  ~ In x ks -> assoc_last x (combine ks vs) = None.
Proof.
  revert vs. induction ks as [| k ks IH]; intros vs Hn; [reflexivity |].
  destruct vs as [| v vs]; [reflexivity |]. simpl.
  rewrite IH by (intros H; apply Hn; now right).
  destruct (String.eqb_spec x k) as [-> | _]; [elim Hn; now left | reflexivity].
Qed.

Lemma assoc_last_position {V : Type} (x : string) (ks : list string) :
  forall (vs : list V) (n : nat) (v : V),
    last_position ks x n -> nth_error vs n = Some v ->
    assoc_last x (combine ks vs) = Some v.
Proof.
  induction ks as [| k ks IH]; intros vs n v [Hn Hlast] Hv.
  - destruct n; discriminate.
  - destruct vs as [| v0 vs]; [destruct n; discriminate |].
    destruct n as [| n]; simpl in Hn, Hv.
    + inversion Hn; inversion Hv; subst. simpl.
      rewrite assoc_last_absent.
      * now rewrite String.eqb_refl.
      * intros Hin. apply In_nth_error in Hin. destruct Hin as [m Hm].
        apply (Hlast (S m)); [lia | exact Hm].
    + simpl. rewrite (IH vs n v); [reflexivity | | exact Hv].
      split; [exact Hn |]. intros m Hm. apply (Hlast (S m)). lia.
Qed.

Lemma last_position_exists (x : string) (ks : list string) :
  In x ks -> exists n, last_position ks x n.
Proof.
  induction ks as [| k ks IH]; [intros [] |]. intros Hin.
  destruct (in_dec string_dec x ks) as [Hin' | Hnot].
  - destruct (IH Hin') as (n & Hn & Hlast). exists (S n). split; [exact Hn |].
    intros [| m] Hm; [lia |]. apply Hlast. lia.
  - destruct Hin as [-> | Hin]; [| contradiction].
    exists 0%nat. split; [reflexivity |].
    intros [| m] Hm; [lia |]. simpl. intros H. apply Hnot.
    eapply nth_error_In. exact H.
Qed.

Lemma last_position_lt {A : Type} (l : list A) (x : A) (n : nat) :
  last_position l x n -> (n < length l)%nat.
Proof. intros [H _]. apply nth_error_Some. congruence. Qed.

Lemma rectangular_concat_length {A : Type} (g : list (list A)) (rows cols : nat) :
  rectangular g rows cols -> length (concat g) = (rows * cols)%nat.
Proof.
  intros [Hl Hall]. subst rows. induction Hall as [| r g Hr _ IH]; [reflexivity |].
  simpl. rewrite length_app, IH, Hr. reflexivity.
Qed.

(** ** getPhaseSettings, end to end *)

Lemma radiansToAwmf0108_code (r : R) : _radiansToAwmf0108 r = Ok (awmf_code r).
Proof. exact (radiansToAwmf0108_unfold r). Qed.

Lemma awmf_code_range (r : R) : (0 <= awmf_code r <= 31)%Z.
Proof.
  destruct (radiansToAwmf0108_range r) as (v & E & H).
  rewrite radiansToAwmf0108_code in E. inversion E; subst. exact H.
Qed.

Lemma quantize_items_run (l : list (string * R)) :
  quantize_items (dict_of String.eqb l)
  = Ok (map (fun kv => (fst kv, awmf_code (snd kv))) (dict_of String.eqb l)).
Proof.
  unfold quantize_items.
  rewrite mapM_ok_map with (g := fun kv : string * R => (fst kv, awmf_code (snd kv))).
  - cbn [bind]. f_equal. apply (dict_of_items String.eqb String.eqb_spec).
    rewrite keys_map_values. apply (dict_of_NoDup String.eqb String.eqb_spec).
  - intros kv _. rewrite radiansToAwmf0108_code. reflexivity.
Qed.

Lemma applyCalibration_complete (x : string) (s : Z) (cal : option calmap) :
  cal_complete cal -> In x [NE; SE; SW; NW] -> (0 <= s <= 31)%Z ->
  exists v, _applyCalibration x s cal = Ok v /\ (0 <= v <= 31)%Z.
Proof.
  intros Hcal Hx Hs. destruct cal as [[| p m] |].
  - exists s. split; [reflexivity | exact Hs].
  - destruct (Hcal x Hx) as (tbl & Etbl & Hne).
    assert (Hk : keys tbl <> []) by (destruct tbl; simpl; congruence).
    destruct (py_min_spec (fun y => Z.abs (y - s)) (keys tbl) Hk)
      as (key & pre & post & Emin & Ekeys & _ & _).
    assert (Hin : In key (keys tbl)).
    { rewrite Ekeys. apply in_or_app. right. now left. }
    destruct (dict_get_in_keys key tbl Hin) as [off Eoff].
    exists ((s - off) mod 32)%Z. split.
    + unfold _applyCalibration, dict_index. rewrite Etbl. cbn [bind].
      rewrite Emin. cbn [bind]. rewrite Eoff. reflexivity.
    + pose proof (Z.mod_pos_bound (s - off) 32 ltac:(lia)). lia.
  - exists s. split; [reflexivity | exact Hs].
Qed.

Lemma label_run (self : BeamDefinition) (inverted : list (list R)) (x : string) :
  In x [NE; SE; SW; NW] ->
  In x (concat (antennaGrid self)) ->
  (length (concat (antennaGrid self)) <= length (concat inverted))%nat ->
  cal_complete (phaseCal self) ->
  exists v,
    (s <- dict_index String.eqb x
            (map (fun kv => (fst kv, awmf_code (snd kv)))
               (dict_of String.eqb
                  (combine (concat (antennaGrid self)) (concat inverted)))) ;;
     _applyCalibration x s (phaseCal self)) = Ok v /\
    label_setting self inverted x v /\ (0 <= v <= 31)%Z.
Proof.
  intros Hx Hin Hlen Hcal.
  destruct (last_position_exists x _ Hin) as [n Hn].
  pose proof (last_position_lt _ _ _ Hn) as Hlt.
  destruct (nth_error (concat inverted) n) as [ph |] eqn:Eph.
  2: { apply nth_error_None in Eph. lia. }
  destruct (applyCalibration_complete x (awmf_code ph) (phaseCal self) Hcal Hx
              (awmf_code_range ph)) as (v & Ev & Hv).
  exists v. split; [| split; [| exact Hv]].
  - unfold dict_index. rewrite dict_get_map_values, dict_get_dict_of.
    rewrite (assoc_last_position x _ _ n ph Hn Eph). cbn [option_map bind]. exact Ev.
  - exists n, ph. auto.
Qed.

Lemma getPhaseSettings_run (self : BeamDefinition) (rows c : nat) (ew ns : R) :
  phaseSettings self = [] ->
  phase_gradients self = Ok (ew, ns) ->
  rectangular (antennaGrid self) rows (S c) ->
  rectangular (antennaInvert self) rows (S c) ->
  cal_complete (phaseCal self) ->
  (forall x, In x [NE; SE; SW; NW] -> In x (concat (antennaGrid self))) ->
  let raw := phase_field rows (S c) ns ew in
  let inverted := flip_field (antennaInvert self) raw in
  exists ne se sw nw : Z,
    getPhaseSettings self
    = Ok ([ne; se; sw; nw], with_phase self [ne; se; sw; nw] raw) /\
    label_setting self inverted NE ne /\
    label_setting self inverted SE se /\
    label_setting self inverted SW sw /\
    label_setting self inverted NW nw /\
    Forall (fun v => (0 <= v <= 31)%Z) [ne; se; sw; nw].
Proof.
  intros Hcache Hg Hgrid Hmask Hcal Hlabels raw inverted.
  assert (Hrows : (0 < rows)%nat).
  { destruct Hgrid as [Hl _]. destruct (antennaGrid self) as [| r g] eqn:E.
    - exfalso. apply (Hlabels NE). now left.
    - simpl in Hl. lia. }
  assert (Hlen : (length (concat (antennaGrid self)) <= length (concat inverted))%nat).
  { rewrite (rectangular_concat_length _ rows (S c) Hgrid).
    rewrite (rectangular_concat_length inverted rows (S c)); [lia |].
    apply flip_field_rectangular; [exact Hmask | apply phase_field_rectangular]. }
  destruct (label_run self inverted NE) as (ne & Ene & Lne & Rne);
    [simpl; tauto | apply Hlabels; simpl; tauto | exact Hlen | exact Hcal |].
  destruct (label_run self inverted SE) as (se & Ese & Lse & Rse);
    [simpl; tauto | apply Hlabels; simpl; tauto | exact Hlen | exact Hcal |].
  destruct (label_run self inverted SW) as (sw & Esw & Lsw & Rsw);
    [simpl; tauto | apply Hlabels; simpl; tauto | exact Hlen | exact Hcal |].
  destruct (label_run self inverted NW) as (nw & Enw & Lnw & Rnw);
    [simpl; tauto | apply Hlabels; simpl; tauto | exact Hlen | exact Hcal |].
  exists ne, se, sw, nw.
  split; [| repeat split; auto].
  unfold getPhaseSettings. rewrite Hcache. cbn [length Nat.ltb Nat.leb].
  rewrite (phase_fields_run self rows c ew ns Hg Hgrid Hmask Hrows).
  cbn [bind fst snd]. fold raw. fold inverted.
  rewrite quantize_items_run. cbn [bind mapM].
  rewrite Ene. cbn [bind]. rewrite Ese. cbn [bind].
  rewrite Esw. cbn [bind]. rewrite Enw. cbn [bind]. reflexivity.
Qed.

(** ** Entries of the closed forms *)

Lemma ramp_nth_0 (v e : R) (n : nat) : (0 < n)%nat -> nth 0 (ramp v e n) 0 = v.
Proof. destruct n; [lia | reflexivity]. Qed.

Lemma ramp_nth_S (e : R) :
  forall (j n : nat) (v : R),
    (S j < n)%nat -> nth (S j) (ramp v e n) 0 = nth j (ramp v e n) 0 + e.
Proof.
  induction j as [| j IH]; intros n v Hlt.
  - destruct n as [| [| n]]; try lia. reflexivity.
  - destruct n as [| n]; [lia |].
    change (nth (S (S j)) (ramp v e (S n)) 0) with (nth (S j) (ramp (v + e) e n) 0).
    change (nth (S j) (ramp v e (S n)) 0) with (nth j (ramp (v + e) e n) 0).
    apply IH. lia.
Qed.

Lemma nth_map_in {A B : Type} (f : A -> B) (l : list A) (d : A) (d' : B) :
  forall i : nat, (i < length l)%nat -> nth i (map f l) d' = f (nth i l d).
Proof.
  induction l as [| x l IH]; intros [| i] H; simpl in *; try lia; auto.
  apply IH. lia.
Qed.

Lemma phase_field_cell (rows cols : nat) (ns ew : R) (i j : nat) :
  (i < rows)%nat ->
  cell (phase_field rows cols ns ew) i j
  = nth j (ramp (nth i (ramp 0 ns rows) 0) ew cols) 0.
Proof.
  intros Hi. unfold cell, phase_field.
  rewrite (nth_map_in _ _ 0) by (rewrite ramp_length; exact Hi). reflexivity.
Qed.

Lemma flip_field_cell (rows cols : nat) (mask : list (list bool))
    (field : list (list R)) (i j : nat) :
  rectangular mask rows cols -> rectangular field rows cols ->
  (i < rows)%nat -> (j < cols)%nat ->
  cell (flip_field mask field) i j = flip (mask_at mask i j) (cell field i j).
Proof.
  intros [Hlm Hm] [Hlf Hf] Hi Hj. unfold cell, mask_at, flip_field.
  rewrite (nth_map_in _ _ ([], [])) by (rewrite length_combine; lia).
  rewrite combine_nth by lia. cbn [fst snd].
  assert (Hmr : length (nth i mask []) = cols).
  { rewrite Forall_forall in Hm. apply Hm. apply nth_In. lia. }
  assert (Hr : length (nth i field []) = cols).
  { rewrite Forall_forall in Hf. apply Hf. apply nth_In. lia. }
  unfold flip_row.
  rewrite (nth_map_in _ _ (false, 0)) by (rewrite length_combine; lia).
  rewrite combine_nth by lia. reflexivity.
Qed.

Lemma phase_gradients_ok (self : BeamDefinition) :
  waveLength self <> 0 -> cos (theta self) <> 0 ->
  exists ew ns, phase_gradients self = Ok (ew, ns).
Proof.
  intros Hw Hc. unfold phase_gradients.
  rewrite !py_div_ok by assumption. cbn [bind]. eauto.
Qed.

Lemma labels_give_columns (g : list (list string)) (rows cols : nat) (x : string) :
  rectangular g rows cols -> In x (concat g) -> (0 < rows)%nat /\ (0 < cols)%nat.
Proof.
  intros [Hl Hall] Hin. apply in_concat in Hin. destruct Hin as (r & Hr & Hx).
  rewrite Forall_forall in Hall. pose proof (Hall r Hr) as Hlen.
  split.
  - destruct g; [destruct Hr | simpl in Hl; lia].
  - destruct r; [destruct Hx | simpl in Hlen; lia].
Qed.

(** ** The raw and the inverted field *)

(** C6: on an antenna of [rows] x [cols] elements (both positive) with a mask
    of the same dimensions, for gradients [ew] and [ns], the raw field has
    entry [0][0] equal to 0, every later first-column entry equal to the one
    above it plus [ns], and every later entry of a row equal to its left
    neighbour plus [ew]; the field that is quantized adds PI exactly where the
    mask is true; and a computing call of getPhaseSettings stores the raw
    field, which getRawPhaseSettings then returns. *)
Theorem raw_phase_field_ramps (self : BeamDefinition) (rows cols : nat) (ew ns : R) :
  phase_gradients self = Ok (ew, ns) ->
  rectangular (antennaGrid self) rows cols ->
  rectangular (antennaInvert self) rows cols ->
  (0 < rows)%nat -> (0 < cols)%nat ->
  exists raw inverted : list (list R),
    phase_fields self = Ok (raw, inverted) /\
    rectangular raw rows cols /\
    rectangular inverted rows cols /\
    cell raw 0 0 = 0 /\
    (forall i, (1 <= i < rows)%nat -> cell raw i 0 = cell raw (i - 1) 0 + ns) /\
    (forall i j, (i < rows)%nat -> (1 <= j < cols)%nat ->
                 cell raw i j = cell raw i (j - 1) + ew) /\
    (forall i j, (i < rows)%nat -> (j < cols)%nat ->
                 cell inverted i j
                 = if mask_at (antennaInvert self) i j
                   then cell raw i j + PI else cell raw i j) /\
    (forall (settings : list Z) (self' : BeamDefinition),
        phaseSettings self = [] ->
        getPhaseSettings self = Ok (settings, self') ->
        phaseSettingsRaw self' = raw /\
        getRawPhaseSettings self' = Ok (raw, self')).
Proof.
  intros Hg Hgrid Hmask Hrows Hcols.
  destruct cols as [| c]; [lia |].
  pose proof (phase_fields_run self rows c ew ns Hg Hgrid Hmask Hrows) as Hrun.
  cbv zeta in Hrun.
  pose proof (phase_field_rectangular rows (S c) ns ew) as Hrect.
  exists (phase_field rows (S c) ns ew),
         (flip_field (antennaInvert self) (phase_field rows (S c) ns ew)).
  split; [exact Hrun |].
  split; [exact Hrect |].
  split; [apply flip_field_rectangular; assumption |].
  split; [| split; [| split; [| split]]].
  - rewrite phase_field_cell by exact Hrows.
    rewrite ramp_nth_0 by lia. apply ramp_nth_0. exact Hrows.
  - intros i Hi. rewrite !phase_field_cell by lia.
    rewrite !ramp_nth_0 by lia.
    replace i with (S (i - 1)) at 1 by lia. apply ramp_nth_S. lia.
  - intros i j Hi Hj. rewrite !phase_field_cell by lia.
    replace j with (S (j - 1)) at 1 by lia. apply ramp_nth_S. lia.
  - intros i j Hi Hj.
    rewrite (flip_field_cell rows (S c)) by assumption. reflexivity.
  - intros settings self' Hcache Hrun'.
    unfold getPhaseSettings in Hrun'. rewrite Hcache in Hrun'.
    cbn [length Nat.ltb Nat.leb] in Hrun'. rewrite Hrun in Hrun'.
    cbn [bind fst snd] in Hrun'.
    destruct (quantize_items _) as [s_offsets |]; [| discriminate].
    cbn [bind] in Hrun'.
    destruct (mapM _ _) as [n_offsets |]; [| discriminate].
    cbn [bind] in Hrun'. inversion Hrun'; subst.
    split; [reflexivity |].
    unfold getRawPhaseSettings. cbn [phaseSettingsRaw with_phase].
    destruct Hrect as [Hlen _].
    destruct (phase_field rows (S c) ns ew) as [| r0 f]; [simpl in Hlen; lia |].
    reflexivity.
Qed.

Lemma raw_phase_field_ramps_witness :
  exists raw inverted : list (list R),
    phase_fields (init 0 0 (107 / 10000) None 1) = Ok (raw, inverted) /\
    rectangular raw 1 4 /\
    cell raw 0 0 = 0 /\
    cell inverted 0 0 = cell raw 0 0 + PI /\
    cell inverted 0 1 = cell raw 0 1.
Proof.
  assert (Hcos : cos (theta (init 0 0 (107 / 10000) None 1)) <> 0).
  { cbn [theta init]. unfold radians. rewrite Rmult_0_l, cos_0. lra. }
  assert (Hw : waveLength (init 0 0 (107 / 10000) None 1) <> 0)
    by (cbn [waveLength init]; lra).
  destruct (phase_gradients_ok _ Hw Hcos) as (ew & ns & Hg).
  assert (Hgrid : rectangular (antennaGrid (init 0 0 (107 / 10000) None 1)) 1 4)
    by (split; [reflexivity | repeat constructor]).
  assert (Hmask : rectangular (antennaInvert (init 0 0 (107 / 10000) None 1)) 1 4)
    by (split; [reflexivity | repeat constructor]).
  destruct (raw_phase_field_ramps _ 1 4 ew ns Hg Hgrid Hmask ltac:(lia) ltac:(lia))
    as (raw & inverted & Hrun & Hrect & _ & H00 & _ & _ & Hinv & _).
  exists raw, inverted.
  split; [exact Hrun |]. split; [exact Hrect |]. split; [exact H00 |].
  split.
  - exact (Hinv 0%nat 0%nat ltac:(lia) ltac:(lia)).
  - exact (Hinv 0%nat 1%nat ltac:(lia) ltac:(lia)).
Defined.

(** ** The public result of getPhaseSettings *)



Lemma awmf_code_multiple (x : R) (n c : Z) :
  (0 <= n < 32)%Z -> x = IZR n * (2 * PI / 32) -> truncated_steps n = c ->
  awmf_code x = c.
Proof.
  intros Hn Hx Hc. subst x c.
  pose proof (radiansToAwmf0108_steps n Hn) as H.
  rewrite radiansToAwmf0108_code in H. now inversion H.
Qed.

Lemma gradients_broadside (self : BeamDefinition) :
  theta self = radians 0 -> waveLength self <> 0 ->
  phase_gradients self = Ok (0, 0).
Proof.
  intros Ht Hw. unfold phase_gradients, radians in *.
  rewrite Ht, Rmult_0_l, sin_0, cos_0.
  rewrite !py_div_ok by lra. cbn [bind].
  replace (sin (phi self) * 0 / 1) with 0 by field.
  replace (cos (phi self) * 0 / 1) with 0 by field.
  rewrite atan_0, sin_0. f_equal. f_equal; ring.
Qed.




(** ** Missing and repeated labels *)





(** ** The caches across setAntenna *)

Lemma getRawPhaseSettings_stored (self self1 : BeamDefinition) (raw : list (list R)) :
  getRawPhaseSettings self = Ok (raw, self1) -> phaseSettingsRaw self1 = raw.
Proof.
  unfold getRawPhaseSettings.
  destruct (length (phaseSettingsRaw self) =? 0)%nat.
  - destruct (getPhaseSettings self) as [r |]; cbn [bind]; [| discriminate].
    intros H. inversion H; subst. reflexivity.
  - intros H. inversion H; subst. reflexivity.
Qed.

(** C3, what the code does: [setAntenna] empties the phase-setting and gain
    caches but leaves [phaseSettingsRaw] as it is, so once a raw field has
    been computed, [getRawPhaseSettings] after [setAntenna] returns that old
    field for whatever new grid, mask and spacing were set. *)
Theorem setAntenna_keeps_raw_field (self self1 : BeamDefinition)
    (raw : list (list R)) (grid : list (list string))
    (invertPattern : list (list bool)) (spacing : R) :
  getRawPhaseSettings self = Ok (raw, self1) ->
  raw <> [] ->
  phaseSettings (setAntenna self1 grid invertPattern spacing) = [] /\
  gainSettings (setAntenna self1 grid invertPattern spacing) = [] /\
  phaseSettingsRaw (setAntenna self1 grid invertPattern spacing) = raw /\
  getRawPhaseSettings (setAntenna self1 grid invertPattern spacing)
  = Ok (raw, setAntenna self1 grid invertPattern spacing).
Proof.
  intros Hrun Hraw. apply getRawPhaseSettings_stored in Hrun.
  repeat split; try exact Hrun.
  unfold getRawPhaseSettings. cbn [phaseSettingsRaw setAntenna].
  rewrite Hrun. destruct raw; [congruence | reflexivity].
Qed.

Lemma setAntenna_keeps_raw_field_witness :
  exists (raw : list (list R)) (self1 : BeamDefinition),
    getRawPhaseSettings (init 0 90 (3 / 280) None 1) = Ok (raw, self1) /\
    length raw = 1%nat /\
    length (antennaGrid (setAntenna self1 [[NW; NE]; [SW; SE]]
                           [[true; false]; [true; false]] (54 / 10000))) = 2%nat /\
    getRawPhaseSettings (setAntenna self1 [[NW; NE]; [SW; SE]]
                           [[true; false]; [true; false]] (54 / 10000))
    = Ok (raw, setAntenna self1 [[NW; NE]; [SW; SE]]
                 [[true; false]; [true; false]] (54 / 10000)).
Proof.
  set (st := init 0 90 (3 / 280) None 1).
  assert (Hcos : cos (theta st) <> 0).
  { cbn [theta st init]. unfold radians. rewrite Rmult_0_l, cos_0. lra. }
  assert (Hw : waveLength st <> 0) by (cbn [waveLength st init]; lra).
  destruct (phase_gradients_ok st Hw Hcos) as (ew & ns & Hg).
  assert (Hgrid : rectangular (antennaGrid st) 1 4)
    by (split; [reflexivity | repeat constructor]).
  assert (Hmask : rectangular (antennaInvert st) 1 4)
    by (split; [reflexivity | repeat constructor]).
  assert (Hlabels : forall x, In x [NE; SE; SW; NW] -> In x (concat (antennaGrid st)))
    by (cbn; tauto).
  destruct (getPhaseSettings_run st 1 3 ew ns eq_refl Hg Hgrid Hmask I Hlabels)
    as (ne & se & sw & nw & Hrun & _).
  assert (Hraw : getRawPhaseSettings st
                 = Ok (phase_field 1 4 ns ew,
                       with_phase st [ne; se; sw; nw] (phase_field 1 4 ns ew))).
  { unfold getRawPhaseSettings. cbn [phaseSettingsRaw st init length Nat.eqb].
    fold st. rewrite Hrun. reflexivity. }
  exists (phase_field 1 4 ns ew), (with_phase st [ne; se; sw; nw] (phase_field 1 4 ns ew)).
  split; [exact Hraw |]. split; [reflexivity |]. split; [reflexivity |].
  apply (setAntenna_keeps_raw_field st _ _ _ _ _ Hraw). discriminate.
Defined.

(** ** The sampling loops *)

Lemma phi_loop_af_max (absAf : bool) (p_max p_d t : R) :
  forall (fuel : nat) (self : BeamDefinition) (p : R) (points : list sample)
         (af_max : pynum) (r : list sample * pynum * BeamDefinition),
    phi_loop fuel self absAf p_max p_d t p points af_max = Ok r ->
    exists new : list sample,
      fst (fst r) = points ++ new /\
      py_abs af_max <= py_abs (snd (fst r)) /\
      (Forall (fun s : sample => py_abs (snd s) <= py_abs af_max) new ->
       snd (fst r) = af_max).
Proof.
  induction fuel as [| fuel IH]; intros self p points af_max r Hrun;
    [discriminate |].
  cbn [phi_loop] in Hrun.
  destruct (Rlt_dec p p_max) as [Hlt | Hge].
  - destruct (getRelativeGain self) as [g |]; cbn [bind] in Hrun; [| discriminate].
    destruct (getRawPhaseSettings (snd g)) as [rw |]; cbn [bind] in Hrun;
      [| discriminate].
    destruct (_calculateArrayFactor _ _ _ _ _ _) as [a0 |]; cbn [bind] in Hrun;
      [| discriminate].
    set (a := if absAf then PFloat (py_abs a0) else a0) in *.
    apply IH in Hrun. destruct Hrun as (new & Hpts & Hle & Hsame).
    exists ((t, p, a) :: new). split; [| split].
    + rewrite Hpts, <- app_assoc. reflexivity.
    + eapply Rle_trans; [| exact Hle].
      destruct (Rlt_dec (py_abs af_max) (py_abs a)); lra.
    + intros Hall. inversion Hall as [| ? ? Ha Hnew]; subst. cbn [snd] in Ha.
      destruct (Rlt_dec (py_abs af_max) (py_abs a)) as [Hlt' | _]; [lra |].
      apply Hsame. exact Hnew.
  - inversion Hrun; subst. exists []. cbn [fst snd].
    rewrite app_nil_r. repeat split; auto. lra.
Qed.

Lemma theta_loop_af_max (absAf : bool) (t_max t_d p_max p_d : R) :
  forall (fuel : nat) (self : BeamDefinition) (t : R) (points : list sample)
         (af_max : pynum) (r : list sample * pynum * BeamDefinition),
    theta_loop fuel self absAf t_max t_d p_max p_d t points af_max = Ok r ->
    exists new : list sample,
      fst (fst r) = points ++ new /\
      py_abs af_max <= py_abs (snd (fst r)) /\
      (Forall (fun s : sample => py_abs (snd s) <= py_abs af_max) new ->
       snd (fst r) = af_max).
Proof.
  induction fuel as [| fuel IH]; intros self t points af_max r Hrun;
    [discriminate |].
  cbn [theta_loop] in Hrun.
  destruct (Rlt_dec t t_max) as [Hlt | Hge].
  - destruct (phi_loop fuel self absAf p_max p_d t 0 points af_max) as [r1 |] eqn:E1;
      cbn [bind] in Hrun; [| discriminate].
    apply phi_loop_af_max in E1. destruct E1 as (new1 & Hp1 & Hle1 & Hs1).
    apply IH in Hrun. destruct Hrun as (new2 & Hp2 & Hle2 & Hs2).
    exists (new1 ++ new2). split; [| split].
    + rewrite Hp2, Hp1, <- app_assoc. reflexivity.
    + lra.
    + intros Hall. apply Forall_app in Hall. destruct Hall as [H1 H2].
      pose proof (Hs1 H1) as E. rewrite E in Hs2. apply Hs2. exact H2.
  - inversion Hrun; subst. exists []. cbn [fst snd].
    rewrite app_nil_r. repeat split; auto. lra.
Qed.

Lemma py_num_div_ok (a : pynum) (y : R) :
  y <> 0 ->
  py_num_div a y
  = Ok (match a with
        | PFloat x => PFloat (x / y)
        | PComplex re im => PComplex (re / y) (im / y)
        end).
Proof.
  intros Hy. destruct a as [x | re im]; unfold py_num_div.
  - rewrite py_div_ok by exact Hy. reflexivity.
  - destruct (Req_dec_T y 0); [contradiction | reflexivity].
Qed.

Lemma py_abs_zero (a : pynum) :
  py_abs a = 0 -> a = PFloat 0 \/ a = PComplex 0 0.
Proof.
  destruct a as [x | re im]; cbn [py_abs]; intros H.
  - left. f_equal. destruct (Rcase_abs x) as [Hn | Hp].
    + rewrite Rabs_left in H by exact Hn. lra.
    + rewrite Rabs_right in H by exact Hp. exact H.
  - right. apply sqrt_eq_0 in H; [| nra].
    assert (re = 0) by nra. assert (im = 0) by nra. subst. reflexivity.
Qed.

(** ** Normalization *)

(** What generateAllAF does after the sampling pass. *)
Lemma generateAllAF_unfold (fuel : nat) (self : BeamDefinition) (n_theta n_phi : Z)
    (normalized absAf backLobes : bool) (points : list sample)
    (self' : BeamDefinition) :
  generateAllAF fuel self n_theta n_phi false absAf backLobes = Ok (points, self') ->
  exists af_max : pynum,
    1 <= py_abs af_max /\
    (Forall (fun s : sample => py_abs (snd s) <= 1) points -> af_max = PFloat (-1)) /\
    generateAllAF fuel self n_theta n_phi true absAf backLobes
    = (pts <- mapM (fun s : sample =>
                       a <- py_num_div (snd s) (py_abs af_max) ;; Ok (fst s, a))
                    points ;;
       Ok (pts, self')).
Proof.
  unfold generateAllAF. intros Hrun.
  destruct (py_div 360 (IZR n_phi)) as [p_d |]; cbn [bind] in *; [| discriminate].
  destruct (py_div _ (IZR n_theta)) as [t_d |]; cbn [bind] in *; [| discriminate].
  destruct (theta_loop _ _ _ _ _ _ _ _ _ _) as [r |] eqn:E; cbn [bind] in *;
    [| discriminate].
  inversion Hrun; subst.
  apply theta_loop_af_max in E. destruct E as (new & Hpts & Hle & Hsame).
  cbn [app] in Hpts. cbn [py_abs] in Hle, Hsame.
  assert (H1 : Rabs (-1) = 1) by (unfold Rabs; destruct (Rcase_abs (-1)); lra).
  rewrite H1 in Hle, Hsame.
  exists (snd (fst r)). split; [exact Hle |]. split; [| reflexivity].
  intros Hall. apply Hsame. rewrite <- Hpts. exact Hall.
Qed.

(** ** One sample at broadside, steering to theta = -30, phi = 90 *)

Lemma radians_m30 : radians (-30) = - (PI / 6).
Proof. unfold radians. field. Qed.

Lemma radians_90 : radians 90 = PI / 2.
Proof. unfold radians. field. Qed.

Lemma radians_0 : radians 0 = 0.
Proof. unfold radians. ring. Qed.

Lemma gradients_m30_90 (self : BeamDefinition) :
  theta self = radians (-30) -> phi self = radians 90 -> waveLength self <> 0 ->
  phase_gradients self = Ok (PI * antennaSpacing self / waveLength self, 0).
Proof.
  intros Ht Hp Hw. unfold phase_gradients.
  rewrite Ht, Hp, radians_m30, radians_90.
  assert (Hs3 : 0 < sqrt 3) by (apply sqrt_lt_R0; lra).
  assert (Hc : cos (- (PI / 6)) <> 0) by (rewrite cos_neg, cos_PI6; lra).
  rewrite !py_div_ok by assumption. cbn [bind].
  rewrite sin_PI2, cos_PI2.
  replace (1 * sin (- (PI / 6)) / cos (- (PI / 6))) with (tan (- (PI / 6)))
    by (unfold tan; field; exact Hc).
  rewrite atan_tan by (pose proof PI_RGT_0; lra).
  replace (0 * sin (- (PI / 6)) / cos (- (PI / 6))) with 0 by (field; exact Hc).
  rewrite atan_0, sin_0, sin_neg, sin_PI6.
  f_equal. f_equal; field; exact Hw.
Qed.

(** At broadside the path-length terms vanish: the array factor of a 1x4
    antenna is the sum of its four phasors. *)
Lemma calculateArrayFactor_broadside_1x4 (self : BeamDefinition)
    (g : list string) (i0 i1 i2 i3 d0 d1 d2 d3 w : R) :
  antennaGrid self = [g] -> length g = 4%nat -> w <> 0 ->
  _calculateArrayFactor self (radians 0) (radians 0)
    [[i0; i1; i2; i3]] [[d0; d1; d2; d3]] w
  = Ok (PComplex (0 + i0 * cos d0 + i1 * cos d1 + i2 * cos d2 + i3 * cos d3)
                 (i0 * sin d0 + i1 * sin d1 + i2 * sin d2 + i3 * sin d3)).
Proof.
  intros Hg Hl Hw. unfold _calculateArrayFactor.
  rewrite py_div_ok by exact Hw. cbn [bind].
  rewrite Hg. cbn [length hd]. rewrite Hl.
  unfold range. cbn [Nat.sub seq for_each].
  unfold af_body. cbn [grid_index list_index nth_error bind].
  rewrite radians_0, sin_0.
  cbn [py_add py_scale cexp_i bind].
  repeat rewrite ?Rmult_0_r, ?Rmult_0_l, ?Rplus_0_r.
  reflexivity.
Qed.

Lemma sample_pass_m30_90 (w : R) :
  w <> 0 ->
  let delta := PI * (5.4 * / 10 ^ 3) / w in
  let re := 0 + 1 * cos 0 + 1 * cos (0 + delta) + 1 * cos (0 + delta + delta)
            + 1 * cos (0 + delta + delta + delta) in
  let im := 1 * sin 0 + 1 * sin (0 + delta) + 1 * sin (0 + delta + delta)
            + 1 * sin (0 + delta + delta + delta) in
  let m := sqrt (re * re + im * im) in
  exists self' : BeamDefinition,
    theta_loop 3 (init (-30) 90 w None 1) true 90 (90 / 1) 360 (360 / 1) 0 []
      (PFloat (-1))
    = Ok ([(0, 0, PFloat m)],
          (if Rlt_dec (Rabs (-1)) (Rabs m) then PFloat m else PFloat (-1)),
          self').
Proof.
  intros Hw delta re im m.
  set (st := init (-30) 90 w None 1).
  assert (Hgain : getRelativeGain st = Ok ([[1; 1; 1; 1]], with_gain st [[1; 1; 1; 1]])).
  { apply (getRelativeGain_ones st [NE; NW; SE; SW] []); try reflexivity.
    cbn [beamStrength st init]. lra. }
  set (st1 := with_gain st [[1; 1; 1; 1]]) in *.
  assert (Hg : phase_gradients st1 = Ok (delta, 0)).
  { apply (gradients_m30_90 st1); try reflexivity. exact Hw. }
  assert (Hgrid : rectangular (antennaGrid st1) 1 4)
    by (split; [reflexivity | repeat constructor]).
  assert (Hmask : rectangular (antennaInvert st1) 1 4)
    by (split; [reflexivity | repeat constructor]).
  assert (Hlabels : forall x, In x [NE; SE; SW; NW] -> In x (concat (antennaGrid st1)))
    by (cbn; tauto).
  destruct (getPhaseSettings_run st1 1 3 delta 0 eq_refl Hg Hgrid Hmask I Hlabels)
    as (ne & se & sw & nw & Hrun & _).
  cbv zeta in Hrun.
  change (phase_field 1 4 0 delta)
    with [[0; 0 + delta; 0 + delta + delta; 0 + delta + delta + delta]] in Hrun.
  set (raw := [[0; 0 + delta; 0 + delta + delta; 0 + delta + delta + delta]]) in *.
  set (st2 := with_phase st1 [ne; se; sw; nw] raw) in *.
  assert (Hraw : getRawPhaseSettings st1 = Ok (raw, st2)).
  { unfold getRawPhaseSettings. cbn [phaseSettingsRaw st1 with_gain st init length Nat.eqb].
    fold st. fold st1. rewrite Hrun. reflexivity. }
  assert (Hraw2 : getRawPhaseSettings st2 = Ok (raw, st2)) by reflexivity.
  assert (Hgain2 : getRelativeGain st2 = Ok ([[1; 1; 1; 1]], st2)) by reflexivity.
  assert (Haf : _calculateArrayFactor st2 (radians 0) (radians 0)
                  [[1; 1; 1; 1]] raw (waveLength st2) = Ok (PComplex re im)).
  { apply (calculateArrayFactor_broadside_1x4 st2 [NE; NW; SE; SW]);
      try reflexivity. exact Hw. }
  exists st2.
  assert (E90 : 90 / 1 = 90) by field.
  assert (E360 : 360 / 1 = 360) by field.
  cbn [theta_loop].
  destruct (Rlt_dec 0 90) as [_ | N]; [| exfalso; lra].
  cbn [phi_loop].
  destruct (Rlt_dec 0 360) as [_ | N]; [| exfalso; lra].
  rewrite Hgain. cbn [bind fst snd]. fold st1.
  rewrite Hraw. cbn [bind fst snd].
  rewrite Haf. cbn [bind app py_abs]. fold m.
  destruct (Rlt_dec (0 + 360 / 1) 360) as [N | _]; [exfalso; lra |].
  cbn [bind fst snd].
  destruct (Rlt_dec (0 + 90 / 1) 90) as [N | _]; [exfalso; lra |].
  reflexivity.
Qed.

Lemma generateAllAF_single_m30_90 (w : R) :
  w <> 0 ->
  let delta := PI * (5.4 * / 10 ^ 3) / w in
  let re := 0 + 1 * cos 0 + 1 * cos (0 + delta) + 1 * cos (0 + delta + delta)
            + 1 * cos (0 + delta + delta + delta) in
  let im := 1 * sin 0 + 1 * sin (0 + delta) + 1 * sin (0 + delta + delta)
            + 1 * sin (0 + delta + delta + delta) in
  let m := sqrt (re * re + im * im) in
  exists self' : BeamDefinition,
    generateAllAF 3 (init (-30) 90 w None 1) 1 1 false true false
    = Ok ([(0, 0, PFloat m)], self').
Proof.
  intros Hw delta re im m.
  destruct (sample_pass_m30_90 w Hw) as [self' Hpass].
  cbv zeta in Hpass. fold delta in Hpass. fold re in Hpass. fold im in Hpass.
  fold m in Hpass.
  exists self'. unfold generateAllAF.
  rewrite !py_div_ok by lra. cbn [bind]. rewrite Hpass. reflexivity.
Qed.

(** C9: whenever the sampling pass of generateAllAF succeeds, the pass with
    normalization succeeds too, on the same angles: the divisor abs(af_max)
    is at least 1, because af_max starts at -1 and is only replaced by a
    sample of larger magnitude.  In particular, when every sample has
    magnitude zero, every returned magnitude is the number zero. *)
Theorem generateAllAF_normalization_defined (fuel : nat) (self : BeamDefinition)
    (n_theta n_phi : Z) (absAf backLobes : bool) (points : list sample)
    (self' : BeamDefinition) :
  generateAllAF fuel self n_theta n_phi false absAf backLobes = Ok (points, self') ->
  exists pts : list sample,
    generateAllAF fuel self n_theta n_phi true absAf backLobes = Ok (pts, self') /\
    map fst pts = map fst points /\
    (Forall (fun s : sample => py_abs (snd s) = 0) points ->
     Forall (fun s : sample => snd s = PFloat 0 \/ snd s = PComplex 0 0) pts).
Proof.
  intros Hrun.
  destruct (generateAllAF_unfold fuel self n_theta n_phi true absAf backLobes
              points self' Hrun) as (af_max & Hge & Hsame & Hnorm).
  assert (Hne : py_abs af_max <> 0) by lra.
  set (scaled := fun s : sample =>
                   (fst s,
                    match snd s with
                    | PFloat x => PFloat (x / py_abs af_max)
                    | PComplex re im =>
                        PComplex (re / py_abs af_max) (im / py_abs af_max)
                    end)).
  assert (Hmap : mapM (fun s : sample =>
                         a <- py_num_div (snd s) (py_abs af_max) ;; Ok (fst s, a))
                      points = Ok (map scaled points)).
  { apply mapM_ok_map. intros s _. rewrite py_num_div_ok by exact Hne. reflexivity. }
  exists (map scaled points). split; [| split].
  - rewrite Hnorm, Hmap. reflexivity.
  - rewrite map_map. reflexivity.
  - intros Hzero.
    assert (Hle : Forall (fun s : sample => py_abs (snd s) <= 1) points).
    { eapply Forall_impl; [| exact Hzero]. cbv beta. intros s Hs. rewrite Hs. lra. }
    pose proof (Hsame Hle) as Eaf.
    assert (H1 : py_abs af_max = 1).
    { rewrite Eaf. cbn [py_abs]. unfold Rabs. destruct (Rcase_abs (-1)); lra. }
    apply Forall_forall. intros s' Hin. apply in_map_iff in Hin.
    destruct Hin as (s & <- & Hs).
    rewrite Forall_forall in Hzero. pose proof (Hzero s Hs) as Hz.
    unfold scaled. cbn [snd]. rewrite H1.
    destruct (py_abs_zero _ Hz) as [E | E]; rewrite E.
    + left. f_equal. field.
    + right. f_equal; field.
Qed.

Lemma generateAllAF_normalization_defined_witness :
  exists (pts : list sample) (self' : BeamDefinition),
    generateAllAF 3 (init (-30) 90 (108 / 10000) None 1) 1 1 true true false
    = Ok (pts, self') /\
    map fst pts = [(0, 0)] /\
    Forall (fun s : sample => snd s = PFloat 0 \/ snd s = PComplex 0 0) pts.
Proof.
  assert (Hw : 108 / 10000 <> 0) by lra.
  destruct (generateAllAF_single_m30_90 (108 / 10000) Hw) as [self' Hrun].
  cbv zeta in Hrun.
  assert (Hd : 5.4 * / 10 ^ 3 = 54 / 10000) by lra.
  rewrite Hd in Hrun.
  replace (0 + PI * (54 / 10000) / (108 / 10000)
           + PI * (54 / 10000) / (108 / 10000)
           + PI * (54 / 10000) / (108 / 10000))
    with (3 * (PI / 2)) in Hrun by field.
  replace (0 + PI * (54 / 10000) / (108 / 10000)
           + PI * (54 / 10000) / (108 / 10000))
    with PI in Hrun by field.
  replace (0 + PI * (54 / 10000) / (108 / 10000))
    with (PI / 2) in Hrun by field.
  rewrite cos_0, sin_0, cos_PI2, sin_PI2, cos_PI, sin_PI, cos_3PI2, sin_3PI2 in Hrun.
  replace (0 + 1 * 1 + 1 * 0 + 1 * -1 + 1 * 0) with 0 in Hrun by ring.
  replace (1 * 0 + 1 * 1 + 1 * 0 + 1 * -1) with 0 in Hrun by ring.
  replace (0 * 0 + 0 * 0) with 0 in Hrun by ring.
  rewrite sqrt_0 in Hrun.
  destruct (generateAllAF_normalization_defined 3 _ 1 1 true false _ _ Hrun)
    as (pts & Hnorm & Hfst & Hzero).
  exists pts, self'. split; [exact Hnorm |]. split; [exact Hfst |].
  apply Hzero. constructor; [| constructor].
  cbn [snd py_abs]. apply Rabs_R0.
Defined.

(** C4, the failing input: steering to theta = -30, phi = 90 at wavelength
    6.48 mm on the default 1x4 antenna (spacing 5.4 mm), sampled at one point
    (n_theta = n_phi = 1).  The only sample has a magnitude m with 0 < m < 1;
    af_max stays at its initial -1, the division is by abs(-1) = 1, and the
    normalized call returns the same magnitude m instead of 1. *)
Theorem generateAllAF_not_normalized_below_one :
  exists (m : R) (self' : BeamDefinition),
    generateAllAF 3 (init (-30) 90 (648 / 100000) None 1) 1 1 false true false
    = Ok ([(0, 0, PFloat m)], self') /\
    0 < m < 1 /\
    generateAllAF 3 (init (-30) 90 (648 / 100000) None 1) 1 1 true true false
    = Ok ([(0, 0, PFloat m)], self').
Proof.
  assert (Hw : 648 / 100000 <> 0) by lra.
  destruct (generateAllAF_single_m30_90 (648 / 100000) Hw) as [self' Hrun].
  cbv zeta in Hrun.
  assert (Hd : 5.4 * / 10 ^ 3 = 54 / 10000) by lra.
  rewrite Hd in Hrun.
  replace (0 + PI * (54 / 10000) / (648 / 100000)
           + PI * (54 / 10000) / (648 / 100000)
           + PI * (54 / 10000) / (648 / 100000))
    with (3 * (PI / 2) + PI) in Hrun by field.
  replace (0 + PI * (54 / 10000) / (648 / 100000)
           + PI * (54 / 10000) / (648 / 100000))
    with ((PI - PI / 3) + PI) in Hrun by field.
  replace (0 + PI * (54 / 10000) / (648 / 100000))
    with (- (PI / 6) + PI) in Hrun by field.
  rewrite !neg_cos, !neg_sin in Hrun.
  rewrite cos_0, sin_0, cos_neg, sin_neg, cos_PI6, sin_PI6, sin_PI_x, sin_PI3,
    cos_3PI2, sin_3PI2 in Hrun.
  assert (Hc : cos (PI - PI / 3) = - (1 / 2)).
  { replace (PI - PI / 3) with (- (PI / 3) + PI) by field.
    rewrite neg_cos, cos_neg, cos_PI3. reflexivity. }
  rewrite Hc in Hrun.
  set (s := sqrt 3) in *.
  assert (Hs0 : 0 <= s) by apply sqrt_pos.
  assert (Hss : s * s = 3) by (apply sqrt_sqrt; lra).
  set (re := 0 + 1 * 1 + 1 * - (s / 2) + 1 * - - (1 / 2) + 1 * - 0) in *.
  set (im := 1 * 0 + 1 * - - (1 / 2) + 1 * - (s / 2) + 1 * - -1) in *.
  assert (HX : 0 < re * re + im * im < 1) by (unfold re, im; nra).
  set (m := sqrt (re * re + im * im)) in *.
  assert (Hm : 0 < m < 1).
  { split.
    - apply sqrt_lt_R0. lra.
    - rewrite <- sqrt_1. apply sqrt_lt_1_alt. lra. }
  exists m, self'. split; [exact Hrun |]. split; [exact Hm |].
  destruct (generateAllAF_unfold 3 _ 1 1 true true false _ _ Hrun)
    as (af_max & _ & Hsame & Hnorm).
  assert (Eaf : af_max = PFloat (-1)).
  { apply Hsame. constructor; [| constructor]. cbn [snd py_abs].
    rewrite Rabs_pos_eq; lra. }
  rewrite Hnorm, Eaf. cbn [mapM snd fst py_num_div py_abs].
  assert (H1 : Rabs (-1) = 1) by (unfold Rabs; destruct (Rcase_abs (-1)); lra).
  rewrite H1, py_div_ok by lra. cbn [bind].
  replace (m / 1) with m by field. reflexivity.
Qed.

(** ** Termination of the sampling loops *)

Lemma grid_index_rectangular {A : Type} (g : list (list A)) (rows cols i j : nat) :
  rectangular g rows cols -> (i < rows)%nat -> (j < cols)%nat ->
  exists v, grid_index g i j = Ok v.
Proof.
  intros [Hl Hall] Hi Hj. unfold grid_index, list_index.
  destruct (nth_error g i) as [row |] eqn:Erow.
  2: { apply nth_error_None in Erow. lia. }
  cbn [bind]. rewrite Forall_forall in Hall.
  pose proof (Hall row (nth_error_In _ _ Erow)) as Hrow.
  destruct (nth_error row j) as [v |] eqn:Ev.
  - now exists v.
  - apply nth_error_None in Ev. lia.
Qed.

Lemma for_each_total {S : Type} (l : list nat) (body : S -> nat -> result S) :
  (forall s x, In x l -> exists s', body s x = Ok s') ->
  forall s, exists s', for_each l body s = Ok s'.
Proof.
  induction l as [| x l IH]; intros Hbody s; simpl.
  - now exists s.
  - destruct (Hbody s x (or_introl eq_refl)) as [s1 E1]. rewrite E1. cbn [bind].
    apply IH. intros s0 y Hy. apply Hbody. now right.
Qed.

Lemma calculateArrayFactor_total (self : BeamDefinition) (rows cols : nat)
    (theta0 phi0 w : R) (gain d : list (list R)) :
  (0 < rows)%nat ->
  rectangular (antennaGrid self) rows cols ->
  rectangular gain rows cols -> rectangular d rows cols -> w <> 0 ->
  exists a, _calculateArrayFactor self theta0 phi0 gain d w = Ok a.
Proof.
  intros Hrows Hgrid Hgain Hd Hw. unfold _calculateArrayFactor.
  rewrite py_div_ok by exact Hw. cbn [bind].
  assert (Hcols : length (hd [] (antennaGrid self)) = cols).
  { destruct Hgrid as [Hl Hall]. destruct (antennaGrid self) as [| r g];
      [simpl in Hl; lia |]. inversion Hall as [| ? ? Hr0 _]. exact Hr0. }
  destruct Hgrid as [Hl _]. rewrite Hl, Hcols.
  apply for_each_total. intros s n Hn.
  apply for_each_total. intros s0 m Hm.
  unfold range in Hn, Hm. apply in_seq in Hn. apply in_seq in Hm.
  unfold af_body.
  destruct (grid_index_rectangular gain rows cols n m Hgain) as [v Ev]; try lia.
  destruct (grid_index_rectangular d rows cols n m Hd) as [u Eu]; try lia.
  rewrite Ev. cbn [bind]. rewrite Eu. cbn [bind]. eauto.
Qed.

Lemma rectangular_nonempty {A : Type} (g : list (list A)) (rows cols : nat) :
  rectangular g rows cols -> (0 < rows)%nat -> g <> [].
Proof. intros [Hl _] Hr ->. simpl in Hl. lia. Qed.

Lemma repeat_rectangular (rows cols : nat) (x : R) :
  rectangular (repeat (repeat x cols) rows) rows cols.
Proof.
  split; [apply repeat_length |]. apply repeat_Forall. apply repeat_length.
Qed.

(** One sample on a controller whose caches are filled. *)
Lemma sample_warm (self : BeamDefinition) (rows cols : nat) (theta0 phi0 : R) :
  warm self rows cols ->
  getRelativeGain self = Ok (gainSettings self, self) /\
  getRawPhaseSettings self = Ok (phaseSettingsRaw self, self) /\
  exists a,
    _calculateArrayFactor self theta0 phi0 (gainSettings self)
      (phaseSettingsRaw self) (waveLength self) = Ok a.
Proof.
  intros (Hrows & Hgrid & Hgain & Hraw & Hw).
  pose proof (rectangular_nonempty _ _ _ Hgain Hrows) as Hg.
  pose proof (rectangular_nonempty _ _ _ Hraw Hrows) as Hr.
  repeat split.
  - unfold getRelativeGain. destruct (gainSettings self); [congruence | reflexivity].
  - unfold getRawPhaseSettings. destruct (phaseSettingsRaw self); [congruence | reflexivity].
  - apply (calculateArrayFactor_total self rows cols); assumption.
Qed.

(** The first sample on a fresh controller fills both caches. *)
Lemma sample_fresh (self : BeamDefinition) (rows cols : nat) :
  fresh_valid self rows cols ->
  exists (g r : list (list R) * BeamDefinition),
    getRelativeGain self = Ok g /\
    getRawPhaseSettings (snd g) = Ok r /\
    fst g = gainSettings (snd r) /\
    fst r = phaseSettingsRaw (snd r) /\
    warm (snd r) rows cols.
Proof.
  intros (Hps & Hraw & Hgs & Hgrid & Hmask & Hw & Hcos & Hb & Hcal & Hlabels).
  destruct (labels_give_columns _ rows cols NE Hgrid) as [Hrows Hcols];
    [apply Hlabels; simpl; tauto |].
  destruct cols as [| c]; [lia |].
  destruct (antennaGrid self) as [| row0 rest] eqn:Egrid.
  { destruct Hgrid as [Hl _]. simpl in Hl. lia. }
  pose proof (getRelativeGain_ones self row0 rest Hgs Egrid Hb) as Hgain.
  cbv zeta in Hgain.
  assert (Hrow0 : length row0 = S c).
  { destruct Hgrid as [_ Hall]. inversion Hall as [| ? ? Hr0 _]. exact Hr0. }
  assert (Hlen : length (antennaGrid self) = rows).
  { rewrite Egrid. destruct Hgrid as [Hl _]. exact Hl. }
  rewrite Hrow0, Hlen in Hgain.
  set (gain := repeat (repeat 1 (S c)) rows) in *.
  set (st1 := with_gain self gain) in *.
  destruct (phase_gradients_ok st1 Hw Hcos) as (ew & ns & Hgr).
  assert (Hgrid1 : rectangular (antennaGrid st1) rows (S c))
    by (cbn [antennaGrid st1 with_gain]; rewrite Egrid; exact Hgrid).
  assert (Hlabels1 : forall x, In x [NE; SE; SW; NW] -> In x (concat (antennaGrid st1)))
    by (cbn [antennaGrid st1 with_gain]; rewrite Egrid; exact Hlabels).
  destruct (getPhaseSettings_run st1 rows c ew ns Hps Hgr Hgrid1 Hmask Hcal Hlabels1)
    as (ne & se & sw & nw & Hrun & _).
  cbv zeta in Hrun.
  set (raw := phase_field rows (S c) ns ew) in *.
  exists (gain, st1), (raw, with_phase st1 [ne; se; sw; nw] raw).
  split; [exact Hgain |]. split; [| split; [reflexivity | split; [reflexivity |]]].
  - unfold getRawPhaseSettings. cbn [snd].
    replace (phaseSettingsRaw st1) with (@nil (list R)) by (symmetry; exact Hraw).
    cbn [length Nat.eqb]. rewrite Hrun. reflexivity.
  - cbn [snd]. unfold warm. cbn [antennaGrid gainSettings phaseSettingsRaw
                                 waveLength with_phase].
    repeat split; try assumption; try apply Hgrid1.
    + apply repeat_length.
    + apply repeat_Forall. apply repeat_length.
    + unfold raw. apply phase_field_rectangular.
    + unfold raw. apply phase_field_rectangular.
Qed.

Lemma sample_total (self : BeamDefinition) (rows cols : nat) (theta0 phi0 : R) :
  fresh_valid self rows cols \/ warm self rows cols ->
  exists (g r : list (list R) * BeamDefinition) (a : pynum),
    getRelativeGain self = Ok g /\
    getRawPhaseSettings (snd g) = Ok r /\
    _calculateArrayFactor (snd r) theta0 phi0 (fst g) (fst r) (waveLength (snd r))
    = Ok a /\
    warm (snd r) rows cols.
Proof.
  intros [Hfresh | Hwarm].
  - destruct (sample_fresh self rows cols Hfresh) as (g & r & Hg & Hr & Eg & Er & Hw).
    destruct (sample_warm (snd r) rows cols theta0 phi0 Hw) as (_ & _ & a & Ha).
    exists g, r, a. rewrite Eg, Er. auto.
  - destruct (sample_warm self rows cols theta0 phi0 Hwarm) as (Hg & Hr & a & Ha).
    exists (gainSettings self, self), (phaseSettingsRaw self, self), a. auto.
Qed.

Lemma phi_loop_total (rows cols : nat) (absAf : bool) (p_max p_d t : R) :
  0 < p_d ->
  forall (k fuel : nat) (self : BeamDefinition) (p : R) (points : list sample)
         (af_max : pynum),
    fresh_valid self rows cols \/ warm self rows cols ->
    p_max - p <= INR k * p_d ->
    (k < fuel)%nat ->
    exists r,
      phi_loop fuel self absAf p_max p_d t p points af_max = Ok r /\
      (fresh_valid (snd r) rows cols \/ warm (snd r) rows cols).
Proof.
  intros Hpd. induction k as [| k IH]; intros fuel self p points af_max Hst Hk Hfuel.
  - destruct fuel as [| fuel]; [lia |]. cbn [phi_loop].
    simpl in Hk. destruct (Rlt_dec p p_max) as [Hlt | _]; [exfalso; lra |].
    eexists. split; [reflexivity | exact Hst].
  - destruct fuel as [| fuel]; [lia |]. cbn [phi_loop].
    destruct (Rlt_dec p p_max) as [Hlt | _].
    + destruct (sample_total self rows cols (radians t) (radians p) Hst)
        as (g & r & a & Hg & Hr & Ha & Hw).
      rewrite Hg. cbn [bind]. rewrite Hr. cbn [bind]. rewrite Ha. cbn [bind].
      apply IH; [now right | | lia].
      rewrite S_INR in Hk. lra.
    + eexists. split; [reflexivity | exact Hst].
Qed.

Lemma theta_loop_total (rows cols : nat) (absAf : bool)
    (t_max t_d p_max p_d : R) (kphi : nat) :
  0 < t_d -> 0 < p_d -> p_max - 0 <= INR kphi * p_d ->
  forall (k fuel : nat) (self : BeamDefinition) (t : R) (points : list sample)
         (af_max : pynum),
    fresh_valid self rows cols \/ warm self rows cols ->
    t_max - t <= INR k * t_d ->
    (k + kphi + 1 < fuel)%nat ->
    exists r, theta_loop fuel self absAf t_max t_d p_max p_d t points af_max = Ok r.
Proof.
  intros Htd Hpd Hphi.
  induction k as [| k IH]; intros fuel self t points af_max Hst Hk Hfuel.
  - destruct fuel as [| fuel]; [lia |]. cbn [theta_loop].
    simpl in Hk. destruct (Rlt_dec t t_max) as [Hlt | _]; [exfalso; lra |].
    eexists. reflexivity.
  - destruct fuel as [| fuel]; [lia |]. cbn [theta_loop].
    destruct (Rlt_dec t t_max) as [Hlt | _].
    + destruct (phi_loop_total rows cols absAf p_max p_d t Hpd kphi fuel self 0
                  points af_max Hst Hphi ltac:(lia)) as (r1 & E1 & Hst1).
      rewrite E1. cbn [bind].
      apply IH; [exact Hst1 | | lia].
      rewrite S_INR in Hk. lra.
    + eexists. reflexivity.
Qed.

Lemma INR_to_nat (n : Z) : (0 <= n)%Z -> INR (Z.to_nat n) = IZR n.
Proof. intros H. rewrite INR_IZR_INZ, Z2Nat.id by exact H. reflexivity. Qed.

Lemma generateAllAF_normalized_total (fuel : nat) (self : BeamDefinition)
    (n_theta n_phi : Z) (absAf backLobes : bool) (points : list sample)
    (self' : BeamDefinition) :
  generateAllAF fuel self n_theta n_phi false absAf backLobes = Ok (points, self') ->
  exists pts : list sample,
    generateAllAF fuel self n_theta n_phi true absAf backLobes = Ok (pts, self').
Proof.
  intros Hrun.
  destruct (generateAllAF_unfold fuel self n_theta n_phi true absAf backLobes
              points self' Hrun) as (af_max & Hge & _ & Hnorm).
  rewrite Hnorm.
  assert (Hne : py_abs af_max <> 0) by lra.
  clear Hnorm Hrun. induction points as [| s points IH].
  - eexists. reflexivity.
  - destruct IH as [pts E]. cbn [mapM]. rewrite py_num_div_ok by exact Hne.
    cbn [bind]. destruct (mapM _ points) as [ys |]; [| discriminate].
    cbn [bind]. eexists. reflexivity.
Qed.

(** X1 (termination of generateAllAF): on a fresh valid controller, for positive
    resolutions, a budget of [n_theta + n_phi + 2] loop steps is enough for
    the call to finish with a list of samples, normalized or not. *)
Theorem generateAllAF_terminates (self : BeamDefinition) (rows cols : nat)
    (n_theta n_phi : Z) (normalized absAf backLobes : bool) :
  fresh_valid self rows cols ->
  (0 < n_theta)%Z -> (0 < n_phi)%Z ->
  exists (pts : list sample) (self' : BeamDefinition),
    generateAllAF (Z.to_nat n_theta + Z.to_nat n_phi + 2) self n_theta n_phi
      normalized absAf backLobes = Ok (pts, self').
Proof.
  intros Hfresh Hth Hph.
  assert (Hnth : 0 < IZR n_theta) by (apply IZR_lt; exact Hth).
  assert (Hnph : 0 < IZR n_phi) by (apply IZR_lt; exact Hph).
  set (t_max := if backLobes then 180 else 90).
  assert (Htmax : 0 < t_max) by (unfold t_max; destruct backLobes; lra).
  assert (Hpd : 0 < 360 / IZR n_phi) by (apply Rdiv_lt_0_compat; lra).
  assert (Htd : 0 < t_max / IZR n_theta) by (apply Rdiv_lt_0_compat; lra).
  assert (Hkphi : 360 - 0 <= INR (Z.to_nat n_phi) * (360 / IZR n_phi)).
  { rewrite INR_to_nat by lia. right. field. lra. }
  assert (Hkth : t_max - 0 <= INR (Z.to_nat n_theta) * (t_max / IZR n_theta)).
  { rewrite INR_to_nat by lia. right. field. lra. }
  destruct (theta_loop_total rows cols absAf t_max (t_max / IZR n_theta) 360
              (360 / IZR n_phi) (Z.to_nat n_phi) Htd Hpd Hkphi
              (Z.to_nat n_theta) (Z.to_nat n_theta + Z.to_nat n_phi + 2) self 0
              [] (PFloat (-1)) (or_introl Hfresh) Hkth ltac:(lia)) as [r Hloop].
  assert (Hraw : generateAllAF (Z.to_nat n_theta + Z.to_nat n_phi + 2) self
                   n_theta n_phi false absAf backLobes
                 = Ok (fst (fst r), snd r)).
  { unfold generateAllAF. fold t_max.
    rewrite !py_div_ok by lra. cbn [bind]. rewrite Hloop. reflexivity. }
  destruct normalized.
  - destruct (generateAllAF_normalized_total _ _ _ _ _ _ _ _ Hraw) as [pts E].
    exists pts, (snd r). exact E.
  - exists (fst (fst r)), (snd r). exact Hraw.
Qed.

Lemma generateAllAF_terminates_witness :
  exists (pts : list sample) (self' : BeamDefinition),
    generateAllAF 62 (init 0 0 (107 / 10000) None 1) 30 30 true true false
    = Ok (pts, self').
Proof.
  assert (Hfresh : fresh_valid (init 0 0 (107 / 10000) None 1) 1 4).
  { unfold fresh_valid. cbn [phaseSettings phaseSettingsRaw gainSettings antennaGrid
                               antennaInvert waveLength theta beamStrength phaseCal init].
    repeat match goal with |- _ /\ _ => split end.
    all: try reflexivity.
    all: try exact I.
    all: try lra.
    all: try (unfold radians; rewrite Rmult_0_l, cos_0; lra).
    all: try (cbn; tauto).
    all: repeat constructor. }
  exact (generateAllAF_terminates (init 0 0 (107 / 10000) None 1) 1 4 30 30
           true true false Hfresh ltac:(lia) ltac:(lia)).
Defined.

(** ** The quantizer on exact steps, and the codes it cannot return *)

(** X3 (a phase of an exact number of steps): for 0 <= n < 32 the phase
    n * (2*PI/32) is quantized to n, except that 11, 15, 22 and 30 steps are
    quantized to 10, 14, 21 and 29: there the binary64 quotient of the
    multiple by the step is just below n and the truncation drops to n - 1. *)
Theorem radiansToAwmf0108_of_steps (n : Z) (Hn : (0 <= n < 32)%Z) :
  _radiansToAwmf0108 (IZR n * (2 * PI / 32))
  = Ok (if existsb (Z.eqb n) [11; 15; 22; 30]%Z then (n - 1)%Z else n).
Proof. exact (radiansToAwmf0108_steps n Hn). Qed.

Lemma radiansToAwmf0108_of_steps_witness :
  _radiansToAwmf0108 (IZR 15 * (2 * PI / 32)) = Ok 14%Z /\
  _radiansToAwmf0108 (IZR 16 * (2 * PI / 32)) = Ok 16%Z.
Proof.
  split.
  - exact (radiansToAwmf0108_of_steps 15 ltac:(lia)).
  - exact (radiansToAwmf0108_of_steps 16 ltac:(lia)).
Defined.

Lemma awmf_code_never (r : R) : ~ In (awmf_code r) [11; 15; 22; 30]%Z.
Proof.
  unfold awmf_code.
  pose proof (steps_range r) as Hq. cbv zeta in Hq.
  set (q := py_round _) in *.
  destruct (truncated_steps_cases q) as [[Hin E] | [Hn E]]; rewrite E.
  - cbn [In] in Hin |- *.
    destruct (Z.eqb_spec (q - 1) 32); lia.
  - destruct (Z.eqb_spec q 32) as [E32 | N32]; [cbn [In]; lia | exact Hn].
Qed.

(** X27 (four codes are never returned): for every phase,
    [_radiansToAwmf0108] returns a code of [0, 31] that is none of 11, 15, 22
    and 30.  A phase whose nearest multiple is one of these numbers of steps
    gets the code below it, and no other number of steps gives them. *)
Theorem radiansToAwmf0108_never_returns (r : R) :
  exists c : Z,
    _radiansToAwmf0108 r = Ok c /\ (0 <= c <= 31)%Z /\ ~ In c [11; 15; 22; 30]%Z.
Proof.
  exists (awmf_code r). split; [apply radiansToAwmf0108_code |].
  split; [apply awmf_code_range | apply awmf_code_never].
Qed.

(** X28 (the settings without calibration): on a valid antenna and request,
    with no calibration map or an empty one, none of the four settings that
    getPhaseSettings returns is 11, 15, 22 or 30, whatever the direction. *)
Theorem getPhaseSettings_uncalibrated_never (self : BeamDefinition) (rows cols : nat) :
  phaseSettings self = [] ->
  waveLength self <> 0 ->
  cos (theta self) <> 0 ->
  rectangular (antennaGrid self) rows cols ->
  rectangular (antennaInvert self) rows cols ->
  phaseCal self = None \/ phaseCal self = Some [] ->
  (forall x, In x [NE; SE; SW; NW] -> In x (concat (antennaGrid self))) ->
  exists (settings : list Z) (self' : BeamDefinition),
    getPhaseSettings self = Ok (settings, self') /\
    length settings = 4%nat /\
    Forall (fun v => (0 <= v <= 31)%Z /\ ~ In v [11; 15; 22; 30]%Z) settings.
Proof.
  intros Hcache Hw Hcos Hgrid Hmask Hcal Hlabels.
  assert (Hcomplete : cal_complete (phaseCal self))
    by (destruct Hcal as [-> | ->]; exact I).
  destruct (phase_gradients_ok self Hw Hcos) as (ew & ns & Hg).
  destruct (labels_give_columns _ rows cols NE Hgrid) as [Hrows Hcols];
    [apply Hlabels; simpl; tauto |].
  destruct cols as [| c]; [lia |].
  destruct (getPhaseSettings_run self rows c ew ns Hcache Hg Hgrid Hmask Hcomplete
              Hlabels)
    as (ne & se & sw & nw & Hrun & Lne & Lse & Lsw & Lnw & Hall).
  cbv zeta in Hrun, Lne, Lse, Lsw, Lnw.
  exists [ne; se; sw; nw]. eexists. split; [exact Hrun |]. split; [reflexivity |].
  assert (Hnever : forall x v inv, label_setting self inv x v ->
                     ~ In v [11; 15; 22; 30]%Z).
  { intros x v inv (n & ph & _ & _ & Hv).
    assert (E : v = awmf_code ph).
    { destruct Hcal as [E | E]; rewrite E in Hv; cbn [_applyCalibration] in Hv;
        now inversion Hv. }
    rewrite E. apply awmf_code_never. }
  inversion Hall as [| ? ? Rne Hall1]; subst.
  inversion Hall1 as [| ? ? Rse Hall2]; subst.
  inversion Hall2 as [| ? ? Rsw Hall3]; subst.
  inversion Hall3 as [| ? ? Rnw _]; subst.
  repeat (apply Forall_cons; [split; [assumption | eapply Hnever; eassumption] |]).
  apply Forall_nil.
Qed.

Lemma getPhaseSettings_uncalibrated_never_witness :
  exists (settings : list Z) (self' : BeamDefinition),
    getPhaseSettings (init 0 0 (107 / 10000) None 1) = Ok (settings, self') /\
    length settings = 4%nat /\
    Forall (fun v => (0 <= v <= 31)%Z /\ ~ In v [11; 15; 22; 30]%Z) settings.
Proof.
  apply (getPhaseSettings_uncalibrated_never (init 0 0 (107 / 10000) None 1) 1 4).
  - reflexivity.
  - cbn [waveLength init]. lra.
  - cbn [theta init]. unfold radians. rewrite Rmult_0_l, cos_0. lra.
  - split; [reflexivity | repeat constructor].
  - split; [reflexivity | repeat constructor].
  - left. reflexivity.
  - cbn. tauto.
Defined.

(** ** Rounding to a multiple *)



(** ** Calibration tables *)

Lemma dict_get_Z_in {V : Type} (k : Z) (v : V) (d : list (Z * V)) :
  dict_get Z.eqb k d = Some v -> In (k, v) d.
Proof.
  induction d as [| [k' v'] d IH]; simpl; [discriminate |].
  destruct (Z.eqb_spec k k') as [-> | _].
  - intros H. inversion H; subst. now left.
  - intros H. right. now apply IH.
Qed.

Lemma calibration_unfold (quadrant : string) (s : Z) (m : calmap) (tbl : caltable) :
  m <> [] -> dict_get String.eqb quadrant m = Some tbl ->
  _applyCalibration quadrant s (Some m)
  = (closestSetting <- py_min (fun x => Z.abs (x - s)) (keys tbl) ;;
     off <- dict_index Z.eqb closestSetting tbl ;;
     Ok ((s - off) mod 32)%Z).
Proof.
  intros Hm Ht. destruct m as [| p m]; [congruence |].
  unfold _applyCalibration, dict_index at 1 2. rewrite Ht. reflexivity.
Qed.

(** X6 (an exact calibration entry is the one used): when the table of the
    element's quadrant has an entry for the setting itself, that entry's
    offset is subtracted, whatever other entries the table holds and in
    whatever order. *)
Theorem applyCalibration_exact_entry (quadrant : string) (s off : Z) (m : calmap)
    (tbl : caltable) :
  m <> [] ->
  dict_get String.eqb quadrant m = Some tbl ->
  dict_get Z.eqb s tbl = Some off ->
  _applyCalibration quadrant s (Some m) = Ok ((s - off) mod 32)%Z.
Proof.
  intros Hm Ht Hs. rewrite (calibration_unfold quadrant s m tbl Hm Ht).
  assert (Hin : In s (keys tbl)).
  { apply dict_get_Z_in in Hs. unfold keys. apply in_map_iff. now exists (s, off). }
  assert (Hk : keys tbl <> []) by (intros E; rewrite E in Hin; destruct Hin).
  destruct (py_min_spec (fun x => Z.abs (x - s)) (keys tbl) Hk)
    as (r & pre & post & Emin & Ekeys & Hpre & Hpost).
  assert (Er : r = s).
  { rewrite Ekeys in Hin. apply in_app_or in Hin. destruct Hin as [Hin | [E | Hin]].
    - specialize (Hpre s Hin). cbv beta in Hpre. lia.
    - exact E.
    - specialize (Hpost s Hin). cbv beta in Hpost. lia. }
  rewrite Emin. cbn [bind]. rewrite Er. unfold dict_index. rewrite Hs. reflexivity.
Qed.

Lemma applyCalibration_exact_entry_witness :
  _applyCalibration SW 3 (Some [(NE, [(0, 1)]); (SW, [(2, 5); (3, -4); (4, 7)])]%Z)
  = Ok 7%Z.
Proof.
  exact (applyCalibration_exact_entry SW 3 (-4)
           [(NE, [(0, 1)]); (SW, [(2, 5); (3, -4); (4, 7)])]%Z
           [(2, 5); (3, -4); (4, 7)]%Z
           ltac:(discriminate) eq_refl eq_refl).
Defined.

(** X7 (a table of zero offsets calibrates nothing): when every offset of the
    quadrant's table is 0, a setting of [0, 31] is returned unchanged,
    whichever key is nearest. *)
Theorem applyCalibration_zero_table (quadrant : string) (s : Z) (m : calmap)
    (tbl : caltable) :
  m <> [] ->
  dict_get String.eqb quadrant m = Some tbl ->
  tbl <> [] ->
  Forall (fun kv : Z * Z => snd kv = 0%Z) tbl ->
  (0 <= s <= 31)%Z ->
  _applyCalibration quadrant s (Some m) = Ok s.
Proof.
  intros Hm Ht Hne Hzero Hs. rewrite (calibration_unfold quadrant s m tbl Hm Ht).
  assert (Hk : keys tbl <> []) by (destruct tbl; simpl; congruence).
  destruct (py_min_spec (fun x => Z.abs (x - s)) (keys tbl) Hk)
    as (r & pre & post & Emin & Ekeys & _ & _).
  assert (Hin : In r (keys tbl)).
  { rewrite Ekeys. apply in_or_app. right. now left. }
  destruct (dict_get_in_keys r tbl Hin) as [off Eoff].
  assert (E0 : off = 0%Z).
  { apply dict_get_Z_in in Eoff. rewrite Forall_forall in Hzero.
    exact (Hzero (r, off) Eoff). }
  rewrite Emin. cbn [bind]. unfold dict_index. rewrite Eoff. cbn [bind].
  rewrite E0, Z.sub_0_r, Z.mod_small by lia. reflexivity.
Qed.

Lemma applyCalibration_zero_table_witness :
  _applyCalibration NW 21 (Some [(NW, [(0, 0); (16, 0)])]%Z) = Ok 21%Z.
Proof.
  apply (applyCalibration_zero_table NW 21 [(NW, [(0, 0); (16, 0)])]%Z
           [(0, 0); (16, 0)]%Z).
  - discriminate.
  - reflexivity.
  - discriminate.
  - repeat constructor.
  - lia.
Defined.

(** ** The gain field on every grid *)

Lemma mapM_const_range {B : Type} (f : nat -> result B) (y : B) (n : nat) :
  (forall i, f i = Ok y) -> mapM f (range 0 n) = Ok (repeat y n).
Proof.
  intros H. rewrite mapM_ok_map with (g := fun _ => y).
  - f_equal. unfold range. rewrite Nat.sub_0_r.
    generalize 0%nat. induction n as [| n IH]; intros a; simpl; [reflexivity |].
    now rewrite IH.
  - intros i _. apply H.
Qed.

(** The three outcomes of a computing call of getRelativeGain. *)
Lemma getRelativeGain_grid (self : BeamDefinition) (Hcache : gainSettings self = []) :
  match antennaGrid self with
  | [] => getRelativeGain self = Raise IndexError
  | row0 :: rest =>
      let gain := repeat (repeat 1 (length row0)) (S (length rest)) in
      (beamStrength self <> 0 \/ row0 = [] ->
       getRelativeGain self = Ok (gain, with_gain self gain) /\
       getRelativeGain (with_gain self gain) = Ok (gain, with_gain self gain)) /\
      (beamStrength self = 0 -> row0 <> [] ->
       getRelativeGain self = Raise ZeroDivisionError)
  end.
Proof.
  destruct (antennaGrid self) as [| row0 rest] eqn:Egrid.
  - unfold getRelativeGain. rewrite Hcache, Egrid. reflexivity.
  - intros gain. split.
    + intros Hok.
      assert (Hrun : getRelativeGain self = Ok (gain, with_gain self gain)).
      { unfold getRelativeGain. rewrite Hcache. cbn [length Nat.ltb Nat.leb].
        unfold list_index. rewrite Egrid. cbn [nth_error bind length].
        assert (Hrow : mapM (fun _ : nat => py_div (beamStrength self) (beamStrength self))
                         (range 0 (length row0)) = Ok (repeat 1 (length row0))).
        { destruct Hok as [Hb | ->]; [| reflexivity].
          apply mapM_const_range. intros _. rewrite py_div_ok by exact Hb.
          f_equal. now field. }
        rewrite (mapM_const_range _ (repeat 1 (length row0))) by (intros _; exact Hrow).
        reflexivity. }
      split; [exact Hrun |].
      unfold getRelativeGain. cbn [gainSettings with_gain]. reflexivity.
    + intros Hb Hrow. unfold getRelativeGain. rewrite Hcache.
      cbn [length Nat.ltb Nat.leb]. unfold list_index. rewrite Egrid.
      cbn [nth_error bind length]. destruct row0 as [| e row0]; [congruence |].
      unfold range. cbn [length Nat.sub seq].
      rewrite mapM_raise_head with (e := ZeroDivisionError); [reflexivity |].
      apply mapM_raise_head. rewrite Hb. apply py_div_zero.
Qed.

(** X8 (getRelativeGain on every grid): with an empty gain cache, an empty
    grid raises IndexError; otherwise the field has one row per grid row,
    each as long as the FIRST grid row, and holds 1 everywhere, provided the
    beam strength is non-zero or the first row is empty (then nothing is
    divided); the field is cached, so the next call returns it again without
    changing the state; a beam strength of 0 with a non-empty first row raises
    ZeroDivisionError. *)
Theorem getRelativeGain_field (self : BeamDefinition) (Hcache : gainSettings self = []) :
  match antennaGrid self with
  | [] => getRelativeGain self = Raise IndexError
  | row0 :: rest =>
      let gain := repeat (repeat 1 (length row0)) (S (length rest)) in
      (beamStrength self <> 0 \/ row0 = [] ->
       getRelativeGain self = Ok (gain, with_gain self gain) /\
       getRelativeGain (with_gain self gain) = Ok (gain, with_gain self gain)) /\
      (beamStrength self = 0 -> row0 <> [] ->
       getRelativeGain self = Raise ZeroDivisionError)
  end.
Proof. exact (getRelativeGain_grid self Hcache). Qed.

Lemma getRelativeGain_field_witness :
  getRelativeGain
    (setAntenna (init 10 90 (3 / 280) None 7) [[NW; NE]; [SW; SE]]
       [[true; false]; [true; false]] (54 / 10000))
  = Ok ([[1; 1]; [1; 1]],
        with_gain
          (setAntenna (init 10 90 (3 / 280) None 7) [[NW; NE]; [SW; SE]]
             [[true; false]; [true; false]] (54 / 10000))
          [[1; 1]; [1; 1]]).
Proof.
  pose proof (getRelativeGain_field
                (setAntenna (init 10 90 (3 / 280) None 7) [[NW; NE]; [SW; SE]]
                   [[true; false]; [true; false]] (54 / 10000)) eq_refl) as H.
  cbn [antennaGrid setAntenna] in H. cbv zeta in H.
  destruct H as [H _].
  apply H. left. cbn [beamStrength setAntenna init]. lra.
Defined.

(** ** Magnitudes of sums of phasors *)

Lemma py_abs_re_im (a : pynum) :
  py_abs a = sqrt (py_re a * py_re a + py_im a * py_im a).
Proof.
  destruct a as [r | re im]; cbn [py_abs py_re py_im]; [| reflexivity].
  replace (r * r + 0 * 0) with (Rsqr r) by (unfold Rsqr; ring).
  symmetry. apply sqrt_Rsqr_abs.
Qed.

Lemma py_add_re (a b : pynum) : py_re (py_add a b) = py_re a + py_re b.
Proof. destruct a, b; reflexivity. Qed.

Lemma py_add_im (a b : pynum) : py_im (py_add a b) = py_im a + py_im b.
Proof. destruct a, b; cbn [py_add py_im]; ring. Qed.

Lemma py_abs_nonneg (a : pynum) : 0 <= py_abs a.
Proof. rewrite py_abs_re_im. apply sqrt_pos. Qed.

Lemma py_abs_triangle (a b : pynum) : py_abs (py_add a b) <= py_abs a + py_abs b.
Proof.
  rewrite !py_abs_re_im, py_add_re, py_add_im.
  generalize (py_re a) (py_im a) (py_re b) (py_im b). intros x1 y1 x2 y2.
  assert (P1 : 0 <= x1 * x1 + y1 * y1)
    by (apply Rplus_le_le_0_compat; apply Rle_0_sqr).
  assert (P2 : 0 <= x2 * x2 + y2 * y2)
    by (apply Rplus_le_le_0_compat; apply Rle_0_sqr).
  assert (P3 : 0 <= (x1 + x2) * (x1 + x2) + (y1 + y2) * (y1 + y2))
    by (apply Rplus_le_le_0_compat; apply Rle_0_sqr).
  pose proof (sqrt_pos (x1 * x1 + y1 * y1)) as H1.
  pose proof (sqrt_pos (x2 * x2 + y2 * y2)) as H2.
  pose proof (sqrt_cauchy x1 y1 x2 y2) as Hc. unfold Rsqr in Hc.
  assert (S1 : sqrt (x1 * x1 + y1 * y1) * sqrt (x1 * x1 + y1 * y1) = x1 * x1 + y1 * y1)
    by (apply sqrt_sqrt; exact P1).
  assert (S2 : sqrt (x2 * x2 + y2 * y2) * sqrt (x2 * x2 + y2 * y2) = x2 * x2 + y2 * y2)
    by (apply sqrt_sqrt; exact P2).
  apply Rsqr_incr_0_var.
  - unfold Rsqr. rewrite sqrt_sqrt by exact P3.
    set (s1 := sqrt (x1 * x1 + y1 * y1)) in *.
    set (s2 := sqrt (x2 * x2 + y2 * y2)) in *.
    replace ((s1 + s2) * (s1 + s2)) with (s1 * s1 + s2 * s2 + 2 * (s1 * s2)) by ring.
    rewrite S1, S2. lra.
  - apply Rplus_le_le_0_compat; assumption.
Qed.

Lemma py_abs_phasor (x t : R) : py_abs (py_scale x (cexp_i t)) = Rabs x.
Proof.
  cbn [py_scale cexp_i py_abs].
  replace (x * cos t * (x * cos t) + x * sin t * (x * sin t))
    with (Rsqr x * (Rsqr (sin t) + Rsqr (cos t))) by (unfold Rsqr; ring).
  rewrite sin2_cos2, Rmult_1_r. apply sqrt_Rsqr_abs.
Qed.

(** A loop whose every step adds at most [c] to a measure adds at most
    [c] per step in total. *)
Lemma for_each_bound {St : Type} (f : St -> R) (c : R) (l : list nat)
    (body : St -> nat -> result St) :
  (forall s x s1, body s x = Ok s1 -> f s1 <= f s + c) ->
  forall s s', for_each l body s = Ok s' -> f s' <= f s + INR (length l) * c.
Proof.
  intros Hstep. induction l as [| x l IH]; intros s s' Hrun.
  - simpl in Hrun. inversion Hrun; subst. simpl. lra.
  - cbn [for_each] in Hrun.
    destruct (body s x) as [s1 |] eqn:E1; cbn [bind] in Hrun; [| discriminate].
    apply Hstep in E1. apply IH in Hrun.
    change (length (x :: l)) with (S (length l)). rewrite S_INR. lra.
Qed.

Lemma grid_index_Forall (I : list (list R)) (P : R -> Prop) (n m : nat) (v : R) :
  Forall (Forall P) I -> grid_index I n m = Ok v -> P v.
Proof.
  intros Hall. unfold grid_index, list_index.
  destruct (nth_error I n) as [row |] eqn:Erow; cbn [bind]; [| discriminate].
  destruct (nth_error row m) as [x |] eqn:Ex; [| discriminate].
  intros H. inversion H; subst.
  rewrite Forall_forall in Hall.
  pose proof (Hall row (nth_error_In _ _ Erow)) as Hrow.
  rewrite Forall_forall in Hrow. apply Hrow. eapply nth_error_In. exact Ex.
Qed.

(** One step of the inner loop of lines 247-251: the amplitude and the phase
    are read at [n], [m] and one phasor is added. *)
Lemma af_body_ok (k dist theta0 phi0 : R) (I d : list (list R)) (n m : nat)
    (acc s1 : pynum) :
  af_body k dist theta0 phi0 I d n acc m = Ok s1 ->
  exists Inm dnm ang : R,
    grid_index I n m = Ok Inm /\ grid_index d n m = Ok dnm /\
    ang = dnm + k * dist * INR n * sin theta0 * cos phi0
          + k * dist * INR m * sin theta0 * sin phi0 /\
    s1 = py_add acc (py_scale Inm (cexp_i ang)).
Proof.
  unfold af_body. intros Hb.
  destruct (grid_index I n m) as [Inm |]; cbn [bind] in Hb; [| discriminate].
  destruct (grid_index d n m) as [dnm |]; cbn [bind] in Hb; [| discriminate].
  exists Inm, dnm, (dnm + k * dist * INR n * sin theta0 * cos phi0
                    + k * dist * INR m * sin theta0 * sin phi0).
  inversion Hb. repeat split; reflexivity.
Qed.


Lemma array_factor_le_elements (self : BeamDefinition) (theta0 phi0 w : R)
    (I d : list (list R)) (a : pynum) :
  Forall (Forall (fun x => Rabs x <= 1)) I ->
  _calculateArrayFactor self theta0 phi0 I d w = Ok a ->
  py_abs a
  <= INR (length (antennaGrid self) * length (hd [] (antennaGrid self))).
Proof.
  intros HI Hrun. unfold _calculateArrayFactor in Hrun.
  destruct (py_div (2 * PI) w) as [k |]; cbn [bind] in Hrun; [| discriminate].
  set (cols := length (hd [] (antennaGrid self))) in *.
  set (rows := length (antennaGrid self)) in *.
  assert (Hinner : forall (n : nat) (s s1 : pynum),
             for_each (range 0 cols)
               (af_body k (antennaSpacing self) theta0 phi0 I d n) s = Ok s1 ->
             py_abs s1 <= py_abs s + INR cols).
  { intros n s s1 H.
    apply (for_each_bound py_abs 1) in H.
    - unfold range in H. rewrite length_seq, Nat.sub_0_r in H. lra.
    - intros s0 m s2 Hb.
      destruct (af_body_ok _ _ _ _ _ _ _ _ _ _ Hb) as (Inm & dnm & ang & EI & _ & _ & ->).
      eapply Rle_trans; [apply py_abs_triangle |].
      rewrite py_abs_phasor.
      pose proof (grid_index_Forall I _ n m Inm HI EI) as Hle. cbv beta in Hle. lra. }
  apply (for_each_bound py_abs (INR cols)) in Hrun.
  - unfold range in Hrun. rewrite length_seq, Nat.sub_0_r in Hrun.
    cbn [py_abs] in Hrun. rewrite Rabs_R0 in Hrun.
    rewrite mult_INR. fold rows. lra.
  - intros s n s1 H. exact (Hinner n s s1 H).
Qed.

(** X9 (the array factor never exceeds the number of elements): whatever the
    observation angles, the phases and the wavelength, when every amplitude
    has magnitude at most 1 the magnitude of the array factor is at most
    [len(antennaGrid) * len(antennaGrid[0])]. *)
Theorem calculateArrayFactor_bound (self : BeamDefinition) (theta0 phi0 w : R)
    (I d : list (list R)) (a : pynum) :
  Forall (Forall (fun x => Rabs x <= 1)) I ->
  _calculateArrayFactor self theta0 phi0 I d w = Ok a ->
  py_abs a
  <= INR (length (antennaGrid self) * length (hd [] (antennaGrid self))).
Proof. exact (array_factor_le_elements self theta0 phi0 w I d a). Qed.

Lemma calculateArrayFactor_bound_witness :
  py_abs (PComplex (0 + 1 * cos 0 + 1 * cos 1 + 1 * cos 2 + 1 * cos 3)
                   (1 * sin 0 + 1 * sin 1 + 1 * sin 2 + 1 * sin 3))
  <= INR (1 * 4).
Proof.
  apply (calculateArrayFactor_bound (init 10 90 (3 / 280) None 1) (radians 0)
           (radians 0) (3 / 280) [[1; 1; 1; 1]] [[0; 1; 2; 3]]).
  - repeat constructor; rewrite Rabs_R1; lra.
  - apply (calculateArrayFactor_broadside_1x4 _ [NE; NW; SE; SW]);
      [reflexivity | reflexivity | lra].
Defined.

(** ** The array factor in the steering direction *)

Lemma ramp_nth_error (e : R) :
  forall (n i : nat) (v : R),
    (i < n)%nat ->
    exists x, nth_error (ramp v e n) i = Some x /\ x = v + INR i * e.
Proof.
  induction n as [| n IH]; intros i v Hi; [lia |].
  destruct i as [| i].
  - exists v. split; [reflexivity |]. simpl. ring.
  - destruct (IH i (v + e)) as (x & Ex & Hx); [lia |].
    exists x. split; [exact Ex |]. rewrite Hx, S_INR. ring.
Qed.

Lemma phase_field_index (rows cols : nat) (ns ew : R) (n m : nat) :
  (n < rows)%nat -> (m < cols)%nat ->
  exists x, grid_index (phase_field rows cols ns ew) n m = Ok x /\
            x = INR n * ns + INR m * ew.
Proof.
  intros Hn Hm. unfold grid_index, list_index, phase_field.
  rewrite nth_error_map.
  destruct (ramp_nth_error ns rows n 0 Hn) as (c & Ec & Hc). rewrite Ec.
  cbn [option_map bind].
  destruct (ramp_nth_error ew cols m c Hm) as (x & Ex & Hx). rewrite Ex.
  exists x. split; [reflexivity |]. rewrite Hx, Hc. ring.
Qed.

Lemma ones_index (rows cols n m : nat) :
  (n < rows)%nat -> (m < cols)%nat ->
  grid_index (repeat (repeat 1 cols) rows) n m = Ok 1.
Proof.
  intros Hn Hm. unfold grid_index, list_index.
  rewrite nth_error_repeat by exact Hn. cbn [bind].
  rewrite nth_error_repeat by exact Hm. reflexivity.
Qed.

(** A loop whose every step succeeds, adds [c] to one measure and keeps
    another. *)
Lemma for_each_steps {St : Type} (f g : St -> R) (c : R) (l : list nat)
    (body : St -> nat -> result St) :
  (forall s x, In x l ->
     exists s1, body s x = Ok s1 /\ f s1 = f s + c /\ g s1 = g s) ->
  forall s, exists s',
    for_each l body s = Ok s' /\ f s' = f s + INR (length l) * c /\ g s' = g s.
Proof.
  induction l as [| x l IH]; intros Hstep s.
  - exists s. split; [reflexivity |]. simpl. split; [ring | reflexivity].
  - destruct (Hstep s x (or_introl eq_refl)) as (s1 & E1 & Hf1 & Hg1).
    destruct (IH (fun s0 y Hy => Hstep s0 y (or_intror Hy)) s1) as (s' & E' & Hf' & Hg').
    exists s'. cbn [for_each]. rewrite E1. cbn [bind].
    split; [exact E' |].
    change (length (x :: l)) with (S (length l)). rewrite S_INR.
    split; [rewrite Hf', Hf1; ring | rewrite Hg', Hg1; reflexivity].
Qed.

(** With uniform amplitudes 1 and the phase field built from gradients that
    cancel the path-length terms of the observation direction, every phasor
    is 1: the array factor is the number of elements. *)
Lemma calculateArrayFactor_steered (self : BeamDefinition) (rows cols : nat)
    (theta0 phi0 w ns ew : R) :
  rectangular (antennaGrid self) rows cols -> (0 < rows)%nat -> w <> 0 ->
  ns = - (2 * PI / w) * antennaSpacing self * sin theta0 * cos phi0 ->
  ew = - (2 * PI / w) * antennaSpacing self * sin theta0 * sin phi0 ->
  exists a,
    _calculateArrayFactor self theta0 phi0 (repeat (repeat 1 cols) rows)
      (phase_field rows cols ns ew) w = Ok a /\
    py_re a = INR (rows * cols) /\ py_im a = 0.
Proof.
  intros Hgrid Hrows Hw Hns Hew. unfold _calculateArrayFactor.
  rewrite py_div_ok by exact Hw. cbn [bind].
  assert (Hcols : length (hd [] (antennaGrid self)) = cols).
  { destruct Hgrid as [Hl Hall]. destruct (antennaGrid self) as [| r g];
      [simpl in Hl; lia |]. inversion Hall as [| ? ? Hr0 _]. exact Hr0. }
  destruct Hgrid as [Hl _]. rewrite Hl, Hcols.
  set (k := 2 * PI / w) in *.
  assert (Hinner : forall (n : nat), (n < rows)%nat ->
             forall s, exists s',
               for_each (range 0 cols)
                 (af_body k (antennaSpacing self) theta0 phi0
                    (repeat (repeat 1 cols) rows) (phase_field rows cols ns ew) n) s
               = Ok s' /\
               py_re s' = py_re s + INR cols /\ py_im s' = py_im s).
  { intros n Hn s.
    destruct (for_each_steps py_re py_im 1 (range 0 cols)
                (af_body k (antennaSpacing self) theta0 phi0
                   (repeat (repeat 1 cols) rows) (phase_field rows cols ns ew) n))
      with (s := s) as (s' & E & Hre & Him).
    - intros s0 m Hm. unfold range in Hm. apply in_seq in Hm.
      destruct (phase_field_index rows cols ns ew n m) as (x & Ex & Hx); [lia | lia |].
      unfold af_body. rewrite ones_index by lia. cbn [bind]. rewrite Ex. cbn [bind].
      eexists. split; [reflexivity |].
      assert (Hang : x + k * antennaSpacing self * INR n * sin theta0 * cos phi0
                     + k * antennaSpacing self * INR m * sin theta0 * sin phi0 = 0)
        by (rewrite Hx, Hns, Hew; ring).
      rewrite Hang, py_add_re, py_add_im.
      cbn [py_scale cexp_i py_re py_im]. rewrite cos_0, sin_0. split; ring.
    - exists s'. unfold range in Hre. rewrite length_seq, Nat.sub_0_r in Hre.
      split; [exact E |]. split; [lra | exact Him]. }
  destruct (for_each_steps py_re py_im (INR cols) (range 0 rows)
              (fun cumulativeAF n =>
                 for_each (range 0 cols)
                   (af_body k (antennaSpacing self) theta0 phi0
                      (repeat (repeat 1 cols) rows) (phase_field rows cols ns ew) n)
                   cumulativeAF))
    with (s := PFloat 0) as (a & E & Hre & Him).
  - intros s n Hn. unfold range in Hn. apply in_seq in Hn.
    apply Hinner. lia.
  - exists a. split; [exact E |].
    unfold range in Hre. rewrite length_seq, Nat.sub_0_r in Hre.
    cbn [py_re py_im] in Hre, Him. rewrite mult_INR. split; [lra | exact Him].
Qed.

(** The projection of lines 105-106 on an azimuth along a grid axis. *)
Lemma sin_atan_axis (s t : R) :
  s = 0 \/ s = 1 \/ s = -1 -> - (PI / 2) < t < PI / 2 ->
  sin (atan (s * sin t / cos t)) = s * sin t.
Proof.
  intros Hs Ht.
  assert (Hc : 0 < cos t) by (apply cos_gt_0; lra).
  destruct Hs as [-> | [-> | ->]].
  - replace (0 * sin t / cos t) with 0 by (field; lra).
    rewrite atan_0, sin_0. ring.
  - replace (1 * sin t / cos t) with (tan t) by (unfold tan; field; lra).
    rewrite atan_tan by lra. ring.
  - replace (-1 * sin t / cos t) with (tan (- t))
      by (rewrite tan_neg; unfold tan; field; lra).
    rewrite atan_tan by lra. rewrite sin_neg. ring.
Qed.

Lemma axis_values (p : R) :
  sin p * cos p = 0 ->
  (sin p = 0 \/ sin p = 1 \/ sin p = -1) /\ (cos p = 0 \/ cos p = 1 \/ cos p = -1).
Proof.
  intros H. pose proof (sin2_cos2 p) as H1. unfold Rsqr in H1.
  apply Rmult_integral in H. destruct H as [Hs | Hc].
  - rewrite Hs in *. split; [now left |]. right.
    assert (Hq : (cos p - 1) * (cos p + 1) = 0) by lra.
    apply Rmult_integral in Hq. destruct Hq; [left | right]; lra.
  - rewrite Hc in *. split; [| now left]. right.
    assert (Hq : (sin p - 1) * (sin p + 1) = 0) by lra.
    apply Rmult_integral in Hq. destruct Hq; [left | right]; lra.
Qed.

Lemma gradients_on_axis (self : BeamDefinition) :
  waveLength self <> 0 ->
  - (PI / 2) < theta self < PI / 2 ->
  sin (phi self) * cos (phi self) = 0 ->
  phase_gradients self
  = Ok (- (2 * PI / waveLength self) * antennaSpacing self
        * sin (atan (sin (phi self) * sin (theta self) / cos (theta self))),
        - (2 * PI / waveLength self) * antennaSpacing self
        * sin (atan (cos (phi self) * sin (theta self) / cos (theta self)))) /\
  sin (atan (sin (phi self) * sin (theta self) / cos (theta self)))
  = sin (theta self) * sin (phi self) /\
  sin (atan (cos (phi self) * sin (theta self) / cos (theta self)))
  = sin (theta self) * cos (phi self).
Proof.
  intros Hw Ht Hp.
  assert (Hc : 0 < cos (theta self)) by (apply cos_gt_0; lra).
  destruct (axis_values _ Hp) as [Hs Hco].
  split; [| split].
  - unfold phase_gradients. rewrite !py_div_ok by lra. reflexivity.
  - rewrite sin_atan_axis by assumption. ring.
  - rewrite sin_atan_axis by assumption. ring.
Qed.

(** The first sample on a fresh controller, with the fields it computes. *)
Lemma first_sample_fields (self : BeamDefinition) (rows cols : nat) (ew ns : R) :
  fresh_valid self rows cols ->
  phase_gradients self = Ok (ew, ns) ->
  exists self1 self2 : BeamDefinition,
    getRelativeGain self = Ok (repeat (repeat 1 cols) rows, self1) /\
    getRawPhaseSettings self1 = Ok (phase_field rows cols ns ew, self2) /\
    antennaGrid self2 = antennaGrid self /\
    antennaSpacing self2 = antennaSpacing self /\
    waveLength self2 = waveLength self.
Proof.
  intros (Hps & Hraw & Hgs & Hgrid & Hmask & Hw & Hcos & Hb & Hcal & Hlabels) Hgr.
  destruct (labels_give_columns _ rows cols NE Hgrid) as [Hrows Hcols];
    [apply Hlabels; simpl; tauto |].
  destruct cols as [| c]; [lia |].
  destruct (antennaGrid self) as [| row0 rest] eqn:Egrid.
  { destruct Hgrid as [Hl _]. simpl in Hl. lia. }
  pose proof (getRelativeGain_ones self row0 rest Hgs Egrid Hb) as Hgain.
  cbv zeta in Hgain.
  assert (Hrow0 : length row0 = S c).
  { destruct Hgrid as [_ Hall]. inversion Hall as [| ? ? Hr0 _]. exact Hr0. }
  assert (Hlen : length (antennaGrid self) = rows).
  { rewrite Egrid. destruct Hgrid as [Hl _]. exact Hl. }
  rewrite Hrow0, Hlen in Hgain.
  set (gain := repeat (repeat 1 (S c)) rows) in *.
  set (st1 := with_gain self gain) in *.
  assert (Hgr1 : phase_gradients st1 = Ok (ew, ns)) by exact Hgr.
  assert (Hgrid1 : rectangular (antennaGrid st1) rows (S c))
    by (cbn [antennaGrid st1 with_gain]; rewrite Egrid; exact Hgrid).
  assert (Hlabels1 : forall x, In x [NE; SE; SW; NW] -> In x (concat (antennaGrid st1)))
    by (cbn [antennaGrid st1 with_gain]; rewrite Egrid; exact Hlabels).
  destruct (getPhaseSettings_run st1 rows c ew ns Hps Hgr1 Hgrid1 Hmask Hcal Hlabels1)
    as (ne & se & sw & nw & Hrun & _).
  cbv zeta in Hrun.
  exists st1, (with_phase st1 [ne; se; sw; nw] (phase_field rows (S c) ns ew)).
  split; [exact Hgain |]. split.
  - unfold getRawPhaseSettings.
    replace (phaseSettingsRaw st1) with (@nil (list R)) by (symmetry; exact Hraw).
    cbn [length Nat.eqb]. rewrite Hrun. reflexivity.
  - cbn [antennaGrid antennaSpacing waveLength with_phase st1 with_gain].
    rewrite Egrid. repeat split; reflexivity.
Qed.

(** X10 (the pattern peaks where the beam is steered, on a grid axis): on a
    fresh valid controller steered to a polar angle strictly between -90 and
    90 degrees and an azimuth along a grid axis (a multiple of 90 degrees:
    sin(phi) * cos(phi) = 0), the array factor that generateAllAF computes
    from getRelativeGain and getRawPhaseSettings, evaluated in the steering
    direction itself, has magnitude rows * cols; and no direction gives a
    larger one. *)
Theorem array_factor_peak_on_axis (self : BeamDefinition) (rows cols : nat) :
  fresh_valid self rows cols ->
  - (PI / 2) < theta self < PI / 2 ->
  sin (phi self) * cos (phi self) = 0 ->
  exists (g r : list (list R) * BeamDefinition) (a : pynum),
    getRelativeGain self = Ok g /\
    getRawPhaseSettings (snd g) = Ok r /\
    _calculateArrayFactor (snd r) (theta self) (phi self) (fst g) (fst r)
      (waveLength (snd r)) = Ok a /\
    py_abs a = INR (rows * cols) /\
    forall (theta0 phi0 : R) (a0 : pynum),
      _calculateArrayFactor (snd r) theta0 phi0 (fst g) (fst r)
        (waveLength (snd r)) = Ok a0 ->
      py_abs a0 <= py_abs a.
Proof.
  intros Hfresh Ht Hp.
  pose proof Hfresh as (_ & _ & _ & Hgrid & _ & Hw & _ & _ & _ & Hlabels).
  destruct (labels_give_columns _ rows cols NE Hgrid) as [Hrows Hcols];
    [apply Hlabels; simpl; tauto |].
  destruct (gradients_on_axis self Hw Ht Hp) as (Hgr & Eew & Ens).
  set (ew := - (2 * PI / waveLength self) * antennaSpacing self
             * sin (atan (sin (phi self) * sin (theta self) / cos (theta self)))) in *.
  set (ns := - (2 * PI / waveLength self) * antennaSpacing self
             * sin (atan (cos (phi self) * sin (theta self) / cos (theta self)))) in *.
  destruct (first_sample_fields self rows cols ew ns Hfresh Hgr)
    as (self1 & self2 & Hgain & Hraw & Eg & Es & Ew).
  assert (Hgrid2 : rectangular (antennaGrid self2) rows cols) by (rewrite Eg; exact Hgrid).
  assert (Hw2 : waveLength self2 <> 0) by (rewrite Ew; exact Hw).
  assert (Hns : ns = - (2 * PI / waveLength self2) * antennaSpacing self2
                     * sin (theta self) * cos (phi self))
    by (unfold ns; rewrite Ens, Es, Ew; ring).
  assert (Hew : ew = - (2 * PI / waveLength self2) * antennaSpacing self2
                     * sin (theta self) * sin (phi self))
    by (unfold ew; rewrite Eew, Es, Ew; ring).
  destruct (calculateArrayFactor_steered self2 rows cols (theta self) (phi self)
              (waveLength self2) ns ew Hgrid2 Hrows Hw2 Hns Hew)
    as (a & Ha & Hre & Him).
  assert (Habs : py_abs a = INR (rows * cols)).
  { rewrite py_abs_re_im, Hre, Him.
    replace (INR (rows * cols) * INR (rows * cols) + 0 * 0)
      with (Rsqr (INR (rows * cols))) by (unfold Rsqr; ring).
    rewrite sqrt_Rsqr; [reflexivity | apply pos_INR]. }
  eexists (_, _), (_, _), a. cbn [fst snd].
  split; [exact Hgain |]. split; [exact Hraw |]. split; [exact Ha |].
  split; [exact Habs |].
  intros theta0 phi0 a0 Ha0. rewrite Habs.
  apply array_factor_le_elements in Ha0.
  - destruct Hgrid2 as [Hl Hall]. rewrite Hl in Ha0.
    destruct (antennaGrid self2) as [| r0 g0]; [simpl in Hl; lia |].
    inversion Hall as [| ? ? Hr0 _]. cbn [hd] in Ha0. rewrite Hr0 in Ha0. exact Ha0.
  - apply repeat_Forall. apply repeat_Forall. rewrite Rabs_R1. lra.
Qed.

Lemma array_factor_peak_on_axis_witness :
  exists (g r : list (list R) * BeamDefinition) (a : pynum),
    getRelativeGain (init (-30) 90 (3 / 280) None 1) = Ok g /\
    getRawPhaseSettings (snd g) = Ok r /\
    _calculateArrayFactor (snd r) (radians (-30)) (radians 90) (fst g) (fst r)
      (waveLength (snd r)) = Ok a /\
    py_abs a = INR (1 * 4).
Proof.
  assert (Hfresh : fresh_valid (init (-30) 90 (3 / 280) None 1) 1 4).
  { unfold fresh_valid. cbn [phaseSettings phaseSettingsRaw gainSettings antennaGrid
                               antennaInvert waveLength theta beamStrength phaseCal init].
    repeat match goal with |- _ /\ _ => split end.
    all: try reflexivity.
    all: try exact I.
    all: try lra.
    all: try (rewrite radians_m30, cos_neg, cos_PI6;
              pose proof (sqrt_lt_R0 3 ltac:(lra)); lra).
    all: try (cbn; tauto).
    all: repeat constructor. }
  assert (Ht : - (PI / 2) < theta (init (-30) 90 (3 / 280) None 1) < PI / 2).
  { cbn [theta init]. rewrite radians_m30. pose proof PI_RGT_0. lra. }
  assert (Hp : sin (phi (init (-30) 90 (3 / 280) None 1))
               * cos (phi (init (-30) 90 (3 / 280) None 1)) = 0).
  { cbn [phi init]. rewrite radians_90, cos_PI2. ring. }
  destruct (array_factor_peak_on_axis _ 1 4 Hfresh Ht Hp)
    as (g & r & a & Hg & Hr & Ha & Habs & _).
  exists g, r, a. repeat split; assumption.
Defined.

(** ** The sampling grid of generateAllAF *)

Lemma INR_mult_lt (j n : nat) (d : R) :
  0 < d -> INR j * d < INR n * d -> (j < n)%nat.
Proof.
  intros Hd H. apply INR_lt. apply Rmult_lt_reg_r with (r := d); assumption.
Qed.

Lemma INR_mult_ge (j n : nat) (d : R) :
  0 < d -> (j <= n)%nat -> ~ INR j * d < INR n * d -> j = n.
Proof.
  intros Hd Hle Hn. destruct (Nat.eq_dec j n) as [E | N]; [exact E |].
  exfalso. apply Hn. apply Rmult_lt_compat_r; [exact Hd |]. apply lt_INR. lia.
Qed.

Lemma phi_loop_angles (absAf : bool) (p_max p_d t : R) (n : nat) :
  0 < p_d -> p_max = INR n * p_d ->
  forall (fuel : nat) (self : BeamDefinition) (j : nat) (p : R) (points : list sample)
         (af_max : pynum) (r : list sample * pynum * BeamDefinition),
    (j <= n)%nat -> p = INR j * p_d ->
    phi_loop fuel self absAf p_max p_d t p points af_max = Ok r ->
    map fst (fst (fst r))
    = map fst points ++ map (fun i => (t, INR i * p_d)) (seq j (n - j)).
Proof.
  intros Hpd Hmax.
  induction fuel as [| fuel IH]; intros self j p points af_max r Hj Hp Hrun;
    [discriminate |].
  cbn [phi_loop] in Hrun.
  destruct (Rlt_dec p p_max) as [Hlt | Hge].
  - assert (Hjn : (j < n)%nat) by (apply (INR_mult_lt j n p_d Hpd); lra).
    destruct (getRelativeGain self) as [g |]; cbn [bind] in Hrun; [| discriminate].
    destruct (getRawPhaseSettings (snd g)) as [rw |]; cbn [bind] in Hrun;
      [| discriminate].
    destruct (_calculateArrayFactor _ _ _ _ _ _) as [a0 |]; cbn [bind] in Hrun;
      [| discriminate].
    apply (IH _ (S j)) in Hrun; [| lia | rewrite S_INR, Hp; ring].
    rewrite Hrun, map_app. cbn [map fst].
    replace (n - j)%nat with (S (n - S j)) by lia.
    cbn [seq map]. rewrite <- app_assoc. cbn [app]. rewrite Hp. reflexivity.
  - inversion Hrun; subst r. cbn [fst].
    assert (E : j = n) by (apply (INR_mult_ge j n p_d Hpd Hj); lra).
    rewrite E, Nat.sub_diag. cbn [seq map]. now rewrite app_nil_r.
Qed.

Lemma theta_loop_angles (absAf : bool) (t_max t_d p_max p_d : R) (nt np : nat) :
  0 < t_d -> 0 < p_d -> t_max = INR nt * t_d -> p_max = INR np * p_d ->
  forall (fuel : nat) (self : BeamDefinition) (i : nat) (t : R) (points : list sample)
         (af_max : pynum) (r : list sample * pynum * BeamDefinition),
    (i <= nt)%nat -> t = INR i * t_d ->
    theta_loop fuel self absAf t_max t_d p_max p_d t points af_max = Ok r ->
    map fst (fst (fst r))
    = map fst points
      ++ flat_map (fun i => map (fun j => (INR i * t_d, INR j * p_d)) (seq 0 np))
                  (seq i (nt - i)).
Proof.
  intros Htd Hpd Htmax Hpmax.
  induction fuel as [| fuel IH]; intros self i t points af_max r Hi Ht Hrun;
    [discriminate |].
  cbn [theta_loop] in Hrun.
  destruct (Rlt_dec t t_max) as [Hlt | Hge].
  - assert (Hin : (i < nt)%nat) by (apply (INR_mult_lt i nt t_d Htd); lra).
    destruct (phi_loop fuel self absAf p_max p_d t 0 points af_max) as [r1 |] eqn:E1;
      cbn [bind] in Hrun; [| discriminate].
    apply (phi_loop_angles absAf p_max p_d t np Hpd Hpmax fuel self 0%nat 0) in E1;
      [| lia | simpl; ring].
    apply (IH _ (S i)) in Hrun; [| lia | rewrite S_INR, Ht; ring].
    rewrite Hrun, E1, Nat.sub_0_r.
    replace (nt - i)%nat with (S (nt - S i)) by lia.
    cbn [seq flat_map]. rewrite <- !app_assoc, Ht. reflexivity.
  - inversion Hrun; subst r. cbn [fst].
    assert (E : i = nt) by (apply (INR_mult_ge i nt t_d Htd Hi); lra).
    rewrite E, Nat.sub_diag. cbn [seq flat_map]. now rewrite app_nil_r.
Qed.

Lemma mapM_keeps_fst {A B C : Type} (f : A * B -> result C) (l : list (A * B))
    (l' : list (A * C)) :
  mapM (fun s => a <- f s ;; Ok (fst s, a)) l = Ok l' -> map fst l' = map fst l.
Proof.
  revert l'. induction l as [| s l IH]; intros l' H; cbn [mapM] in H.
  - inversion H. reflexivity.
  - destruct (f s) as [a |]; cbn [bind] in H; [| discriminate].
    destruct (mapM _ l) as [ys |] eqn:E; cbn [bind] in H; [| discriminate].
    inversion H; subst. cbn [map fst]. f_equal. apply IH. reflexivity.
Qed.

Lemma sample_angles_length (nt np : nat) (t_d p_d : R) :
  length (sample_angles nt np t_d p_d) = (nt * np)%nat.
Proof.
  unfold sample_angles. generalize 0%nat at 2.
  induction nt as [| nt IH]; intros a; [reflexivity |].
  cbn [seq flat_map]. rewrite length_app, length_map, length_seq, IH. reflexivity.
Qed.

(** The angles of the samples of a call that returns. *)
Lemma generateAllAF_grid (fuel : nat) (self : BeamDefinition) (n_theta n_phi : Z)
    (normalized absAf backLobes : bool) (pts : list sample) (self' : BeamDefinition) :
  (0 < n_theta)%Z -> (0 < n_phi)%Z ->
  generateAllAF fuel self n_theta n_phi normalized absAf backLobes = Ok (pts, self') ->
  map fst pts
  = sample_angles (Z.to_nat n_theta) (Z.to_nat n_phi)
      ((if backLobes then 180 else 90) / IZR n_theta) (360 / IZR n_phi) /\
  length pts = (Z.to_nat n_theta * Z.to_nat n_phi)%nat.
Proof.
  intros Hth Hph Hrun.
  assert (Hnth : 0 < IZR n_theta) by (apply IZR_lt; exact Hth).
  assert (Hnph : 0 < IZR n_phi) by (apply IZR_lt; exact Hph).
  set (t_max := if backLobes then 180 else 90) in *.
  assert (Htmax : 0 < t_max) by (unfold t_max; destruct backLobes; lra).
  assert (Hpd : 0 < 360 / IZR n_phi) by (apply Rdiv_lt_0_compat; lra).
  assert (Htd : 0 < t_max / IZR n_theta) by (apply Rdiv_lt_0_compat; lra).
  assert (Ep : 360 = INR (Z.to_nat n_phi) * (360 / IZR n_phi))
    by (rewrite INR_to_nat by lia; field; lra).
  assert (Et : t_max = INR (Z.to_nat n_theta) * (t_max / IZR n_theta))
    by (rewrite INR_to_nat by lia; field; lra).
  assert (Hfst : map fst pts
                 = sample_angles (Z.to_nat n_theta) (Z.to_nat n_phi)
                     (t_max / IZR n_theta) (360 / IZR n_phi)).
  { unfold generateAllAF in Hrun. fold t_max in Hrun.
    rewrite !py_div_ok in Hrun by lra. cbn [bind] in Hrun.
    destruct (theta_loop _ _ _ _ _ _ _ _ _ _) as [r |] eqn:E; cbn [bind] in Hrun;
      [| discriminate].
    apply (theta_loop_angles absAf t_max _ 360 _ (Z.to_nat n_theta) (Z.to_nat n_phi)
             Htd Hpd Et Ep fuel self 0%nat 0) in E; [| lia | simpl; ring].
    cbn [map app] in E. rewrite Nat.sub_0_r in E.
    destruct normalized.
    - destruct (mapM _ (fst (fst r))) as [ps |] eqn:Em; cbn [bind] in Hrun;
        [| discriminate].
      inversion Hrun; subst.
      rewrite (mapM_keeps_fst _ _ _ Em). exact E.
    - inversion Hrun; subst. exact E. }
  split; [exact Hfst |].
  replace (length pts) with (length (map fst pts)) by apply length_map.
  rewrite Hfst. apply sample_angles_length.
Qed.

(** ** The maximum that generateAllAF tracks *)

Lemma Rabs_m1 : Rabs (-1) = 1.
Proof. unfold Rabs. destruct (Rcase_abs (-1)); lra. Qed.

(** The sampling loops keep [af_max] an upper bound of the magnitudes seen,
    reached by one of them unless it still is the initial -1. *)
Lemma phi_loop_peak (absAf : bool) (p_max p_d t : R) :
  forall (fuel : nat) (self : BeamDefinition) (p : R) (points : list sample)
         (af_max : pynum) (r : list sample * pynum * BeamDefinition),
    phi_loop fuel self absAf p_max p_d t p points af_max = Ok r ->
    Forall (fun s : sample => py_abs (snd s) <= py_abs af_max) points ->
    af_max = PFloat (-1)
    \/ Exists (fun s : sample => py_abs (snd s) = py_abs af_max) points ->
    Forall (fun s : sample => py_abs (snd s) <= py_abs (snd (fst r))) (fst (fst r)) /\
    (snd (fst r) = PFloat (-1)
     \/ Exists (fun s : sample => py_abs (snd s) = py_abs (snd (fst r))) (fst (fst r))).
Proof.
  induction fuel as [| fuel IH]; intros self p points af_max r Hrun Hall Hex;
    [discriminate |].
  cbn [phi_loop] in Hrun.
  destruct (Rlt_dec p p_max) as [Hlt | Hge].
  - destruct (getRelativeGain self) as [g |]; cbn [bind] in Hrun; [| discriminate].
    destruct (getRawPhaseSettings (snd g)) as [rw |]; cbn [bind] in Hrun;
      [| discriminate].
    destruct (_calculateArrayFactor _ _ _ _ _ _) as [a0 |]; cbn [bind] in Hrun;
      [| discriminate].
    set (a := if absAf then PFloat (py_abs a0) else a0) in *.
    apply IH in Hrun; [exact Hrun | |].
    + apply Forall_app. split.
      * eapply Forall_impl; [| exact Hall]. cbv beta. intros s Hs.
        destruct (Rlt_dec (py_abs af_max) (py_abs a)); lra.
      * constructor; [| constructor]. cbn [snd].
        destruct (Rlt_dec (py_abs af_max) (py_abs a)); lra.
    + destruct (Rlt_dec (py_abs af_max) (py_abs a)) as [Hnew | Hold].
      * right. apply Exists_app. right. constructor. reflexivity.
      * destruct Hex as [E | Hex]; [now left |].
        right. apply Exists_app. now left.
  - inversion Hrun; subst. cbn [fst snd]. split; assumption.
Qed.

Lemma theta_loop_peak (absAf : bool) (t_max t_d p_max p_d : R) :
  forall (fuel : nat) (self : BeamDefinition) (t : R) (points : list sample)
         (af_max : pynum) (r : list sample * pynum * BeamDefinition),
    theta_loop fuel self absAf t_max t_d p_max p_d t points af_max = Ok r ->
    Forall (fun s : sample => py_abs (snd s) <= py_abs af_max) points ->
    af_max = PFloat (-1)
    \/ Exists (fun s : sample => py_abs (snd s) = py_abs af_max) points ->
    Forall (fun s : sample => py_abs (snd s) <= py_abs (snd (fst r))) (fst (fst r)) /\
    (snd (fst r) = PFloat (-1)
     \/ Exists (fun s : sample => py_abs (snd s) = py_abs (snd (fst r))) (fst (fst r))).
Proof.
  induction fuel as [| fuel IH]; intros self t points af_max r Hrun Hall Hex;
    [discriminate |].
  cbn [theta_loop] in Hrun.
  destruct (Rlt_dec t t_max) as [Hlt | Hge].
  - destruct (phi_loop fuel self absAf p_max p_d t 0 points af_max) as [r1 |] eqn:E1;
      cbn [bind] in Hrun; [| discriminate].
    destruct (phi_loop_peak _ _ _ _ _ _ _ _ _ _ E1 Hall Hex) as [Hall1 Hex1].
    exact (IH _ _ _ _ _ Hrun Hall1 Hex1).
  - inversion Hrun; subst. cbn [fst snd]. split; assumption.
Qed.

Lemma py_abs_scaled (a : pynum) (y : R) :
  0 < y ->
  py_abs (match a with
          | PFloat x => PFloat (x / y)
          | PComplex re im => PComplex (re / y) (im / y)
          end) = py_abs a / y.
Proof.
  intros Hy. destruct a as [x | re im]; cbn [py_abs].
  - unfold Rdiv. rewrite Rabs_mult, Rabs_inv, (Rabs_pos_eq y) by lra. reflexivity.
  - assert (P : 0 <= re * re + im * im)
      by (apply Rplus_le_le_0_compat; apply Rle_0_sqr).
    apply sqrt_lem_1.
    + apply Rplus_le_le_0_compat; apply Rle_0_sqr.
    + apply Rle_mult_inv_pos; [apply sqrt_pos | exact Hy].
    + replace (sqrt (re * re + im * im) / y * (sqrt (re * re + im * im) / y))
        with (sqrt (re * re + im * im) * sqrt (re * re + im * im) / (y * y))
        by (field; lra).
      rewrite sqrt_sqrt by exact P. field. lra.
Qed.

(** X12 (what normalization guarantees): after a normalized call of
    generateAllAF no returned magnitude exceeds 1; and when some sample of
    the same pass has a magnitude of at least 1 before the division, some
    returned magnitude is exactly 1. *)
Theorem generateAllAF_normalized_at_most_one (fuel : nat) (self : BeamDefinition)
    (n_theta n_phi : Z) (absAf backLobes : bool) (pts : list sample)
    (self' : BeamDefinition) :
  generateAllAF fuel self n_theta n_phi true absAf backLobes = Ok (pts, self') ->
  Forall (fun s : sample => py_abs (snd s) <= 1) pts /\
  exists points : list sample,
    generateAllAF fuel self n_theta n_phi false absAf backLobes = Ok (points, self') /\
    (Exists (fun s : sample => 1 <= py_abs (snd s)) points ->
     Exists (fun s : sample => py_abs (snd s) = 1) pts).
Proof.
  intros Hrun. unfold generateAllAF in *.
  destruct (py_div 360 (IZR n_phi)) as [p_d |]; cbn [bind] in *; [| discriminate].
  destruct (py_div _ (IZR n_theta)) as [t_d |]; cbn [bind] in *; [| discriminate].
  destruct (theta_loop _ _ _ _ _ _ _ _ _ _) as [r |] eqn:E; cbn [bind] in *;
    [| discriminate].
  pose proof (theta_loop_af_max _ _ _ _ _ _ _ _ _ _ _ E) as (_ & _ & Hge & _).
  cbn [py_abs] in Hge. rewrite Rabs_m1 in Hge.
  destruct (theta_loop_peak _ _ _ _ _ _ _ _ _ _ _ E (Forall_nil _) (or_introl eq_refl))
    as [Hall Hex].
  set (points := fst (fst r)) in *. set (af_max := snd (fst r)) in *.
  set (scaled := fun s : sample =>
                   (fst s,
                    match snd s with
                    | PFloat x => PFloat (x / py_abs af_max)
                    | PComplex re im =>
                        PComplex (re / py_abs af_max) (im / py_abs af_max)
                    end)).
  assert (Hmap : mapM (fun s : sample =>
                         a <- py_num_div (snd s) (py_abs af_max) ;; Ok (fst s, a))
                      points = Ok (map scaled points)).
  { apply mapM_ok_map. intros s _. rewrite py_num_div_ok by lra. reflexivity. }
  rewrite Hmap in Hrun. cbn [bind] in Hrun. inversion Hrun; subst pts self'.
  assert (Habs : forall s, py_abs (snd (scaled s)) = py_abs (snd s) / py_abs af_max).
  { intros s. unfold scaled. cbn [snd]. apply py_abs_scaled. lra. }
  split; [| exists points; split; [reflexivity |]].
  - apply Forall_forall. intros s' Hin. apply in_map_iff in Hin.
    destruct Hin as (s & <- & Hs). rewrite Habs.
    rewrite Forall_forall in Hall. pose proof (Hall s Hs) as Hle.
    apply Rmult_le_reg_r with (r := py_abs af_max); [lra |].
    replace (py_abs (snd s) / py_abs af_max * py_abs af_max) with (py_abs (snd s))
      by (field; lra).
    lra.
  - intros Hbig. apply Exists_exists.
    assert (Hpeak : exists s, In s points /\ py_abs (snd s) = py_abs af_max).
    { destruct Hex as [E1 | Hex].
      - apply Exists_exists in Hbig. destruct Hbig as (s & Hs & H1).
        exists s. split; [exact Hs |].
        rewrite Forall_forall in Hall. pose proof (Hall s Hs) as Hle.
        rewrite E1 in *. cbn [py_abs] in *. rewrite Rabs_m1 in *. lra.
      - apply Exists_exists in Hex. exact Hex. }
    destruct Hpeak as (s & Hs & Hpk).
    exists (scaled s). split; [apply in_map; exact Hs |].
    rewrite Habs, Hpk. field. lra.
Qed.

Lemma generateAllAF_normalized_at_most_one_witness :
  exists (pts : list sample) (self' : BeamDefinition),
    generateAllAF 3 (init (-30) 90 (3 / 280) None 1) 1 1 true true false
    = Ok (pts, self') /\
    Forall (fun s : sample => py_abs (snd s) <= 1) pts.
Proof.
  destruct (generateAllAF_single_m30_90 (3 / 280) ltac:(lra)) as [self' Hraw].
  cbv zeta in Hraw.
  destruct (generateAllAF_normalized_total _ _ _ _ _ _ _ _ Hraw) as [pts Hrun].
  exists pts, self'. split; [exact Hrun |].
  exact (proj1 (generateAllAF_normalized_at_most_one 3 _ 1 1 true false pts self' Hrun)).
Defined.

(** ** Resolutions that are not positive *)

Lemma phi_loop_never (rows cols : nat) (absAf : bool) (p_max p_d t : R) :
  p_d < 0 ->
  forall (fuel : nat) (self : BeamDefinition) (p : R) (points : list sample)
         (af_max : pynum),
    fresh_valid self rows cols \/ warm self rows cols ->
    p < p_max ->
    phi_loop fuel self absAf p_max p_d t p points af_max = Raise OutOfFuel.
Proof.
  intros Hpd. induction fuel as [| fuel IH]; intros self p points af_max Hst Hp;
    [reflexivity |].
  cbn [phi_loop].
  destruct (Rlt_dec p p_max) as [_ | N]; [| contradiction].
  destruct (sample_total self rows cols (radians t) (radians p) Hst)
    as (g & r & a & Hg & Hr & Ha & Hw).
  rewrite Hg. cbn [bind]. rewrite Hr. cbn [bind]. rewrite Ha. cbn [bind].
  apply IH; [now right | lra].
Qed.

Lemma phi_loop_valid (rows cols : nat) (absAf : bool) (p_max p_d t : R) :
  forall (fuel : nat) (self : BeamDefinition) (p : R) (points : list sample)
         (af_max : pynum),
    fresh_valid self rows cols \/ warm self rows cols ->
    (exists r, phi_loop fuel self absAf p_max p_d t p points af_max = Ok r /\
               (fresh_valid (snd r) rows cols \/ warm (snd r) rows cols))
    \/ phi_loop fuel self absAf p_max p_d t p points af_max = Raise OutOfFuel.
Proof.
  induction fuel as [| fuel IH]; intros self p points af_max Hst; [now right |].
  cbn [phi_loop].
  destruct (Rlt_dec p p_max) as [Hlt | Hge].
  - destruct (sample_total self rows cols (radians t) (radians p) Hst)
      as (g & r & a & Hg & Hr & Ha & Hw).
    rewrite Hg. cbn [bind]. rewrite Hr. cbn [bind]. rewrite Ha. cbn [bind].
    apply IH. now right.
  - left. eexists. split; [reflexivity | exact Hst].
Qed.

Lemma theta_loop_never (rows cols : nat) (absAf : bool) (t_max t_d p_max p_d : R) :
  t_d < 0 ->
  forall (fuel : nat) (self : BeamDefinition) (t : R) (points : list sample)
         (af_max : pynum),
    fresh_valid self rows cols \/ warm self rows cols ->
    t < t_max ->
    theta_loop fuel self absAf t_max t_d p_max p_d t points af_max = Raise OutOfFuel.
Proof.
  intros Htd. induction fuel as [| fuel IH]; intros self t points af_max Hst Ht;
    [reflexivity |].
  cbn [theta_loop].
  destruct (Rlt_dec t t_max) as [_ | N]; [| contradiction].
  destruct (phi_loop_valid rows cols absAf p_max p_d t fuel self 0 points af_max Hst)
    as [(r1 & E1 & Hst1) | E1]; rewrite E1; cbn [bind]; [| reflexivity].
  apply IH; [exact Hst1 | lra].
Qed.

Lemma theta_loop_phi_never (rows cols : nat) (absAf : bool)
    (t_max t_d p_max p_d : R) :
  p_d < 0 -> 0 < p_max ->
  forall (fuel : nat) (self : BeamDefinition) (t : R) (points : list sample)
         (af_max : pynum),
    fresh_valid self rows cols \/ warm self rows cols ->
    t < t_max ->
    theta_loop fuel self absAf t_max t_d p_max p_d t points af_max = Raise OutOfFuel.
Proof.
  intros Hpd Hpmax fuel self t points af_max Hst Ht.
  destruct fuel as [| fuel]; [reflexivity |].
  cbn [theta_loop].
  destruct (Rlt_dec t t_max) as [_ | N]; [| contradiction].
  rewrite (phi_loop_never rows cols absAf p_max p_d t Hpd fuel self 0 points af_max
             Hst Hpmax).
  reflexivity.
Qed.

Lemma Rdiv_pos_neg (x y : R) : 0 < x -> y < 0 -> x / y < 0.
Proof.
  intros Hx Hy. unfold Rdiv.
  pose proof (Rinv_lt_0_compat y Hy) as Hi. nra.
Qed.

(** X13 (resolutions that are not positive): on a fresh valid controller, a
    zero n_phi, or a zero n_theta, raises ZeroDivisionError before anything is
    sampled; and with a negative n_theta or n_phi (both non-zero) the call
    never returns: the loop variable moves away from its bound, so every
    budget of loop steps runs out. *)
Theorem generateAllAF_bad_resolution (self : BeamDefinition) (rows cols : nat)
    (normalized absAf backLobes : bool) (fuel : nat)
    (Hfresh : fresh_valid self rows cols) :
  (forall n_theta : Z,
      generateAllAF fuel self n_theta 0 normalized absAf backLobes
      = Raise ZeroDivisionError) /\
  (forall n_phi : Z,
      generateAllAF fuel self 0 n_phi normalized absAf backLobes
      = Raise ZeroDivisionError) /\
  (forall n_theta n_phi : Z,
      n_theta <> 0%Z -> n_phi <> 0%Z -> (n_theta < 0)%Z \/ (n_phi < 0)%Z ->
      generateAllAF fuel self n_theta n_phi normalized absAf backLobes
      = Raise OutOfFuel).
Proof.
  split; [| split].
  - intros n_theta. unfold generateAllAF. rewrite py_div_zero. reflexivity.
  - intros n_phi. unfold generateAllAF.
    destruct (Req_dec_T (IZR n_phi) 0) as [E | N].
    + rewrite E, py_div_zero. reflexivity.
    + rewrite py_div_ok by exact N. cbn [bind]. rewrite py_div_zero. reflexivity.
  - intros n_theta n_phi Hth Hph Hneg.
    assert (Hnth : IZR n_theta <> 0) by (intros E; apply eq_IZR in E; contradiction).
    assert (Hnph : IZR n_phi <> 0) by (intros E; apply eq_IZR in E; contradiction).
    set (t_max := if backLobes then 180 else 90).
    assert (Htmax : 0 < t_max) by (unfold t_max; destruct backLobes; lra).
    unfold generateAllAF. fold t_max.
    rewrite !py_div_ok by assumption. cbn [bind].
    assert (Hloop : theta_loop fuel self absAf t_max (t_max / IZR n_theta) 360
                      (360 / IZR n_phi) 0 [] (PFloat (-1)) = Raise OutOfFuel).
    { destruct (Z_lt_dec n_phi 0) as [Hp | Hp].
      - apply (theta_loop_phi_never rows cols); try lra; [| now left].
        apply Rdiv_pos_neg; [lra | apply IZR_lt; exact Hp].
      - assert (Ht : (n_theta < 0)%Z) by lia.
        apply (theta_loop_never rows cols); try lra; [| now left].
        apply Rdiv_pos_neg; [lra | apply IZR_lt; exact Ht]. }
    rewrite Hloop. reflexivity.
Qed.

Lemma generateAllAF_bad_resolution_witness :
  generateAllAF 1000 (init 0 0 (107 / 10000) None 1) (-30) 30 true true false
  = Raise OutOfFuel /\
  generateAllAF 1000 (init 0 0 (107 / 10000) None 1) 30 0 true true false
  = Raise ZeroDivisionError.
Proof.
  assert (Hfresh : fresh_valid (init 0 0 (107 / 10000) None 1) 1 4).
  { unfold fresh_valid. cbn [phaseSettings phaseSettingsRaw gainSettings antennaGrid
                               antennaInvert waveLength theta beamStrength phaseCal init].
    repeat match goal with |- _ /\ _ => split end.
    all: try reflexivity.
    all: try exact I.
    all: try lra.
    all: try (unfold radians; rewrite Rmult_0_l, cos_0; lra).
    all: try (cbn; tauto).
    all: repeat constructor. }
  destruct (generateAllAF_bad_resolution (init 0 0 (107 / 10000) None 1) 1 4
              true true false 1000 Hfresh) as (Hzero & _ & Hneg).
  split.
  - apply Hneg; lia.
  - apply Hzero.
Defined.

(** ** What the caches hold *)

Lemma applyCalibration_range (x : string) (s v : Z) (cal : option calmap) :
  (0 <= s <= 31)%Z -> _applyCalibration x s cal = Ok v -> (0 <= v <= 31)%Z.
Proof.
  intros Hs. unfold _applyCalibration.
  destruct cal as [[| p m] |]; try (intros H; inversion H; subst; exact Hs).
  destruct (dict_index String.eqb x (p :: m)) as [tbl |]; cbn [bind]; [| discriminate].
  destruct (py_min _ _) as [c |]; cbn [bind]; [| discriminate].
  destruct (dict_index Z.eqb c tbl) as [off |]; cbn [bind]; [| discriminate].
  intros H. inversion H; subst.
  pose proof (Z.mod_pos_bound (s - off) 32 ltac:(lia)). lia.
Qed.

Lemma label_code_range (x : string) (l : list (string * R)) (cal : option calmap)
    (v : Z) :
  (s <- dict_index String.eqb x
          (map (fun kv => (fst kv, awmf_code (snd kv))) (dict_of String.eqb l)) ;;
   _applyCalibration x s cal) = Ok v ->
  (0 <= v <= 31)%Z.
Proof.
  unfold dict_index. rewrite dict_get_map_values.
  destruct (dict_get String.eqb x (dict_of String.eqb l)) as [ph |];
    cbn [option_map bind]; [| discriminate].
  apply applyCalibration_range. apply awmf_code_range.
Qed.

(** A computing call of getPhaseSettings that returns. *)
Lemma getPhaseSettings_computed (self self' : BeamDefinition) (l : list Z) :
  phaseSettings self = [] ->
  getPhaseSettings self = Ok (l, self') ->
  length l = 4%nat /\ Forall (fun v => (0 <= v <= 31)%Z) l /\
  exists f, phase_fields self = Ok f /\ self' = with_phase self l (fst f).
Proof.
  intros Hcache Hrun. unfold getPhaseSettings in Hrun. rewrite Hcache in Hrun.
  cbn [length Nat.ltb Nat.leb] in Hrun.
  destruct (phase_fields self) as [f |]; cbn [bind] in Hrun; [| discriminate].
  rewrite quantize_items_run in Hrun. cbn [bind mapM] in Hrun.
  repeat match type of Hrun with
         | context [bind (bind (dict_index String.eqb ?x ?d) ?k) _] =>
             let E := fresh "E" in
             destruct (bind (dict_index String.eqb x d) k) eqn:E;
             cbn [bind] in Hrun; [apply label_code_range in E | discriminate]
         end.
  inversion Hrun; subst.
  split; [reflexivity |].
  split; [repeat (apply Forall_cons; [assumption |]); apply Forall_nil |].
  exists f. split; reflexivity.
Qed.

(** A computing call of getRelativeGain that returns. *)
Lemma getRelativeGain_computed (self self' : BeamDefinition) (g : list (list R)) :
  gainSettings self = [] ->
  getRelativeGain self = Ok (g, self') ->
  g = repeat (repeat 1 (length (hd [] (antennaGrid self)))) (length (antennaGrid self))
  /\ self' = with_gain self g.
Proof.
  intros Hcache Hrun. pose proof (getRelativeGain_grid self Hcache) as H.
  destruct (antennaGrid self) as [| row0 rest]; [congruence |].
  cbv zeta in H. destruct H as [Hok Hzero]. cbn [hd length].
  destruct (Req_dec_T (beamStrength self) 0) as [Hb | Hb].
  - destruct row0 as [| e row0].
    + destruct (Hok (or_intror eq_refl)) as [E _]. rewrite E in Hrun.
      inversion Hrun; subst. split; reflexivity.
    + rewrite (Hzero Hb) in Hrun by discriminate. discriminate.
  - destruct (Hok (or_introl Hb)) as [E _]. rewrite E in Hrun.
    inversion Hrun; subst. split; reflexivity.
Qed.

Lemma getPhaseSettings_consistent (self self' : BeamDefinition) (l : list Z) :
  caches_consistent self -> getPhaseSettings self = Ok (l, self') ->
  caches_consistent self' /\ length l = 4%nat /\ Forall (fun v => (0 <= v <= 31)%Z) l.
Proof.
  intros [Hp Hg] Hrun. destruct (phaseSettings self) as [| c cs] eqn:Ecache.
  - destruct (getPhaseSettings_computed self self' l Ecache Hrun)
      as (Hlen & Hall & f & Ef & ->).
    split; [| split; assumption].
    split; [| exact Hg].
    right. cbn [phaseSettings phaseSettingsRaw with_phase].
    split; [exact Hlen |]. split; [exact Hall |]. exists f. split; [exact Ef | reflexivity].
  - unfold getPhaseSettings in Hrun. rewrite Ecache in Hrun.
    cbn [length Nat.ltb Nat.leb] in Hrun. inversion Hrun; subst.
    destruct Hp as [E | (Hlen & Hall & Hf)]; [discriminate |].
    split; [| split; assumption].
    split; [| exact Hg]. right. rewrite Ecache. auto.
Qed.

Lemma getRawPhaseSettings_consistent (self self' : BeamDefinition)
    (raw : list (list R)) :
  caches_consistent self -> getRawPhaseSettings self = Ok (raw, self') ->
  caches_consistent self'.
Proof.
  intros Hc Hrun. unfold getRawPhaseSettings in Hrun.
  destruct (length (phaseSettingsRaw self) =? 0)%nat.
  - destruct (getPhaseSettings self) as [[l s1] |] eqn:E; cbn [bind] in Hrun;
      [| discriminate].
    inversion Hrun; subst. exact (proj1 (getPhaseSettings_consistent _ _ _ Hc E)).
  - inversion Hrun; subst. exact Hc.
Qed.

Lemma getRelativeGain_consistent (self self' : BeamDefinition) (g : list (list R)) :
  caches_consistent self -> getRelativeGain self = Ok (g, self') ->
  caches_consistent self' /\
  g = repeat (repeat 1 (length (hd [] (antennaGrid self)))) (length (antennaGrid self)).
Proof.
  intros [Hp Hg] Hrun. destruct (gainSettings self) as [| r rs] eqn:Ecache.
  - destruct (getRelativeGain_computed self self' g Ecache Hrun) as [Eg ->].
    split; [| exact Eg]. split; [exact Hp |].
    right. cbn [gainSettings antennaGrid with_gain]. exact Eg.
  - unfold getRelativeGain in Hrun. rewrite Ecache in Hrun.
    cbn [length Nat.ltb Nat.leb] in Hrun. inversion Hrun; subst.
    destruct Hg as [E | E]; [discriminate |].
    split; [| exact E]. split; [exact Hp |]. right. rewrite Ecache. exact E.
Qed.

(** The sampling loops only change the controller through getRelativeGain
    and getRawPhaseSettings. *)
Lemma phi_loop_consistent (absAf : bool) (p_max p_d t : R) :
  forall (fuel : nat) (self : BeamDefinition) (p : R) (points : list sample)
         (af_max : pynum) (r : list sample * pynum * BeamDefinition),
    caches_consistent self ->
    phi_loop fuel self absAf p_max p_d t p points af_max = Ok r ->
    caches_consistent (snd r).
Proof.
  induction fuel as [| fuel IH]; intros self p points af_max r Hc Hrun;
    [discriminate |].
  cbn [phi_loop] in Hrun.
  destruct (Rlt_dec p p_max) as [Hlt | Hge].
  - destruct (getRelativeGain self) as [[g s1] |] eqn:Eg; cbn [bind] in Hrun;
      [| discriminate].
    apply getRelativeGain_consistent in Eg; [| exact Hc]. destruct Eg as [Hc1 _].
    cbn [snd] in Hrun.
    destruct (getRawPhaseSettings s1) as [[rw s2] |] eqn:Er; cbn [bind] in Hrun;
      [| discriminate].
    apply getRawPhaseSettings_consistent in Er; [| exact Hc1].
    destruct (_calculateArrayFactor _ _ _ _ _ _) as [a0 |]; cbn [bind] in Hrun;
      [| discriminate].
    exact (IH _ _ _ _ _ Er Hrun).
  - inversion Hrun; subst. exact Hc.
Qed.

Lemma theta_loop_consistent (absAf : bool) (t_max t_d p_max p_d : R) :
  forall (fuel : nat) (self : BeamDefinition) (t : R) (points : list sample)
         (af_max : pynum) (r : list sample * pynum * BeamDefinition),
    caches_consistent self ->
    theta_loop fuel self absAf t_max t_d p_max p_d t points af_max = Ok r ->
    caches_consistent (snd r).
Proof.
  induction fuel as [| fuel IH]; intros self t points af_max r Hc Hrun;
    [discriminate |].
  cbn [theta_loop] in Hrun.
  destruct (Rlt_dec t t_max) as [Hlt | Hge].
  - destruct (phi_loop fuel self absAf p_max p_d t 0 points af_max) as [r1 |] eqn:E1;
      cbn [bind] in Hrun; [| discriminate].
    apply phi_loop_consistent in E1; [| exact Hc].
    exact (IH _ _ _ _ _ E1 Hrun).
  - inversion Hrun; subst. exact Hc.
Qed.

Lemma generateAllAF_consistent (fuel : nat) (self self' : BeamDefinition)
    (n_theta n_phi : Z) (normalized absAf backLobes : bool) (pts : list sample) :
  caches_consistent self ->
  generateAllAF fuel self n_theta n_phi normalized absAf backLobes = Ok (pts, self') ->
  caches_consistent self'.
Proof.
  intros Hc Hrun. unfold generateAllAF in Hrun.
  destruct (py_div 360 (IZR n_phi)) as [p_d |]; cbn [bind] in Hrun; [| discriminate].
  destruct (py_div _ (IZR n_theta)) as [t_d |]; cbn [bind] in Hrun; [| discriminate].
  destruct (theta_loop _ _ _ _ _ _ _ _ _ _) as [r |] eqn:E; cbn [bind] in Hrun;
    [| discriminate].
  apply theta_loop_consistent in E; [| exact Hc].
  destruct normalized.
  - destruct (mapM _ _) as [ps |]; cbn [bind] in Hrun; [| discriminate].
    inversion Hrun; subst. exact E.
  - inversion Hrun; subst. exact E.
Qed.

Lemma reachable_consistent (self : BeamDefinition) :
  reachable self -> caches_consistent self.
Proof.
  induction 1 as [theta0 phi0 w cal b
                 | self grid invertPattern spacing _ IH
                 | self self' l _ IH Hrun
                 | self self' raw _ IH Hrun
                 | self self' g _ IH Hrun
                 | self self' fuel n_theta n_phi normalized absAf backLobes pts _ IH Hrun].
  - split; left; reflexivity.
  - split; left; reflexivity.
  - exact (proj1 (getPhaseSettings_consistent _ _ _ IH Hrun)).
  - exact (getRawPhaseSettings_consistent _ _ _ IH Hrun).
  - exact (proj1 (getRelativeGain_consistent _ _ _ IH Hrun)).
  - exact (generateAllAF_consistent _ _ _ _ _ _ _ _ _ IH Hrun).
Qed.

(** X14 (what the caches hold, on every reachable controller): whatever
    sequence of returning calls of setAntenna, getPhaseSettings,
    getRawPhaseSettings, getRelativeGain and generateAllAF a controller has
    been through since its construction, its phase-settings cache is empty or
    holds exactly four codes of [0, 31], and then the raw-phase cache is the
    raw field of the current request and antenna; its gain cache is empty or
    the field of ones of the current grid's dimensions.  Hence every list
    that getPhaseSettings returns has four entries of [0, 31], and every
    field that getRelativeGain returns is the field of ones of the current
    grid. *)
Theorem reachable_caches (self : BeamDefinition) (Hreach : reachable self) :
  caches_consistent self /\
  (forall (l : list Z) (self' : BeamDefinition),
      getPhaseSettings self = Ok (l, self') ->
      length l = 4%nat /\ Forall (fun v => (0 <= v <= 31)%Z) l) /\
  (forall (g : list (list R)) (self' : BeamDefinition),
      getRelativeGain self = Ok (g, self') ->
      g = repeat (repeat 1 (length (hd [] (antennaGrid self))))
                 (length (antennaGrid self))).
Proof.
  pose proof (reachable_consistent self Hreach) as Hc.
  split; [exact Hc |]. split.
  - intros l self' Hrun. exact (proj2 (getPhaseSettings_consistent _ _ _ Hc Hrun)).
  - intros g self' Hrun. exact (proj2 (getRelativeGain_consistent _ _ _ Hc Hrun)).
Qed.

Lemma reachable_caches_witness :
  exists (l : list Z) (self' : BeamDefinition),
    getPhaseSettings
      (setAntenna (init 10 90 (3 / 280) None 1) [[NW; NE]; [SW; SE]]
         [[true; false]; [true; false]] (54 / 10000)) = Ok (l, self') /\
    caches_consistent self' /\
    phaseSettings self' = l /\
    length l = 4%nat /\ Forall (fun v => (0 <= v <= 31)%Z) l.
Proof.
  set (st := setAntenna (init 10 90 (3 / 280) None 1) [[NW; NE]; [SW; SE]]
               [[true; false]; [true; false]] (54 / 10000)).
  assert (Hreach : reachable st) by (apply reach_setAntenna, reach_init).
  assert (Hcos : cos (theta st) <> 0).
  { cbn [theta st setAntenna init]. unfold radians.
    assert (H : 0 < cos (10 * (PI / 180)))
      by (apply cos_gt_0; pose proof PI_RGT_0; lra).
    lra. }
  assert (Hw : waveLength st <> 0) by (cbn [waveLength st setAntenna init]; lra).
  destruct (phase_gradients_ok st Hw Hcos) as (ew & ns & Hg).
  assert (Hgrid : rectangular (antennaGrid st) 2 2)
    by (split; [reflexivity | repeat constructor]).
  assert (Hmask : rectangular (antennaInvert st) 2 2)
    by (split; [reflexivity | repeat constructor]).
  assert (Hlabels : forall x, In x [NE; SE; SW; NW] -> In x (concat (antennaGrid st)))
    by (cbn; tauto).
  destruct (getPhaseSettings_run st 2 1 ew ns eq_refl Hg Hgrid Hmask I Hlabels)
    as (ne & se & sw & nw & Hrun & _).
  cbv zeta in Hrun.
  exists [ne; se; sw; nw], (with_phase st [ne; se; sw; nw] (phase_field 2 2 ns ew)).
  split; [exact Hrun |].
  destruct (reachable_caches st Hreach) as (_ & Hcodes & _).
  destruct (reachable_caches _ (reach_getPhaseSettings _ _ _ Hreach Hrun)) as (Hc & _).
  split; [exact Hc |]. split; [reflexivity |].
  exact (Hcodes _ _ Hrun).
Defined.

(** ** getPhaseSettings after setAntenna *)

Lemma phase_fields_request (self other : BeamDefinition) :
  theta self = theta other -> phi self = phi other ->
  waveLength self = waveLength other ->
  antennaGrid self = antennaGrid other ->
  antennaInvert self = antennaInvert other ->
  antennaSpacing self = antennaSpacing other ->
  phase_fields self = phase_fields other.
Proof.
  intros Ht Hp Hw Hg Hi Hs. unfold phase_fields, phase_gradients.
  rewrite Ht, Hp, Hw, Hg, Hi, Hs. reflexivity.
Qed.

Lemma getPhaseSettings_fresh_request (self other : BeamDefinition) :
  phaseSettings self = [] -> phaseSettings other = [] ->
  theta self = theta other -> phi self = phi other ->
  waveLength self = waveLength other ->
  antennaGrid self = antennaGrid other ->
  antennaInvert self = antennaInvert other ->
  antennaSpacing self = antennaSpacing other ->
  phaseCal self = phaseCal other ->
  fst_ok (getPhaseSettings self) = fst_ok (getPhaseSettings other).
Proof.
  intros Hc1 Hc2 Ht Hp Hw Hg Hi Hs Hcal. unfold getPhaseSettings.
  rewrite Hc1, Hc2. cbn [length Nat.ltb Nat.leb].
  rewrite (phase_fields_request self other Ht Hp Hw Hg Hi Hs), Hg, Hcal.
  destruct (phase_fields other) as [f |]; cbn [bind]; [| reflexivity].
  destruct (quantize_items _) as [s_offsets |]; cbn [bind]; [| reflexivity].
  destruct (mapM _ _) as [n_offsets |]; reflexivity.
Qed.

(** X15 (setAntenna makes getPhaseSettings forget the past): right after
    setAntenna, what getPhaseSettings returns or raises depends only on the
    request (theta, phi, wavelength), the calibration and the antenna just
    set; nothing computed or cached before, and neither the old antenna nor
    the beam strength, has any influence. *)
Theorem getPhaseSettings_after_setAntenna (self other : BeamDefinition)
    (grid : list (list string)) (invertPattern : list (list bool)) (spacing : R) :
  theta self = theta other -> phi self = phi other ->
  waveLength self = waveLength other -> phaseCal self = phaseCal other ->
  fst_ok (getPhaseSettings (setAntenna self grid invertPattern spacing))
  = fst_ok (getPhaseSettings (setAntenna other grid invertPattern spacing)).
Proof.
  intros Ht Hp Hw Hcal.
  apply getPhaseSettings_fresh_request; try reflexivity; assumption.
Qed.

Lemma getPhaseSettings_after_setAntenna_witness :
  fst_ok (getPhaseSettings
            (setAntenna
               (with_phase (init 20 90 (3 / 280) None 1) [1; 2; 3; 4]%Z [[0; 0; 0; 0]])
               [[NW; NE]; [SW; SE]] [[true; false]; [true; false]] (54 / 10000)))
  = fst_ok (getPhaseSettings
              (setAntenna (init 20 90 (3 / 280) None 5)
                 [[NW; NE]; [SW; SE]] [[true; false]; [true; false]] (54 / 10000))).
Proof.
  exact (getPhaseSettings_after_setAntenna
           (with_phase (init 20 90 (3 / 280) None 1) [1; 2; 3; 4]%Z [[0; 0; 0; 0]])
           (init 20 90 (3 / 280) None 5)
           [[NW; NE]; [SW; SE]] [[true; false]; [true; false]] (54 / 10000)
           eq_refl eq_refl eq_refl eq_refl).
Defined.

Lemma getPhaseSettings_keeps_request (self self' : BeamDefinition) (l : list Z) :
  getPhaseSettings self = Ok (l, self') ->
  theta self' = theta self /\ phi self' = phi self /\
  waveLength self' = waveLength self /\ phaseCal self' = phaseCal self.
Proof.
  unfold getPhaseSettings.
  destruct (0 <? length (phaseSettings self))%nat.
  - intros H. inversion H; subst. repeat split.
  - destruct (phase_fields self) as [f |]; cbn [bind]; [| discriminate].
    destruct (quantize_items _) as [s_offsets |]; cbn [bind]; [| discriminate].
    destruct (mapM _ _) as [n_offsets |]; cbn [bind]; [| discriminate].
    intros H. inversion H; subst. repeat split.
Qed.

(** X16 (the test case prints one result twice): unCheckedTestCase computes
    its first line, which it labels 2x2, on the default 1x4 antenna, and its
    second line after setting that same antenna again; setAntenna makes the
    second call recompute, and it recomputes the same list.  The test case
    raises exactly when the first call does. *)
Theorem unCheckedTestCase_same_twice (t p w : R) (cal : option calmap) :
  unCheckedTestCase t p w cal
  = (r <- getPhaseSettings (init t p w cal 1) ;; Ok (fst r, fst r)).
Proof.
  unfold unCheckedTestCase.
  destruct (getPhaseSettings (init t p w cal 1)) as [[l self'] |] eqn:E;
    cbn [bind fst snd]; [| reflexivity].
  destruct (getPhaseSettings_keeps_request _ _ _ E) as (Ht & Hp & Hw & Hcal).
  pose proof (getPhaseSettings_fresh_request
                (setAntenna self' [[NE; NW; SE; SW]] [[true; false; true; false]]
                   (5.4 * / 10 ^ 3))
                (init t p w cal 1) eq_refl eq_refl Ht Hp Hw eq_refl eq_refl eq_refl Hcal)
    as Hsame.
  rewrite E in Hsame. cbn [fst_ok fst] in Hsame.
  destruct (getPhaseSettings (setAntenna self' _ _ _)) as [[l2 s2] |];
    cbn [fst_ok fst] in Hsame; [| discriminate].
  inversion Hsame; subst. reflexivity.
Qed.

(** ** Broadside *)

Lemma ramp_const (v : R) (n : nat) : ramp v 0 n = repeat v n.
Proof.
  induction n as [| n IH]; [reflexivity |].
  cbn [ramp repeat]. rewrite Rplus_0_r, IH. reflexivity.
Qed.

Lemma phase_field_flat (rows cols : nat) :
  phase_field rows cols 0 0 = repeat (repeat 0 cols) rows.
Proof.
  unfold phase_field. rewrite ramp_const.
  induction rows as [| rows IH]; [reflexivity |].
  cbn [repeat map]. rewrite ramp_const, IH. reflexivity.
Qed.

Lemma flip_row_const (x : R) (mr : list bool) :
  flip_row mr (repeat x (length mr)) = map (fun b => flip b x) mr.
Proof.
  unfold flip_row. induction mr as [| b mr IH]; [reflexivity |].
  cbn [length repeat combine map fst snd]. now rewrite IH.
Qed.

Lemma flip_field_flat (mask : list (list bool)) (cols : nat) (x : R) :
  Forall (fun r => length r = cols) mask ->
  concat (flip_field mask (repeat (repeat x cols) (length mask)))
  = map (fun b => flip b x) (concat mask).
Proof.
  intros Hall. unfold flip_field.
  induction Hall as [| mr mask Hmr _ IH]; [reflexivity |].
  cbn [length repeat combine map fst snd concat].
  rewrite IH, map_app. f_equal. rewrite <- Hmr. apply flip_row_const.
Qed.

Lemma awmf_code_0 : awmf_code 0 = 0%Z.
Proof. apply (awmf_code_multiple _ 0); [lia | simpl; ring | reflexivity]. Qed.

Lemma awmf_code_PI : awmf_code (0 + PI) = 16%Z.
Proof. apply (awmf_code_multiple _ 16); [lia | field | reflexivity]. Qed.

(** X17 (broadside): with theta = 0 the phase gradients vanish for every
    azimuth, wavelength and spacing; the raw field is all zeros, and the
    setting of each quadrant is the calibrated code of 16 if the element that
    carries its label is inverted and of 0 if it is not, so without
    calibration every setting is 0 or 16. *)
Theorem getPhaseSettings_broadside (self : BeamDefinition) (rows cols : nat) :
  phaseSettings self = [] ->
  theta self = 0 ->
  waveLength self <> 0 ->
  rectangular (antennaGrid self) rows cols ->
  rectangular (antennaInvert self) rows cols ->
  cal_complete (phaseCal self) ->
  (forall x, In x [NE; SE; SW; NW] -> In x (concat (antennaGrid self))) ->
  exists (ne se sw nw : Z) (self' : BeamDefinition),
    getPhaseSettings self = Ok ([ne; se; sw; nw], self') /\
    phaseSettingsRaw self' = repeat (repeat 0 cols) rows /\
    broadside_code self NE ne /\ broadside_code self SE se /\
    broadside_code self SW sw /\ broadside_code self NW nw /\
    (phaseCal self = None ->
     Forall (fun v => v = 0%Z \/ v = 16%Z) [ne; se; sw; nw]).
Proof.
  intros Hcache Ht Hw Hgrid Hmask Hcal Hlabels.
  destruct (labels_give_columns _ rows cols NE Hgrid) as [Hrows Hcols];
    [apply Hlabels; simpl; tauto |].
  destruct cols as [| c]; [lia |].
  assert (Hg : phase_gradients self = Ok (0, 0))
    by (apply gradients_broadside; [rewrite radians_0; exact Ht | exact Hw]).
  destruct (getPhaseSettings_run self rows c 0 0 Hcache Hg Hgrid Hmask Hcal Hlabels)
    as (ne & se & sw & nw & Hrun & Lne & Lse & Lsw & Lnw & _).
  rewrite phase_field_flat in Hrun, Lne, Lse, Lsw, Lnw.
  assert (Hflat : concat (flip_field (antennaInvert self)
                            (repeat (repeat 0 (S c)) rows))
                  = map (fun b => flip b 0) (concat (antennaInvert self))).
  { destruct Hmask as [Hl Hall]. rewrite <- Hl. apply flip_field_flat. exact Hall. }
  assert (Hcode : forall x v,
             label_setting self
               (flip_field (antennaInvert self) (repeat (repeat 0 (S c)) rows)) x v ->
             broadside_code self x v).
  { intros x v (n & ph & Hn & Hph & Hv).
    rewrite Hflat, nth_error_map in Hph.
    destruct (nth_error (concat (antennaInvert self)) n) as [b |] eqn:Eb;
      [| discriminate].
    cbn [option_map] in Hph. inversion Hph; subst ph.
    exists n, b. split; [exact Hn |]. split; [exact Eb |].
    destruct b; cbn [flip] in Hv.
    - rewrite awmf_code_PI in Hv. exact Hv.
    - rewrite awmf_code_0 in Hv. exact Hv. }
  exists ne, se, sw, nw, (with_phase self [ne; se; sw; nw] (repeat (repeat 0 (S c)) rows)).
  split; [exact Hrun |]. split; [reflexivity |].
  pose proof (Hcode _ _ Lne) as Bne. pose proof (Hcode _ _ Lse) as Bse.
  pose proof (Hcode _ _ Lsw) as Bsw. pose proof (Hcode _ _ Lnw) as Bnw.
  repeat match goal with |- _ /\ _ => split end; try assumption.
  intros Enone.
  assert (Hval : forall x v, broadside_code self x v -> v = 0%Z \/ v = 16%Z).
  { intros x v (n & b & _ & _ & Hv). rewrite Enone in Hv. cbn [_applyCalibration] in Hv.
    inversion Hv. destruct b; [now right | now left]. }
  repeat (apply Forall_cons; [eapply Hval; eassumption |]). apply Forall_nil.
Qed.

Lemma getPhaseSettings_broadside_witness :
  exists (ne se sw nw : Z) (self' : BeamDefinition),
    getPhaseSettings
      (setAntenna (init 0 137 (3 / 280) None 1) [[NW; NE]; [SW; SE]]
         [[true; false]; [true; false]] (54 / 10000))
    = Ok ([ne; se; sw; nw], self') /\
    phaseSettingsRaw self' = [[0; 0]; [0; 0]] /\
    Forall (fun v => v = 0%Z \/ v = 16%Z) [ne; se; sw; nw].
Proof.
  set (st := setAntenna (init 0 137 (3 / 280) None 1) [[NW; NE]; [SW; SE]]
               [[true; false]; [true; false]] (54 / 10000)).
  assert (Ht : theta st = 0) by (cbn [theta st setAntenna init]; apply radians_0).
  assert (Hw : waveLength st <> 0) by (cbn [waveLength st setAntenna init]; lra).
  assert (Hgrid : rectangular (antennaGrid st) 2 2)
    by (split; [reflexivity | repeat constructor]).
  assert (Hmask : rectangular (antennaInvert st) 2 2)
    by (split; [reflexivity | repeat constructor]).
  assert (Hlabels : forall x, In x [NE; SE; SW; NW] -> In x (concat (antennaGrid st)))
    by (cbn; tauto).
  destruct (getPhaseSettings_broadside st 2 2 eq_refl Ht Hw Hgrid Hmask I Hlabels)
    as (ne & se & sw & nw & self' & Hrun & Hraw & _ & _ & _ & _ & Hval).
  exists ne, se, sw, nw, self'.
  split; [exact Hrun |]. split; [exact Hraw |]. exact (Hval eq_refl).
Defined.

(** ** The antennas of the GUI *)

Lemma gui_antenna_cases (clicks : list (bool * bool)) :
  gui_antenna clicks = ([[NE; NW; SE; SW]], [[true; false; true; false]]) \/
  gui_antenna clicks = ([[NW; NE]; [SW; SE]], [[true; false]; [true; false]]).
Proof.
  unfold gui_antenna.
  assert (H : forall a : antenna,
             a = ([[NE; NW; SE; SW]], [[true; false; true; false]]) \/
             a = ([[NW; NE]; [SW; SE]], [[true; false]; [true; false]]) ->
             fold_left (fun a c => setAntennaType (fst c) (snd c) a) clicks a
             = ([[NE; NW; SE; SW]], [[true; false; true; false]]) \/
             fold_left (fun a c => setAntennaType (fst c) (snd c) a) clicks a
             = ([[NW; NE]; [SW; SE]], [[true; false]; [true; false]])).
  { induction clicks as [| [r2 r4] clicks IH]; intros a Ha; [exact Ha |].
    cbn [fold_left fst snd]. apply IH. unfold setAntennaType.
    destruct r2; [now right |]. destruct r4; [now left | exact Ha]. }
  apply H. now left.
Qed.

(** Every antenna of the GUI is rectangular, has a mask of its own
    dimensions and carries the four labels. *)
Lemma gui_antenna_valid (clicks : list (bool * bool)) :
  exists rows c : nat,
    rectangular (fst (gui_antenna clicks)) rows (S c) /\
    rectangular (snd (gui_antenna clicks)) rows (S c) /\
    (forall x, In x [NE; SE; SW; NW] -> In x (concat (fst (gui_antenna clicks)))).
Proof.
  destruct (gui_antenna_cases clicks) as [-> | ->].
  - exists 1%nat, 3%nat. cbn [fst snd].
    split; [split; [reflexivity | repeat constructor] |].
    split; [split; [reflexivity | repeat constructor] |].
    cbn. tauto.
  - exists 2%nat, 1%nat. cbn [fst snd].
    split; [split; [reflexivity | repeat constructor] |].
    split; [split; [reflexivity | repeat constructor] |].
    cbn. tauto.
Qed.

Lemma calculateWavelength_ok (box : R) :
  box <> 0 ->
  exists w, calculateWavelength box = Ok w /\ w <> 0 /\ w * box = 3 / 10.
Proof.
  intros Hb. unfold calculateWavelength.
  assert (Hf : box * 10 ^ 9 <> 0) by (apply Rmult_integral_contrapositive; split; lra).
  rewrite py_div_ok by exact Hf.
  eexists. split; [reflexivity |]. split.
  - unfold Rdiv. apply Rmult_integral_contrapositive. split; [lra |].
    apply Rinv_neq_0_compat. exact Hf.
  - field. exact Hb.
Qed.

Lemma calculateWavelength_zero : calculateWavelength 0 = Raise ZeroDivisionError.
Proof.
  unfold calculateWavelength. replace (0 * 10 ^ 9) with 0 by ring. apply py_div_zero.
Qed.

Lemma status_pairs_four (ne se sw nw : Z) :
  status_pairs [ne; se; sw; nw] = Ok [(NE, ne); (SE, se); (SW, sw); (NW, nw)].
Proof. reflexivity. Qed.

(** X18 (the beam lock, from the boxes to the status line): with a
    calibration map that is absent or complete, for whichever antenna the
    radio buttons have selected, a frequency box of 0 makes lockBeam raise
    ZeroDivisionError; for every other frequency (the wavelength is then
    0.3/frequency) and every polar angle whose cosine is not zero, lockBeam
    keeps a controller for the angles of the boxes, the selected grid and
    mask, the panel spacing and the calibration map, and stores four settings
    of [0, 31]: for each of NE, SE, SW and NW the calibrated code of the
    phase that [phase_fields] gives, for that controller, to the last
    element carrying the label; the status line pairs each setting with its
    own label. *)
Theorem lockBeam_gui (clicks : list (bool * bool))
    (thetaBox phiBox waveLengthBox amplitudeBox : R) (cal : option calmap)
    (Hcal : cal_complete cal) :
  (waveLengthBox = 0 ->
   lockBeam thetaBox phiBox waveLengthBox amplitudeBox cal (gui_antenna clicks)
   = Raise ZeroDivisionError) /\
  (waveLengthBox <> 0 -> cos (radians thetaBox) <> 0 ->
   exists (ne se sw nw : Z) (beamDef : BeamDefinition) (raw inverted : list (list R)),
     lockBeam thetaBox phiBox waveLengthBox amplitudeBox cal (gui_antenna clicks)
     = Ok ([ne; se; sw; nw], beamDef) /\
     waveLength beamDef * waveLengthBox = 3 / 10 /\
     theta beamDef = radians thetaBox /\
     phi beamDef = radians phiBox /\
     antennaGrid beamDef = fst (gui_antenna clicks) /\
     antennaInvert beamDef = snd (gui_antenna clicks) /\
     antennaSpacing beamDef = aSpacing /\
     phaseCal beamDef = cal /\
     phase_fields beamDef = Ok (raw, inverted) /\
     phaseSettingsRaw beamDef = raw /\
     phaseSettings beamDef = [ne; se; sw; nw] /\
     Forall (fun v => (0 <= v <= 31)%Z) [ne; se; sw; nw] /\
     label_setting beamDef inverted NE ne /\ label_setting beamDef inverted SE se /\
     label_setting beamDef inverted SW sw /\ label_setting beamDef inverted NW nw /\
     status_pairs (phaseSettings beamDef)
     = Ok [(NE, ne); (SE, se); (SW, sw); (NW, nw)]).
Proof.
  split.
  - intros ->. unfold lockBeam. rewrite calculateWavelength_zero. reflexivity.
  - intros Hbox Hcos.
    destruct (calculateWavelength_ok waveLengthBox Hbox) as (w & Ew & Hw & Hprod).
    destruct (gui_antenna_valid clicks) as (rows & c & Hgrid & Hmask & Hlabels).
    unfold lockBeam. rewrite Ew. cbn [bind].
    set (st := setAntenna (init thetaBox phiBox w cal amplitudeBox)
                 (fst (gui_antenna clicks)) (snd (gui_antenna clicks)) aSpacing).
    destruct (phase_gradients_ok st Hw Hcos) as (ew & ns & Hg).
    destruct (labels_give_columns _ rows (S c) NE Hgrid) as [Hrows _];
      [apply Hlabels; simpl; tauto |].
    destruct (getPhaseSettings_run st rows c ew ns eq_refl Hg Hgrid Hmask Hcal Hlabels)
      as (ne & se & sw & nw & Hrun & Lne & Lse & Lsw & Lnw & Hall).
    cbv zeta in Hrun, Lne, Lse, Lsw, Lnw.
    exists ne, se, sw, nw,
      (with_phase st [ne; se; sw; nw] (phase_field rows (S c) ns ew)),
      (phase_field rows (S c) ns ew),
      (flip_field (antennaInvert st) (phase_field rows (S c) ns ew)).
    split; [exact Hrun |]. split; [exact Hprod |].
    do 6 (split; [reflexivity |]).
    split; [exact (phase_fields_run st rows c ew ns Hg Hgrid Hmask Hrows) |].
    do 2 (split; [reflexivity |]).
    split; [exact Hall |].
    repeat split; try assumption.
Qed.

Lemma lockBeam_gui_witness :
  exists (ne se sw nw : Z) (beamDef : BeamDefinition) (raw inverted : list (list R)),
    lockBeam 0 90 28 1 None (gui_antenna [(false, true); (true, false)])
    = Ok ([ne; se; sw; nw], beamDef) /\
    phase_fields beamDef = Ok (raw, inverted) /\
    Forall (fun v => (0 <= v <= 31)%Z) [ne; se; sw; nw] /\
    label_setting beamDef inverted NE ne /\ label_setting beamDef inverted SE se /\
    label_setting beamDef inverted SW sw /\ label_setting beamDef inverted NW nw /\
    status_pairs (phaseSettings beamDef)
    = Ok [(NE, ne); (SE, se); (SW, sw); (NW, nw)].
Proof.
  destruct (proj2 (lockBeam_gui [(false, true); (true, false)] 0 90 28 1 None I))
    as (ne & se & sw & nw & beamDef & raw & inverted & Hrun & _ & _ & _ & _ & _ & _ & _
        & Hf & _ & _ & Hall & Lne & Lse & Lsw & Lnw & Hst).
  - lra.
  - rewrite radians_0, cos_0. lra.
  - exists ne, se, sw, nw, beamDef, raw, inverted. repeat split; assumption.
Defined.

(** ** The sketch of the pattern *)

Lemma regulate_phi_ok (value : R) : exists v, regulate_phi value = Ok v.
Proof.
  unfold regulate_phi.
  destruct (Rlt_dec value 0); [rewrite py_fmod_ok by lra; eauto |].
  destruct (Rle_dec 360 value); [rewrite py_fmod_ok by lra; eauto |].
  eauto.
Qed.

Lemma generateAllAF_runs (self : BeamDefinition) (rows cols : nat) (fuel : nat)
    (n_theta n_phi : Z) (normalized absAf backLobes : bool) :
  fresh_valid self rows cols ->
  (0 < n_theta)%Z -> (0 < n_phi)%Z ->
  (Z.to_nat n_theta + Z.to_nat n_phi + 1 < fuel)%nat ->
  exists (pts : list sample) (self' : BeamDefinition),
    generateAllAF fuel self n_theta n_phi normalized absAf backLobes = Ok (pts, self').
Proof.
  intros Hfresh Hth Hph Hfuel.
  assert (Hnth : 0 < IZR n_theta) by (apply IZR_lt; exact Hth).
  assert (Hnph : 0 < IZR n_phi) by (apply IZR_lt; exact Hph).
  set (t_max := if backLobes then 180 else 90).
  assert (Htmax : 0 < t_max) by (unfold t_max; destruct backLobes; lra).
  assert (Hpd : 0 < 360 / IZR n_phi) by (apply Rdiv_lt_0_compat; lra).
  assert (Htd : 0 < t_max / IZR n_theta) by (apply Rdiv_lt_0_compat; lra).
  assert (Hkphi : 360 - 0 <= INR (Z.to_nat n_phi) * (360 / IZR n_phi)).
  { rewrite INR_to_nat by lia. right. field. lra. }
  assert (Hkth : t_max - 0 <= INR (Z.to_nat n_theta) * (t_max / IZR n_theta)).
  { rewrite INR_to_nat by lia. right. field. lra. }
  destruct (theta_loop_total rows cols absAf t_max (t_max / IZR n_theta) 360
              (360 / IZR n_phi) (Z.to_nat n_phi) Htd Hpd Hkphi
              (Z.to_nat n_theta) fuel self 0
              [] (PFloat (-1)) (or_introl Hfresh) Hkth Hfuel) as [r Hloop].
  assert (Hraw : generateAllAF fuel self n_theta n_phi false absAf backLobes
                 = Ok (fst (fst r), snd r)).
  { unfold generateAllAF. fold t_max.
    rewrite !py_div_ok by lra. cbn [bind]. rewrite Hloop. reflexivity. }
  destruct normalized.
  - destruct (generateAllAF_normalized_total _ _ _ _ _ _ _ _ Hraw) as [pts E].
    exists pts, (snd r). exact E.
  - exists (fst (fst r)), (snd r). exact Hraw.
Qed.

(** X19 (the sketch, from the boxes to the points): for whichever antenna the
    radio buttons have selected, a frequency box of 0 makes sketchAfPattern
    raise ZeroDivisionError; so does, for a non-zero frequency, an amplitude
    box of 0, at the first sample (getRelativeGain divides the amplitude by
    itself); for a non-zero frequency and amplitude, a polar angle whose
    cosine is not zero and a calibration map that is absent or complete, the
    sketch hands 900 points to the viewer, on the 30 x 30 grid of steps
    3 and 12 degrees. *)
Theorem sketchAfPattern_gui (clicks : list (bool * bool)) (fuel : nat)
    (thetaBox phiBox waveLengthBox amplitudeBox : R) (cal : option calmap) :
  (waveLengthBox = 0 ->
   sketchAfPattern fuel thetaBox phiBox waveLengthBox amplitudeBox cal
     (gui_antenna clicks) = Raise ZeroDivisionError) /\
  (waveLengthBox <> 0 -> amplitudeBox = 0 -> (2 <= fuel)%nat ->
   sketchAfPattern fuel thetaBox phiBox waveLengthBox amplitudeBox cal
     (gui_antenna clicks) = Raise ZeroDivisionError) /\
  (waveLengthBox <> 0 -> amplitudeBox <> 0 -> cos (radians thetaBox) <> 0 ->
   cal_complete cal -> (62 <= fuel)%nat ->
   exists pts : list sample,
     sketchAfPattern fuel thetaBox phiBox waveLengthBox amplitudeBox cal
       (gui_antenna clicks) = Ok pts /\
     length pts = 900%nat /\
     map fst pts = sample_angles 30 30 (90 / 30) (360 / 30)).
Proof.
  destruct (regulate_phi_ok phiBox) as [phiv Ephi].
  unfold sketchAfPattern, sketchAfPattern_beam. rewrite Ephi. cbn [bind].
  split; [| split].
  - intros ->. rewrite calculateWavelength_zero. reflexivity.
  - intros Hbox Hamp Hfuel.
    destruct (calculateWavelength_ok waveLengthBox Hbox) as (w & Ew & Hw & _).
    rewrite Ew. cbn [bind].
    set (st := setAntenna (init thetaBox phiv w cal amplitudeBox)
                 (fst (gui_antenna clicks)) (snd (gui_antenna clicks)) aSpacing).
    assert (Hgain : getRelativeGain st = Raise ZeroDivisionError).
    { pose proof (getRelativeGain_grid st eq_refl) as H.
      assert (Hb : beamStrength st = 0) by exact Hamp.
      destruct (gui_antenna_cases clicks) as [E | E];
        unfold st in *; rewrite E in *; cbn [antennaGrid setAntenna fst snd] in H;
        cbv zeta in H; destruct H as [_ H]; apply H; [exact Hb | discriminate
                                                     | exact Hb | discriminate]. }
    destruct fuel as [| [| fuel]]; [lia | lia |].
    unfold generateAllAF. rewrite !py_div_ok by lra. cbn [bind theta_loop].
    destruct (Rlt_dec 0 90) as [_ | N]; [| exfalso; lra].
    cbn [phi_loop].
    destruct (Rlt_dec 0 360) as [_ | N]; [| exfalso; lra].
    rewrite Hgain. reflexivity.
  - intros Hbox Hamp Hcos Hcal Hfuel.
    destruct (calculateWavelength_ok waveLengthBox Hbox) as (w & Ew & Hw & _).
    rewrite Ew. cbn [bind].
    set (st := setAntenna (init thetaBox phiv w cal amplitudeBox)
                 (fst (gui_antenna clicks)) (snd (gui_antenna clicks)) aSpacing).
    destruct (gui_antenna_valid clicks) as (rows & c & Hgrid & Hmask & Hlabels).
    assert (Hfresh : fresh_valid st rows (S c)).
    { unfold fresh_valid.
      repeat match goal with |- _ /\ _ => split end;
        try reflexivity; try assumption. }
    destruct (generateAllAF_runs st rows (S c) fuel 30 30 true true false Hfresh
                ltac:(lia) ltac:(lia) ltac:(simpl; lia)) as (pts & self' & Hrun).
    rewrite Hrun. cbn [bind fst].
    exists pts. split; [reflexivity |].
    destruct (generateAllAF_grid fuel st 30 30 true true false pts self'
                ltac:(lia) ltac:(lia) Hrun) as [Hang Hlen].
    split; [exact Hlen | exact Hang].
Qed.

Lemma sketchAfPattern_gui_witness :
  sketchAfPattern 62 10 90 28 0 None (gui_antenna [(true, false)])
  = Raise ZeroDivisionError /\
  exists pts : list sample,
    sketchAfPattern 62 0 90 28 1 None (gui_antenna [(true, false)]) = Ok pts /\
    length pts = 900%nat.
Proof.
  split.
  - apply (proj1 (proj2 (sketchAfPattern_gui [(true, false)] 62 10 90 28 0 None)));
      [lra | reflexivity | lia].
  - destruct (proj2 (proj2 (sketchAfPattern_gui [(true, false)] 62 0 90 28 1 None)))
      as (pts & Hrun & Hlen & _).
    + lra.
    + lra.
    + rewrite radians_0, cos_0. lra.
    + exact I.
    + lia.
    + exists pts. split; assumption.
Defined.

(** ** Degenerate requests and antennas *)

(** X20 (what getPhaseSettings raises on degenerate input): with an empty
    settings cache, a wavelength of 0 raises ZeroDivisionError before
    anything else is looked at; with a non-zero wavelength (and a polar angle
    whose cosine is not zero), an empty grid raises KeyError, because no
    label is found, and a grid whose first row is empty raises IndexError, at
    the assignment to [offsets[0][0]]. *)
Theorem getPhaseSettings_degenerate (self : BeamDefinition)
    (Hcache : phaseSettings self = []) :
  (waveLength self = 0 -> getPhaseSettings self = Raise ZeroDivisionError) /\
  (waveLength self <> 0 -> cos (theta self) <> 0 -> antennaGrid self = [] ->
   getPhaseSettings self = Raise KeyError) /\
  (waveLength self <> 0 -> cos (theta self) <> 0 ->
   (exists rest, antennaGrid self = [] :: rest) ->
   getPhaseSettings self = Raise IndexError).
Proof.
  split; [| split].
  - intros Hw. unfold getPhaseSettings. rewrite Hcache. cbn [length Nat.ltb Nat.leb].
    unfold phase_fields, phase_gradients. rewrite Hw, py_div_zero. reflexivity.
  - intros Hw Hcos Hgrid.
    destruct (phase_gradients_ok self Hw Hcos) as (ew & ns & Hg).
    unfold getPhaseSettings. rewrite Hcache. cbn [length Nat.ltb Nat.leb].
    unfold phase_fields. rewrite Hg, Hgrid. reflexivity.
  - intros Hw Hcos [rest Hgrid].
    destruct (phase_gradients_ok self Hw Hcos) as (ew & ns & Hg).
    unfold getPhaseSettings. rewrite Hcache. cbn [length Nat.ltb Nat.leb].
    unfold phase_fields. rewrite Hg, Hgrid. cbn [bind length hd snd fst].
    rewrite build_offsets_no_columns. reflexivity.
Qed.

Lemma getPhaseSettings_degenerate_witness :
  getPhaseSettings (init 10 90 0 None 1) = Raise ZeroDivisionError /\
  getPhaseSettings (setAntenna (init 0 90 (3 / 280) None 1) [] [] (54 / 10000))
  = Raise KeyError /\
  getPhaseSettings (setAntenna (init 0 90 (3 / 280) None 1) [[]; [NE]] [[]; [true]]
                      (54 / 10000))
  = Raise IndexError.
Proof.
  assert (Hc : cos (radians 0) <> 0) by (rewrite radians_0, cos_0; lra).
  split; [| split].
  - apply (proj1 (getPhaseSettings_degenerate (init 10 90 0 None 1) eq_refl)).
    reflexivity.
  - apply (proj1 (proj2 (getPhaseSettings_degenerate
                           (setAntenna (init 0 90 (3 / 280) None 1) [] [] (54 / 10000))
                           eq_refl))).
    + cbn [waveLength setAntenna init]. lra.
    + exact Hc.
    + reflexivity.
  - apply (proj2 (proj2 (getPhaseSettings_degenerate
                           (setAntenna (init 0 90 (3 / 280) None 1) [[]; [NE]]
                              [[]; [true]] (54 / 10000))
                           eq_refl))).
    + cbn [waveLength setAntenna init]. lra.
    + exact Hc.
    + exists [[NE]]. reflexivity.
Defined.

(** ** The values that generateAllAF returns *)

Lemma phi_loop_magnitudes (p_max p_d t : R) :
  forall (fuel : nat) (self : BeamDefinition) (p : R) (points : list sample)
         (af_max : pynum) (r : list sample * pynum * BeamDefinition),
    phi_loop fuel self true p_max p_d t p points af_max = Ok r ->
    Forall (fun s : sample => exists m, snd s = PFloat m /\ 0 <= m) points ->
    Forall (fun s : sample => exists m, snd s = PFloat m /\ 0 <= m) (fst (fst r)).
Proof.
  induction fuel as [| fuel IH]; intros self p points af_max r Hrun Hall;
    [discriminate |].
  cbn [phi_loop] in Hrun.
  destruct (Rlt_dec p p_max) as [Hlt | Hge].
  - destruct (getRelativeGain self) as [g |]; cbn [bind] in Hrun; [| discriminate].
    destruct (getRawPhaseSettings (snd g)) as [rw |]; cbn [bind] in Hrun;
      [| discriminate].
    destruct (_calculateArrayFactor _ _ _ _ _ _) as [a0 |]; cbn [bind] in Hrun;
      [| discriminate].
    apply IH in Hrun; [exact Hrun |].
    apply Forall_app. split; [exact Hall |].
    constructor; [| constructor]. cbn [snd].
    exists (py_abs a0). split; [reflexivity | apply py_abs_nonneg].
  - inversion Hrun; subst. exact Hall.
Qed.

Lemma theta_loop_magnitudes (t_max t_d p_max p_d : R) :
  forall (fuel : nat) (self : BeamDefinition) (t : R) (points : list sample)
         (af_max : pynum) (r : list sample * pynum * BeamDefinition),
    theta_loop fuel self true t_max t_d p_max p_d t points af_max = Ok r ->
    Forall (fun s : sample => exists m, snd s = PFloat m /\ 0 <= m) points ->
    Forall (fun s : sample => exists m, snd s = PFloat m /\ 0 <= m) (fst (fst r)).
Proof.
  induction fuel as [| fuel IH]; intros self t points af_max r Hrun Hall;
    [discriminate |].
  cbn [theta_loop] in Hrun.
  destruct (Rlt_dec t t_max) as [Hlt | Hge].
  - destruct (phi_loop fuel self true p_max p_d t 0 points af_max) as [r1 |] eqn:E1;
      cbn [bind] in Hrun; [| discriminate].
    apply phi_loop_magnitudes in E1; [| exact Hall].
    exact (IH _ _ _ _ _ Hrun E1).
  - inversion Hrun; subst. exact Hall.
Qed.

(** X21 (with absAf, the default, the pattern is real): every value that
    generateAllAF returns with absAf set is a float, not a complex number,
    and is not negative, with or without normalization. *)
Theorem generateAllAF_magnitudes (fuel : nat) (self : BeamDefinition)
    (n_theta n_phi : Z) (normalized backLobes : bool) (pts : list sample)
    (self' : BeamDefinition) :
  generateAllAF fuel self n_theta n_phi normalized true backLobes = Ok (pts, self') ->
  Forall (fun s : sample => exists m, snd s = PFloat m /\ 0 <= m) pts.
Proof.
  intros Hrun. unfold generateAllAF in Hrun.
  destruct (py_div 360 (IZR n_phi)) as [p_d |]; cbn [bind] in Hrun; [| discriminate].
  destruct (py_div _ (IZR n_theta)) as [t_d |]; cbn [bind] in Hrun; [| discriminate].
  destruct (theta_loop _ _ _ _ _ _ _ _ _ _) as [r |] eqn:E; cbn [bind] in Hrun;
    [| discriminate].
  pose proof (theta_loop_af_max _ _ _ _ _ _ _ _ _ _ _ E) as (_ & _ & Hge & _).
  cbn [py_abs] in Hge. rewrite Rabs_m1 in Hge.
  apply theta_loop_magnitudes in E; [| constructor].
  destruct normalized.
  - destruct (mapM _ (fst (fst r))) as [ps |] eqn:Em; cbn [bind] in Hrun;
      [| discriminate].
    inversion Hrun; subst ps self'. clear Hrun.
    revert pts Em. induction E as [| s points (m & Es & Hm) _ IH]; intros pts Em.
    + cbn [mapM] in Em. inversion Em. constructor.
    + cbn [mapM] in Em. rewrite Es in Em. cbn [py_num_div] in Em.
      rewrite py_div_ok in Em by lra. cbn [bind] in Em.
      destruct (mapM _ points) as [ys |] eqn:Ey; cbn [bind] in Em; [| discriminate].
      inversion Em; subst. constructor; [| apply IH; reflexivity].
      cbn [snd]. eexists. split; [reflexivity |].
      apply Rle_mult_inv_pos; [exact Hm | lra].
  - inversion Hrun; subst. exact E.
Qed.

Lemma generateAllAF_magnitudes_witness :
  exists (pts : list sample) (self' : BeamDefinition),
    generateAllAF 3 (init (-30) 90 (3 / 280) None 1) 1 1 true true false
    = Ok (pts, self') /\
    Forall (fun s : sample => exists m, snd s = PFloat m /\ 0 <= m) pts.
Proof.
  destruct (generateAllAF_single_m30_90 (3 / 280) ltac:(lra)) as [self' Hraw].
  cbv zeta in Hraw.
  destruct (generateAllAF_normalized_total _ _ _ _ _ _ _ _ Hraw) as [pts Hrun].
  exists pts, self'. split; [exact Hrun |].
  exact (generateAllAF_magnitudes 3 _ 1 1 true false pts self' Hrun).
Defined.

(** ** Two requests for one direction *)





(** ** Fields that are too small for the grid *)

Lemma for_each_inv {St : Type} (P : St -> Prop) (l : list nat)
    (body : St -> nat -> result St) :
  (forall s x, In x l -> P s -> exists s', body s x = Ok s' /\ P s') ->
  forall s, P s -> exists s', for_each l body s = Ok s' /\ P s'.
Proof.
  induction l as [| x l IH]; intros Hbody s Hs.
  - exists s. split; [reflexivity | exact Hs].
  - destruct (Hbody s x (or_introl eq_refl) Hs) as (s1 & E1 & H1).
    cbn [for_each]. rewrite E1. cbn [bind].
    apply IH; [| exact H1]. intros s0 y Hy. apply Hbody. now right.
Qed.

Lemma for_each_raises_at {St : Type} (P : St -> Prop) (l1 l2 : list nat) (x : nat)
    (body : St -> nat -> result St) (e : exn) :
  (forall s y, In y l1 -> P s -> exists s', body s y = Ok s' /\ P s') ->
  (forall s, P s -> body s x = Raise e) ->
  forall s, P s -> for_each (l1 ++ x :: l2) body s = Raise e.
Proof.
  intros Hok Hfail s Hs. rewrite for_each_app.
  destruct (for_each_inv P l1 body Hok s Hs) as (s1 & E1 & H1).
  rewrite E1. cbn [bind for_each]. rewrite (Hfail s1 H1). reflexivity.
Qed.

Lemma seq_split (k n : nat) :
  (k < n)%nat -> seq 0 n = seq 0 k ++ k :: seq (S k) (n - S k).
Proof.
  intros H. replace n with (k + S (n - S k))%nat at 1 by lia.
  rewrite seq_app. reflexivity.
Qed.

(** Two nested loops over a [rows] x [cols] grid whose step works on the
    cells of the first [r0] rows and [c0] columns only: when the grid is
    larger in either dimension, the loops raise at the first cell outside, in
    row-major order. *)
Lemma nested_loops_raise {St : Type} (P : St -> Prop)
    (body : nat -> St -> nat -> result St) (rows cols r0 c0 : nat) (e : exn) :
  (0 < rows)%nat -> (0 < cols)%nat -> (r0 < rows)%nat \/ (c0 < cols)%nat ->
  (forall i j s, (i < rows)%nat -> (j < cols)%nat -> (i < r0)%nat -> (j < c0)%nat ->
                 P s -> exists s', body i s j = Ok s' /\ P s') ->
  (forall i j s, (i < rows)%nat -> (j < cols)%nat -> (r0 <= i)%nat \/ (c0 <= j)%nat ->
                 P s -> body i s j = Raise e) ->
  forall s, P s ->
    for_each (range 0 rows) (fun s i => for_each (range 0 cols) (body i) s) s
    = Raise e.
Proof.
  intros Hrows Hcols Hbig Hok Hfail s Hs. unfold range. rewrite !Nat.sub_0_r.
  assert (Hrow_fail : forall i s0, (i < rows)%nat -> P s0 ->
             (r0 <= i)%nat \/ (c0 < cols)%nat ->
             for_each (seq 0 cols) (body i) s0 = Raise e).
  { intros i s0 Hi Hs0 [Hri | Hc].
    - destruct cols as [| cols']; [lia |]. cbn [seq for_each].
      rewrite (Hfail i 0%nat s0) by (auto; lia). reflexivity.
    - destruct (Nat.lt_ge_cases i r0) as [Hlt | Hge].
      + rewrite (seq_split c0 cols Hc).
        apply (for_each_raises_at P); [| | exact Hs0].
        * intros s1 y Hy Hs1. apply in_seq in Hy. apply Hok; auto; lia.
        * intros s1 Hs1. apply Hfail; auto.
      + destruct cols as [| cols']; [lia |]. cbn [seq for_each].
        rewrite (Hfail i 0%nat s0) by (auto; lia). reflexivity. }
  destruct (Nat.lt_ge_cases c0 cols) as [Hc | Hc].
  - destruct rows as [| rows']; [lia |]. cbn [seq for_each].
    rewrite (Hrow_fail 0%nat s) by (auto; lia). reflexivity.
  - assert (Hr : (r0 < rows)%nat) by (destruct Hbig; [assumption | lia]).
    rewrite (seq_split r0 rows Hr).
    apply (for_each_raises_at P); [| | exact Hs].
    + intros s1 i Hi Hs1. apply in_seq in Hi.
      apply (for_each_inv P); [| exact Hs1].
      intros s2 j Hj Hs2. apply in_seq in Hj. apply Hok; auto; lia.
    + intros s1 Hs1. apply Hrow_fail; auto.
Qed.

Lemma grid_index_outside {A : Type} (g : list (list A)) (r0 c0 i j : nat) :
  rectangular g r0 c0 -> (r0 <= i)%nat \/ (c0 <= j)%nat ->
  grid_index g i j = Raise IndexError.
Proof.
  intros [Hl Hall] Hout. unfold grid_index, list_index.
  destruct (nth_error g i) as [row |] eqn:Erow; [| reflexivity].
  cbn [bind]. rewrite Forall_forall in Hall.
  pose proof (Hall row (nth_error_In _ _ Erow)) as Hrow.
  assert (Hi : (i < r0)%nat) by (rewrite <- Hl; apply nth_error_Some; congruence).
  destruct Hout as [H | H]; [lia |].
  destruct (nth_error row j) eqn:Ej; [| reflexivity].
  assert (j < length row)%nat by (apply nth_error_Some; congruence). lia.
Qed.

Lemma grid_assign_rectangular {A : Type} (g : list (list A)) (rows cols i j : nat)
    (v : A) :
  rectangular g rows cols -> (i < rows)%nat -> (j < cols)%nat ->
  exists g', grid_assign g i j v = Ok g' /\ rectangular g' rows cols.
Proof.
  intros [Hl Hall] Hi Hj.
  destruct (nth_error g i) as [row |] eqn:Erow.
  2: { apply nth_error_None in Erow. lia. }
  destruct (nth_error_split g i Erow) as (gpre & gpost & Eg & Hgpre).
  assert (Hrow : length row = cols).
  { rewrite Forall_forall in Hall. apply Hall. eapply nth_error_In. exact Erow. }
  destruct (nth_error row j) as [x |] eqn:Ex.
  2: { apply nth_error_None in Ex. lia. }
  destruct (nth_error_split row j Ex) as (pre & post & Er & Hpre).
  exists (gpre ++ (pre ++ v :: post) :: gpost). split.
  - rewrite Eg, Er, <- Hgpre, <- Hpre. apply grid_assign_app.
  - split.
    + rewrite <- Hl, Eg, !length_app. reflexivity.
    + rewrite Eg in Hall. apply Forall_app in Hall. destruct Hall as [H1 H2].
      inversion H2 as [| ? ? _ H3]; subst.
      apply Forall_app. split; [exact H1 |]. constructor; [| exact H3].
      rewrite !length_app in *. simpl in *. lia.
Qed.

(** X23 (a mask that is too small): on a rectangular antenna with at least
    one element, when the inversion mask is rectangular but has fewer rows
    than the grid, or shorter rows, a computing call of getPhaseSettings
    raises IndexError (at the first grid position that has no mask entry);
    no element is silently left uninverted. *)
Theorem getPhaseSettings_small_mask (self : BeamDefinition)
    (rows cols mrows mcols : nat) :
  phaseSettings self = [] ->
  waveLength self <> 0 ->
  cos (theta self) <> 0 ->
  rectangular (antennaGrid self) rows cols ->
  (0 < rows)%nat -> (0 < cols)%nat ->
  rectangular (antennaInvert self) mrows mcols ->
  (mrows < rows)%nat \/ (mcols < cols)%nat ->
  getPhaseSettings self = Raise IndexError.
Proof.
  intros Hcache Hw Hcos Hgrid Hrows Hcols Hmask Hsmall.
  destruct (phase_gradients_ok self Hw Hcos) as (ew & ns & Hg).
  destruct cols as [| c]; [lia |].
  assert (Hc0 : length (hd [] (antennaGrid self)) = S c).
  { destruct Hgrid as [Hl Hall]. destruct (antennaGrid self) as [| r g];
      [simpl in Hl; lia |]. inversion Hall as [| ? ? Hr0 _]. exact Hr0. }
  unfold getPhaseSettings. rewrite Hcache. cbn [length Nat.ltb Nat.leb].
  unfold phase_fields. rewrite Hg. cbn [bind fst snd].
  destruct Hgrid as [Hl _]. rewrite Hl, Hc0, build_offsets_run. cbn [bind].
  unfold apply_invert.
  rewrite (nested_loops_raise (fun g => rectangular g rows (S c))
             (invert_body (antennaInvert self)) rows (S c) mrows mcols IndexError);
    auto.
  - intros i j s Hi Hj Him Hjm Hs. unfold invert_body.
    destruct (grid_index_rectangular (antennaInvert self) mrows mcols i j Hmask Him Hjm)
      as [b Eb].
    rewrite Eb. cbn [bind]. destruct b; [| exists s; split; [reflexivity | exact Hs]].
    destruct (grid_index_rectangular s rows (S c) i j Hs Hi Hj) as [cur Ecur].
    rewrite Ecur. cbn [bind]. apply grid_assign_rectangular; assumption.
  - intros i j s Hi Hj Hout Hs. unfold invert_body.
    rewrite (grid_index_outside (antennaInvert self) mrows mcols i j Hmask Hout).
    reflexivity.
  - apply phase_field_rectangular.
Qed.

Lemma getPhaseSettings_small_mask_witness :
  getPhaseSettings
    (setAntenna (init 0 90 (3 / 280) None 1) [[NW; NE]; [SW; SE]]
       [[true; false]] (54 / 10000))
  = Raise IndexError.
Proof.
  apply (getPhaseSettings_small_mask _ 2 2 1 2).
  - reflexivity.
  - cbn [waveLength setAntenna init]. lra.
  - cbn [theta setAntenna init]. rewrite radians_0, cos_0. lra.
  - split; [reflexivity | repeat constructor].
  - lia.
  - lia.
  - split; [reflexivity | repeat constructor].
  - left. lia.
Defined.

(** ** A raw field kept from a smaller antenna *)

(** X24 (what the stale raw field does to the pattern): when a raw phase
    field is cached and setAntenna then installs a rectangular grid with more
    rows or longer rows than that field, the next generateAllAF (positive
    resolutions, non-zero beam strength and wavelength) raises IndexError at
    its first sample: the gain field is recomputed for the new grid, the raw
    field is not, and _calculateArrayFactor indexes it with the new grid's
    dimensions. *)
Theorem generateAllAF_after_growing_antenna (self : BeamDefinition)
    (r0 c0 rows cols : nat) (fuel : nat) (n_theta n_phi : Z)
    (normalized absAf backLobes : bool) (grid : list (list string))
    (invertPattern : list (list bool)) (spacing : R) :
  rectangular (phaseSettingsRaw self) r0 c0 -> (0 < r0)%nat ->
  rectangular grid rows cols -> (0 < rows)%nat -> (0 < cols)%nat ->
  (r0 < rows)%nat \/ (c0 < cols)%nat ->
  beamStrength self <> 0 -> waveLength self <> 0 ->
  (0 < n_theta)%Z -> (0 < n_phi)%Z -> (2 <= fuel)%nat ->
  generateAllAF fuel (setAntenna self grid invertPattern spacing) n_theta n_phi
    normalized absAf backLobes = Raise IndexError.
Proof.
  intros Hraw Hr0 Hgrid Hrows Hcols Hbig Hb Hw Hth Hph Hfuel.
  set (st := setAntenna self grid invertPattern spacing).
  destruct grid as [| row0 rest] eqn:Egrid.
  { destruct Hgrid as [Hl _]. simpl in Hl. lia. }
  assert (Hrow0 : length row0 = cols).
  { destruct Hgrid as [_ Hall]. inversion Hall as [| ? ? H0 _]. exact H0. }
  assert (Hlen : length (row0 :: rest) = rows) by (destruct Hgrid as [Hl _]; exact Hl).
  pose proof (getRelativeGain_ones st row0 rest eq_refl eq_refl Hb) as Hgain.
  cbv zeta in Hgain.
  cbn [antennaGrid st setAntenna] in Hgain. rewrite Hrow0, Hlen in Hgain. fold st in Hgain.
  set (gain := repeat (repeat 1 cols) rows) in *.
  set (st1 := with_gain st gain) in *.
  assert (Hrawrun : getRawPhaseSettings st1 = Ok (phaseSettingsRaw self, st1)).
  { unfold getRawPhaseSettings. cbn [phaseSettingsRaw st1 with_gain st setAntenna].
    destruct Hraw as [Hl _]. destruct (phaseSettingsRaw self); [simpl in Hl; lia |].
    reflexivity. }
  assert (Haf : forall theta0 phi0,
             _calculateArrayFactor st1 theta0 phi0 gain (phaseSettingsRaw self)
               (waveLength st1) = Raise IndexError).
  { intros theta0 phi0. unfold _calculateArrayFactor.
    rewrite py_div_ok by exact Hw. cbn [bind].
    cbn [antennaGrid st1 with_gain st setAntenna hd]. rewrite Hrow0, Hlen.
    apply (nested_loops_raise (fun _ => True)
             (af_body _ _ theta0 phi0 gain (phaseSettingsRaw self))
             rows cols r0 c0 IndexError); auto.
    - intros i j s Hi Hj Hir Hjc _. unfold af_body.
      unfold gain. rewrite ones_index by assumption. cbn [bind].
      destruct (grid_index_rectangular (phaseSettingsRaw self) r0 c0 i j Hraw Hir Hjc)
        as [d Ed].
      rewrite Ed. cbn [bind]. eexists. split; [reflexivity | exact I].
    - intros i j s Hi Hj Hout _. unfold af_body.
      unfold gain. rewrite ones_index by assumption. cbn [bind].
      rewrite (grid_index_outside (phaseSettingsRaw self) r0 c0 i j Hraw Hout).
      reflexivity. }
  assert (Hnth : 0 < IZR n_theta) by (apply IZR_lt; exact Hth).
  assert (Hnph : 0 < IZR n_phi) by (apply IZR_lt; exact Hph).
  unfold generateAllAF. rewrite !py_div_ok by lra. cbn [bind].
  destruct fuel as [| [| fuel]]; [lia | lia |].
  cbn [theta_loop].
  destruct (Rlt_dec 0 (if backLobes then 180 else 90)) as [_ | N];
    [| exfalso; destruct backLobes; lra].
  cbn [phi_loop].
  destruct (Rlt_dec 0 360) as [_ | N]; [| exfalso; lra].
  rewrite Hgain. cbn [bind fst snd]. rewrite Hrawrun. cbn [bind fst snd].
  rewrite Haf. reflexivity.
Qed.

Lemma generateAllAF_after_growing_antenna_witness :
  generateAllAF 62
    (setAntenna
       (with_phase (init 0 90 (3 / 280) None 1) [16; 16; 0; 0]%Z [[0; 0; 0; 0]])
       [[NW; NE]; [SW; SE]] [[true; false]; [true; false]] (54 / 10000))
    30 30 true true false
  = Raise IndexError.
Proof.
  apply (generateAllAF_after_growing_antenna _ 1 4 2 2).
  - split; [reflexivity | repeat constructor].
  - lia.
  - split; [reflexivity | repeat constructor].
  - lia.
  - lia.
  - left. lia.
  - cbn [beamStrength with_phase init]. lra.
  - cbn [waveLength with_phase init]. lra.
  - lia.
  - lia.
  - lia.
Defined.

(** ** The pattern after setAntenna on an unchanged geometry *)

Lemma calculateArrayFactor_geometry (s s' : BeamDefinition) (rows cols : nat)
    (theta0 phi0 w : R) (I d : list (list R)) :
  rectangular (antennaGrid s) rows cols -> rectangular (antennaGrid s') rows cols ->
  (0 < rows)%nat ->
  antennaSpacing s = antennaSpacing s' ->
  _calculateArrayFactor s theta0 phi0 I d w
  = _calculateArrayFactor s' theta0 phi0 I d w.
Proof.
  intros [Hl Hall] [Hl' Hall'] Hrows Hsp. unfold _calculateArrayFactor.
  assert (Hc : length (hd [] (antennaGrid s)) = cols).
  { destruct (antennaGrid s); [simpl in Hl; lia |]. now inversion Hall. }
  assert (Hc' : length (hd [] (antennaGrid s')) = cols).
  { destruct (antennaGrid s'); [simpl in Hl'; lia |]. now inversion Hall'. }
  rewrite Hl, Hl', Hc, Hc', Hsp. reflexivity.
Qed.

Lemma ones_nonempty (rows cols : nat) :
  (0 < rows)%nat -> repeat (repeat 1 cols) rows <> [].
Proof. destruct rows; [lia | discriminate]. Qed.

(** One sample on a tuned controller: it reads the field of ones and [raw],
    and leaves a tuned controller with both caches filled. *)
Lemma sample_tuned (rows cols : nat) (d w : R) (raw : list (list R))
    (self : BeamDefinition) :
  tuned rows cols d w raw self ->
  exists self1 self2 : BeamDefinition,
    getRelativeGain self = Ok (repeat (repeat 1 cols) rows, self1) /\
    getRawPhaseSettings self1 = Ok (raw, self2) /\
    tuned rows cols d w raw self2 /\ phaseSettingsRaw self2 = raw.
Proof.
  intros (Hgrid & Hrows & Hd & Hw & Hw0 & Hb & Hraw & Hcase).
  pose proof (rectangular_nonempty _ _ _ Hraw Hrows) as Hrne.
  assert (Hrow0 : exists row0 rest, antennaGrid self = row0 :: rest /\
                                    length row0 = cols /\ S (length rest) = rows).
  { destruct Hgrid as [Hl Hall]. destruct (antennaGrid self) as [| row0 rest];
      [simpl in Hl; lia |].
    exists row0, rest. inversion Hall. split; [reflexivity |]. split; assumption. }
  destruct Hcase as [[Eraw Hgain] | [Hfresh (ew & ns & Hgr & Eraw)]].
  - assert (Hstep : exists self1,
               getRelativeGain self = Ok (repeat (repeat 1 cols) rows, self1) /\
               phaseSettingsRaw self1 = raw /\
               gainSettings self1 = repeat (repeat 1 cols) rows /\
               antennaGrid self1 = antennaGrid self /\
               antennaSpacing self1 = antennaSpacing self /\
               waveLength self1 = waveLength self /\
               beamStrength self1 = beamStrength self).
    { destruct Hgain as [Eg | Eg].
      - exists self. unfold getRelativeGain. rewrite Eg.
        pose proof (ones_nonempty rows cols Hrows) as Hne.
        destruct (repeat (repeat 1 cols) rows) as [| r0 g0] eqn:E; [congruence |].
        cbn [length Nat.ltb Nat.leb]. repeat split; auto.
      - destruct Hrow0 as (row0 & rest & Egrid & Hr0 & Hrest).
        pose proof (getRelativeGain_ones self row0 rest Eg Egrid Hb) as Hrun.
        cbv zeta in Hrun. rewrite Egrid in Hrun. cbn [length] in Hrun.
        rewrite Hr0, Hrest in Hrun.
        eexists. split; [exact Hrun |]. cbn [phaseSettingsRaw gainSettings antennaGrid
          antennaSpacing waveLength beamStrength with_gain].
        repeat split; auto. }
    destruct Hstep as (self1 & Hrun & Er1 & Eg1 & Egrid1 & Es1 & Ew1 & Eb1).
    exists self1, self1. split; [exact Hrun |]. split.
    + unfold getRawPhaseSettings. rewrite Er1.
      destruct raw as [| r0 raw0]; [congruence | reflexivity].
    + split; [| exact Er1]. unfold tuned. rewrite Egrid1, Es1, Ew1, Eb1.
      repeat match goal with |- _ /\ _ => split end; auto.
  - destruct (first_sample_fields self rows cols ew ns Hfresh Hgr)
      as (self1 & self2 & Hgain & Hrun & Egrid2 & Es2 & Ew2).
    exists self1, self2. split; [exact Hgain |]. rewrite Eraw. split; [exact Hrun |].
    pose proof Hfresh as (_ & _ & Hgs & _).
    destruct (getRelativeGain_computed self self1 _ Hgs Hgain) as [_ E1].
    assert (Hps1 : phaseSettings self1 = []).
    { rewrite E1. cbn [phaseSettings with_gain]. apply Hfresh. }
    assert (Hraw1 : phaseSettingsRaw self1 = []).
    { rewrite E1. cbn [phaseSettingsRaw with_gain]. apply Hfresh. }
    assert (E2 : exists l f, self2 = with_phase self1 l f).
    { unfold getRawPhaseSettings in Hrun. rewrite Hraw1 in Hrun.
      cbn [length Nat.eqb] in Hrun.
      destruct (getPhaseSettings self1) as [[l s2] |] eqn:Ep; cbn [bind] in Hrun;
        [| discriminate].
      destruct (getPhaseSettings_computed self1 s2 l Hps1 Ep) as (_ & _ & f & _ & Es).
      inversion Hrun; subst. eauto. }
    destruct E2 as (l & f & E2).
    split; [| exact (getRawPhaseSettings_stored _ _ _ Hrun)].
    unfold tuned. rewrite Egrid2, Es2, Ew2.
    repeat match goal with |- _ /\ _ => split end; auto.
    + rewrite E2, E1. cbn [beamStrength with_phase with_gain]. exact Hb.
    + rewrite <- Eraw. exact Hraw.
    + left. split.
      * exact (getRawPhaseSettings_stored _ _ _ Hrun).
      * left. rewrite E2, E1. reflexivity.
Qed.

Lemma tuned_geometry (rows cols : nat) (d w : R) (raw : list (list R))
    (s s' : BeamDefinition) (theta0 phi0 : R) (I dd : list (list R)) :
  tuned rows cols d w raw s -> tuned rows cols d w raw s' ->
  _calculateArrayFactor s theta0 phi0 I dd (waveLength s)
  = _calculateArrayFactor s' theta0 phi0 I dd (waveLength s').
Proof.
  intros (Hg & Hrows & Hd & Hw & _) (Hg' & _ & Hd' & Hw' & _).
  rewrite Hw, Hw'.
  apply (calculateArrayFactor_geometry s s' rows cols); auto. congruence.
Qed.

(** Two tuned controllers go through the sampling loops in step. *)
Lemma phi_loop_tuned (rows cols : nat) (d w : R) (raw : list (list R))
    (absAf : bool) (p_max p_d t : R) :
  forall (fuel : nat) (self self' : BeamDefinition) (p : R) (points : list sample)
         (af_max : pynum),
    tuned rows cols d w raw self -> tuned rows cols d w raw self' ->
    match phi_loop fuel self absAf p_max p_d t p points af_max,
          phi_loop fuel self' absAf p_max p_d t p points af_max with
    | Ok r, Ok r' =>
        fst r = fst r' /\ tuned rows cols d w raw (snd r)
        /\ tuned rows cols d w raw (snd r')
    | Raise e, Raise e' => e = e'
    | _, _ => False
    end.
Proof.
  induction fuel as [| fuel IH]; intros self self' p points af_max Ht Ht';
    [reflexivity |].
  cbn [phi_loop].
  destruct (Rlt_dec p p_max) as [Hlt | Hge].
  - destruct (sample_tuned rows cols d w raw self Ht) as (s1 & s2 & Hg & Hr & Ht2 & _).
    destruct (sample_tuned rows cols d w raw self' Ht') as (s1' & s2' & Hg' & Hr' & Ht2' & _).
    rewrite Hg, Hg'. cbn [bind fst snd]. rewrite Hr, Hr'. cbn [bind fst snd].
    rewrite (tuned_geometry rows cols d w raw s2 s2' _ _ _ _ Ht2 Ht2').
    destruct (_calculateArrayFactor s2' _ _ _ _ _) as [a0 | e]; cbn [bind];
      [| reflexivity].
    apply IH; assumption.
  - cbn [fst snd]. auto.
Qed.

Lemma theta_loop_tuned (rows cols : nat) (d w : R) (raw : list (list R))
    (absAf : bool) (t_max t_d p_max p_d : R) :
  forall (fuel : nat) (self self' : BeamDefinition) (t : R) (points : list sample)
         (af_max : pynum),
    tuned rows cols d w raw self -> tuned rows cols d w raw self' ->
    match theta_loop fuel self absAf t_max t_d p_max p_d t points af_max,
          theta_loop fuel self' absAf t_max t_d p_max p_d t points af_max with
    | Ok r, Ok r' =>
        fst r = fst r' /\ tuned rows cols d w raw (snd r)
        /\ tuned rows cols d w raw (snd r')
    | Raise e, Raise e' => e = e'
    | _, _ => False
    end.
Proof.
  induction fuel as [| fuel IH]; intros self self' t points af_max Ht Ht';
    [reflexivity |].
  cbn [theta_loop].
  destruct (Rlt_dec t t_max) as [Hlt | Hge].
  - pose proof (phi_loop_tuned rows cols d w raw absAf p_max p_d t fuel self self' 0
                  points af_max Ht Ht') as Hphi.
    destruct (phi_loop fuel self absAf p_max p_d t 0 points af_max) as [r1 | e1];
      destruct (phi_loop fuel self' absAf p_max p_d t 0 points af_max) as [r1' | e1'];
      try contradiction; cbn [bind].
    + destruct Hphi as (E & H1 & H1'). rewrite E. apply IH; assumption.
    + exact Hphi.
  - cbn [fst snd]. auto.
Qed.

Lemma generateAllAF_tuned (rows cols : nat) (d w : R) (raw : list (list R))
    (fuel : nat) (self self' : BeamDefinition) (n_theta n_phi : Z)
    (normalized absAf backLobes : bool) :
  tuned rows cols d w raw self -> tuned rows cols d w raw self' ->
  match generateAllAF fuel self n_theta n_phi normalized absAf backLobes,
        generateAllAF fuel self' n_theta n_phi normalized absAf backLobes with
  | Ok r, Ok r' =>
      fst r = fst r' /\ tuned rows cols d w raw (snd r)
      /\ tuned rows cols d w raw (snd r')
  | Raise e, Raise e' => e = e'
  | _, _ => False
  end.
Proof.
  intros Ht Ht'. unfold generateAllAF.
  destruct (py_div 360 (IZR n_phi)) as [p_d | e]; cbn [bind]; [| reflexivity].
  destruct (py_div _ (IZR n_theta)) as [t_d | e]; cbn [bind]; [| reflexivity].
  pose proof (theta_loop_tuned rows cols d w raw absAf
                (if backLobes then 180 else 90) t_d 360 p_d fuel self self' 0 []
                (PFloat (-1)) Ht Ht') as Hth.
  destruct (theta_loop fuel self _ _ _ _ _ _ _ _) as [r | e];
    destruct (theta_loop fuel self' _ _ _ _ _ _ _ _) as [r' | e'];
    try contradiction; cbn [bind]; [| exact Hth].
  destruct Hth as (E & H1 & H1'). rewrite E.
  destruct normalized; [| cbn [fst snd]; auto].
  destruct (mapM _ _) as [ps | e]; cbn [bind fst snd]; auto.
Qed.

Lemma fresh_tuned (self : BeamDefinition) (rows cols : nat) :
  fresh_valid self rows cols ->
  exists raw, tuned rows cols (antennaSpacing self) (waveLength self) raw self.
Proof.
  intros Hfresh.
  pose proof Hfresh as (_ & _ & _ & Hgrid & _ & Hw & Hcos & Hb & _ & Hlabels).
  destruct (labels_give_columns _ rows cols NE Hgrid) as [Hrows Hcols];
    [apply Hlabels; simpl; tauto |].
  destruct (phase_gradients_ok self Hw Hcos) as (ew & ns & Hg).
  exists (phase_field rows cols ns ew).
  split; [exact Hgrid |]. split; [exact Hrows |]. split; [reflexivity |].
  split; [reflexivity |]. split; [exact Hw |]. split; [exact Hb |].
  split; [apply phase_field_rectangular |].
  right. split; [exact Hfresh |]. exists ew, ns. auto.
Qed.

Lemma setAntenna_tuned (rows cols : nat) (d w : R) (raw : list (list R))
    (self : BeamDefinition) (grid : list (list string))
    (invertPattern : list (list bool)) :
  tuned rows cols d w raw self ->
  phaseSettingsRaw self = raw ->
  rectangular grid rows cols ->
  tuned rows cols d w raw (setAntenna self grid invertPattern d).
Proof.
  intros (_ & Hrows & _ & Hw & Hw0 & Hb & Hraw & _) Eraw Hgrid.
  unfold tuned. cbn [antennaGrid antennaSpacing waveLength beamStrength
                       phaseSettingsRaw gainSettings setAntenna].
  repeat match goal with |- _ /\ _ => split end; auto.
Qed.


Lemma phi_loop_cached (rows cols : nat) (d w : R) (raw : list (list R))
    (absAf : bool) (p_max p_d t : R) :
  forall (fuel : nat) (self : BeamDefinition) (p : R) (points : list sample)
         (af_max : pynum) (r : list sample * pynum * BeamDefinition),
    tuned rows cols d w raw self ->
    phaseSettingsRaw self = raw \/ p < p_max ->
    phi_loop fuel self absAf p_max p_d t p points af_max = Ok r ->
    phaseSettingsRaw (snd r) = raw.
Proof.
  induction fuel as [| fuel IH]; intros self p points af_max r Ht Hc Hrun;
    [discriminate |].
  cbn [phi_loop] in Hrun.
  destruct (Rlt_dec p p_max) as [Hlt | Hge].
  - destruct (sample_tuned rows cols d w raw self Ht) as (s1 & s2 & Hg & Hr & Ht2 & E2).
    rewrite Hg in Hrun. cbn [bind fst snd] in Hrun.
    rewrite Hr in Hrun. cbn [bind fst snd] in Hrun.
    destruct (_calculateArrayFactor s2 _ _ _ _ _) as [a0 |]; cbn [bind] in Hrun;
      [| discriminate].
    apply (IH _ _ _ _ _ Ht2 (or_introl E2) Hrun).
  - inversion Hrun; subst r. cbn [snd]. destruct Hc as [E | Hlt]; [exact E | tauto].
Qed.

Lemma theta_loop_cached (rows cols : nat) (d w : R) (raw : list (list R))
    (absAf : bool) (t_max t_d p_max p_d : R) :
  0 < p_max ->
  forall (fuel : nat) (self : BeamDefinition) (t : R) (points : list sample)
         (af_max : pynum) (r : list sample * pynum * BeamDefinition),
    tuned rows cols d w raw self ->
    phaseSettingsRaw self = raw \/ t < t_max ->
    theta_loop fuel self absAf t_max t_d p_max p_d t points af_max = Ok r ->
    phaseSettingsRaw (snd r) = raw.
Proof.
  intros Hpmax.
  induction fuel as [| fuel IH]; intros self t points af_max r Ht Hc Hrun;
    [discriminate |].
  cbn [theta_loop] in Hrun.
  destruct (Rlt_dec t t_max) as [Hlt | Hge].
  - pose proof (phi_loop_tuned rows cols d w raw absAf p_max p_d t fuel self self 0
                  points af_max Ht Ht) as Hsim.
    destruct (phi_loop fuel self absAf p_max p_d t 0 points af_max) as [r1 |] eqn:E1;
      cbn [bind] in Hrun; [| discriminate].
    destruct Hsim as (_ & Ht1 & _).
    pose proof (phi_loop_cached rows cols d w raw absAf p_max p_d t fuel self 0 points
                  af_max r1 Ht (or_intror Hpmax) E1) as Ec.
    apply (IH _ _ _ _ _ Ht1 (or_introl Ec) Hrun).
  - inversion Hrun; subst r. cbn [snd]. destruct Hc as [E | Hlt]; [exact E | tauto].
Qed.

(** A run of generateAllAF that returns leaves the raw field cached. *)
Lemma tuned_after_run (rows cols : nat) (d w : R) (raw : list (list R))
    (fuel : nat) (self self1 : BeamDefinition) (n_theta n_phi : Z)
    (normalized absAf backLobes : bool) (pts : list sample) :
  tuned rows cols d w raw self ->
  generateAllAF fuel self n_theta n_phi normalized absAf backLobes = Ok (pts, self1) ->
  tuned rows cols d w raw self1 /\ phaseSettingsRaw self1 = raw.
Proof.
  intros Ht Hrun.
  pose proof (generateAllAF_tuned rows cols d w raw fuel self self n_theta n_phi
                normalized absAf backLobes Ht Ht) as H.
  rewrite Hrun in H. cbn [fst snd] in H. destruct H as (_ & Ht1 & _).
  split; [exact Ht1 |].
  unfold generateAllAF in Hrun.
  destruct (py_div 360 (IZR n_phi)) as [p_d |]; cbn [bind] in Hrun; [| discriminate].
  destruct (py_div _ (IZR n_theta)) as [t_d |]; cbn [bind] in Hrun; [| discriminate].
  destruct (theta_loop _ _ _ _ _ _ _ _ _ _) as [r |] eqn:E; cbn [bind] in Hrun;
    [| discriminate].
  assert (Es : snd r = self1).
  { destruct normalized.
    - destruct (mapM _ _); cbn [bind] in Hrun; [| discriminate]. now inversion Hrun.
    - now inversion Hrun. }
  rewrite <- Es.
  apply (theta_loop_cached rows cols d w raw absAf (if backLobes then 180 else 90)
           t_d 360 p_d ltac:(lra) fuel self 0 [] (PFloat (-1)) r Ht); [| exact E].
  right. destruct backLobes; lra.
Qed.

(** What a run on a fresh controller returns is returned again after
    setAntenna installs any grid of the same dimensions at the same spacing. *)
Lemma generateAllAF_again (self : BeamDefinition) (rows cols fuel : nat)
    (n_theta n_phi : Z) (normalized absAf backLobes : bool) (pts : list sample)
    (self1 : BeamDefinition) (grid : list (list string))
    (invertPattern : list (list bool)) :
  fresh_valid self rows cols ->
  generateAllAF fuel self n_theta n_phi normalized absAf backLobes = Ok (pts, self1) ->
  rectangular grid rows cols ->
  exists self2 : BeamDefinition,
    generateAllAF fuel (setAntenna self1 grid invertPattern (antennaSpacing self))
      n_theta n_phi normalized absAf backLobes
    = Ok (pts, self2).
Proof.
  intros Hfresh Hrun Hgrid.
  destruct (fresh_tuned self rows cols Hfresh) as [raw Ht].
  destruct (tuned_after_run _ _ _ _ _ _ _ _ _ _ _ _ _ _ Ht Hrun) as [Ht1 Er1].
  pose proof (setAntenna_tuned rows cols _ _ raw self1 grid invertPattern Ht1 Er1 Hgrid)
    as Ht2.
  pose proof (generateAllAF_tuned rows cols _ _ raw fuel self _ n_theta n_phi
                normalized absAf backLobes Ht Ht2) as Hsim.
  rewrite Hrun in Hsim.
  destruct (generateAllAF fuel (setAntenna self1 grid invertPattern (antennaSpacing self))
              n_theta n_phi normalized absAf backLobes) as [[pts2 self2] |];
    [| contradiction].
  cbn [fst] in Hsim. destruct Hsim as [E _]. exists self2. now rewrite E.
Qed.

(** X25 (setAntenna on an unchanged geometry): after a run of generateAllAF
    on a fresh, valid controller, setAntenna with any grid of the same
    dimensions at the same spacing, whatever its labels and its invert mask,
    does not change the pattern: the next run of generateAllAF returns the
    same points.  The raw field that setAntenna leaves in the cache depends
    on the dimensions, the spacing and the request only, so here it is still
    the right one. *)
Theorem generateAllAF_same_geometry (self : BeamDefinition) (rows cols fuel : nat)
    (n_theta n_phi : Z) (normalized absAf backLobes : bool) (pts : list sample)
    (self1 : BeamDefinition) (grid : list (list string))
    (invertPattern : list (list bool)) :
  fresh_valid self rows cols ->
  generateAllAF fuel self n_theta n_phi normalized absAf backLobes = Ok (pts, self1) ->
  rectangular grid rows cols ->
  exists self2 : BeamDefinition,
    generateAllAF fuel (setAntenna self1 grid invertPattern (antennaSpacing self))
      n_theta n_phi normalized absAf backLobes
    = Ok (pts, self2).
Proof.
  exact (generateAllAF_again self rows cols fuel n_theta n_phi normalized absAf
           backLobes pts self1 grid invertPattern).
Qed.

Lemma generateAllAF_same_geometry_witness :
  exists (pts : list sample) (self1 self2 : BeamDefinition),
    generateAllAF 3 (init (-30) 90 (3 / 280) None 1) 1 1 false true false
    = Ok (pts, self1) /\
    generateAllAF 3
      (setAntenna self1 [[SW; SE; NW; NE]] [[false; false; false; false]]
         (antennaSpacing (init (-30) 90 (3 / 280) None 1)))
      1 1 false true false
    = Ok (pts, self2).
Proof.
  assert (Hfresh : fresh_valid (init (-30) 90 (3 / 280) None 1) 1 4).
  { unfold fresh_valid. cbn [phaseSettings phaseSettingsRaw gainSettings antennaGrid
                               antennaInvert waveLength theta beamStrength phaseCal init].
    repeat match goal with |- _ /\ _ => split end.
    all: try reflexivity.
    all: try exact I.
    all: try lra.
    all: try (rewrite radians_m30, cos_neg, cos_PI6;
              pose proof (sqrt_lt_R0 3 ltac:(lra)); lra).
    all: try (cbn; tauto).
    all: repeat constructor. }
  destruct (generateAllAF_single_m30_90 (3 / 280) ltac:(lra)) as [self1 Hrun].
  cbv zeta in Hrun.
  assert (Hgrid : rectangular [[SW; SE; NW; NE]] 1 4) by (split; repeat constructor).
  destruct (generateAllAF_same_geometry _ 1 4 3 1 1 false true false _ self1
              [[SW; SE; NW; NE]] [[false; false; false; false]] Hfresh Hrun Hgrid)
    as [self2 Hrun2].
  eexists. exists self1, self2. split; [exact Hrun | exact Hrun2].
Defined.

(** X26 (the two patterns of testAfGen): with a calibration file that is
    absent, empty or complete, testAfGen computes the same 900 points twice:
    its setAntenna call installs the antenna that the controller already has
    (exact real arithmetic; 62 iterations of loop fuel are enough). *)
Theorem testAfGen_same_pattern (fuel : nat) (cal : option calmap) :
  cal_complete cal -> (62 <= fuel)%nat ->
  exists d : list sample, testAfGen fuel cal = Ok (d, d) /\ length d = 900%nat.
Proof.
  intros Hcal Hfuel. unfold testAfGen. cbv zeta.
  assert (Hf : 28 * 10 ^ 9 <> 0)
    by (apply Rmult_integral_contrapositive_currified; [lra | apply pow_nonzero; lra]).
  rewrite py_div_ok by exact Hf. cbn [bind].
  set (w := 3 * 10 ^ 8 / (28 * 10 ^ 9)).
  assert (Hw : w <> 0).
  { unfold w, Rdiv. apply Rmult_integral_contrapositive_currified.
    - apply Rmult_integral_contrapositive_currified; [lra | apply pow_nonzero; lra].
    - apply Rinv_neq_0_compat. exact Hf. }
  assert (Hcos : cos (radians 10) <> 0).
  { apply Rgt_not_eq. unfold radians. pose proof PI_RGT_0.
    apply cos_gt_0; lra. }
  assert (Hfresh : fresh_valid (init 10 90 w cal 1) 1 4).
  { unfold fresh_valid. cbn [phaseSettings phaseSettingsRaw gainSettings antennaGrid
                               antennaInvert waveLength theta beamStrength phaseCal init].
    repeat match goal with |- _ /\ _ => split end.
    all: try reflexivity.
    all: try assumption.
    all: try lra.
    all: try (cbn; tauto).
    all: repeat constructor. }
  destruct (generateAllAF_runs (init 10 90 w cal 1) 1 4 fuel 30 30 true true false
              Hfresh ltac:(lia) ltac:(lia) ltac:(simpl; lia)) as (pts & self1 & Hrun).
  assert (Hgrid : rectangular [[NE; NW; SE; SW]] 1 4) by (split; repeat constructor).
  destruct (generateAllAF_again _ 1 4 fuel 30 30 true true false pts self1
              [[NE; NW; SE; SW]] [[true; false; true; false]] Hfresh Hrun Hgrid)
    as [self2 Hrun2].
  cbn [antennaSpacing init] in Hrun2.
  rewrite Hrun. cbn [bind fst snd]. rewrite Hrun2. cbn [bind fst snd].
  exists pts. split; [reflexivity |].
  exact (proj2 (generateAllAF_grid fuel _ 30 30 true true false pts self1
                  ltac:(lia) ltac:(lia) Hrun)).
Qed.

Lemma testAfGen_same_pattern_witness :
  exists d : list sample, testAfGen 62 None = Ok (d, d) /\ length d = 900%nat.
Proof.
  exact (testAfGen_same_pattern 62 None I (Nat.le_refl 62)).
Defined.
